(** * oasis-utils: the send/receive integration harness and its MD5 comparison tool

    A shallow embedding of [tests/compare_md5.py],
    [tests/test_oasis_send_recv_integration.py] and [oasis_check_imd.py].

    - [Py] holds the fragment of Python's exception model both scripts rely
      on: the exception classes they name, [isinstance], and a result type
      for computations that either return or raise.
    - [CompareMd5] embeds [calculate_md5], [compare_directories] and the
      script's main block over a file-system oracle.
    - [Harness] embeds [cleanup], [check_command], [main_logic] and the
      main block of the integration test over an oracle for the external
      world (tools, child processes, devices) and an explicit store for the
      script's globals, the process table and the session directory.
    - [CheckImd] embeds [find_imd_files], [run_oasis_chkdsk] and [main] of
      the image checker over an oracle for the directory tree and the
      checker it runs. *)

From Stdlib Require Import ZArith String List Ascii Bool Lia.
From Stdlib.Strings Require Import Byte.
From stdpp Require Import base option list gmap sets strings sorting.

Set Warnings "-register-all,-clear-no-such-hyp".

Local Open Scope string_scope.
Local Open Scope list_scope.
Local Open Scope Z_scope.

(* ===================================================================== *)
(** ** Python exceptions *)
(* ===================================================================== *)

Module Py.

(** The exceptions the two scripts raise, catch or let through. *)
Inductive exn : Type :=
| SystemExit (code : Z)
| KeyboardInterrupt
| FileNotFoundError
| OSError                       (* [IOError] is an alias of [OSError] *)
| RuntimeError
| CalledProcessError (returncode : Z)
| TimeoutExpired
| OtherException.               (* any other subclass of [Exception] *)

(** The classes that appear in [except] clauses. *)
Inductive exn_class : Type :=
| CBaseException
| CException
| CSystemExit
| CKeyboardInterrupt
| COSError
| CFileNotFoundError
| CRuntimeError
| CCalledProcessError
| CTimeoutExpired.

(** [isinstance e c], following the class hierarchy: [SystemExit] and
    [KeyboardInterrupt] derive from [BaseException] only, everything else
    from [Exception]; [FileNotFoundError] derives from [OSError]. *)
Definition isinstance (e : exn) (c : exn_class) : bool :=
  match c, e with
  | CBaseException, _ => true
  | CException, (SystemExit _ | KeyboardInterrupt) => false
  | CException, _ => true
  | CSystemExit, SystemExit _ => true
  | CKeyboardInterrupt, KeyboardInterrupt => true
  | COSError, (OSError | FileNotFoundError) => true
  | CFileNotFoundError, FileNotFoundError => true
  | CRuntimeError, RuntimeError => true
  | CCalledProcessError, CalledProcessError _ => true
  | CTimeoutExpired, TimeoutExpired => true
  | _, _ => false
  end.

(** A call either returns a value or raises. *)
Inductive result (A : Type) : Type :=
| Return (a : A)
| Raise (e : exn).
Arguments Return {A} a.
Arguments Raise {A} e.

(** Python truthiness of an optional string ([None] and [""] are falsy). *)
Definition truthy (o : option string) : bool :=
  match o with
  | Some s => negb (String.eqb s "")
  | None => false
  end.

(** [s.endswith(suffix)]. *)
Definition endswith (s suffix : string) : bool :=
  let n := String.length s in
  let k := String.length suffix in
  (k <=? n)%nat && String.eqb (String.substring (n - k) k s) suffix.

(** [s.startswith(prefix)]. *)
Definition startswith (s pre : string) : bool :=
  String.eqb (String.substring 0 (String.length pre) s) pre
  && (String.length pre <=? String.length s)%nat.

(** [posixpath.join(a, b)]. *)
Definition path_join (a b : string) : string :=
  if startswith b "/" then b
  else if String.eqb a "" || endswith a "/" then a +:+ b
  else a +:+ "/" +:+ b.

End Py.

(* ===================================================================== *)
(** ** tests/compare_md5.py *)
(* ===================================================================== *)

Module CompareMd5.
Import Py.

(** [hashlib.md5()]: an incremental hash object. The digest function is
    the library's; the development is generic in it. *)
Class Hashlib : Type := {
  hstate : Type;
  md5_new : hstate;
  md5_update : hstate -> list byte -> hstate;
  md5_hexdigest : hstate -> string
}.

(** What can go wrong when a file is opened and read. All of these are
    subclasses of [Exception]. *)
Inductive file_error : Type :=
| ErrNotFound        (* FileNotFoundError *)
| ErrIO              (* IOError / OSError, e.g. permission denied *)
| ErrOther.          (* anything else raised while reading *)

Definition exn_of_file_error (e : file_error) : exn :=
  match e with
  | ErrNotFound => FileNotFoundError
  | ErrIO => OSError
  | ErrOther => OtherException
  end.

(** The file system as the script observes it. *)
Record filesystem : Type := {
  isdir : string -> bool;                       (* os.path.isdir *)
  isfile : string -> bool;                      (* os.path.isfile *)
  listdir : string -> result (list string);     (* os.listdir *)
  open_rb : string -> list byte + file_error;   (* open(p, "rb") and read *)
  abspath : string -> string;                   (* os.path.abspath *)
  basename : string -> string                   (* os.path.basename *)
}.

(** Lines written to standard output and standard error. *)
Inductive line : Type :=
| ErrFileNotFound (filepath : string)
| ErrReading (filepath : string) (e : exn)
| ErrUnexpected (filepath : string) (e : exn)
| ErrNotADirectory (dir : string)
| ErrListing (e : exn)
| OutComparingDirectories (abs1 abs2 : string)
| OutResultsHeader
| OutNoCommonFiles
| OutComparingCount (n : nat)
| OutComparing (filename : string)
| OutMatch (filename md5 : string)
| OutMismatch (filename base1 md5_1 base2 md5_2 : string)
| OutError (filename : string)
| OutSummary (total matched mismatched : nat)
| OutSummaryErrors (n : nat)
| OutDifferencesHeader
| OutOnlyIn (base : string) (n : nat)
| OutSkippedHeader
| OutItem (filename : string)
| OutComplete.

(** The locals of [compare_directories] when it returns. *)
Record comparison : Type := {
  common_files : gset string;
  files_only_in_dir1 : gset string;
  files_only_in_dir2 : gset string;
  matched_files : list string;
  mismatched_files : list string;
  error_files : list string
}.

(** The three lists the comparison loop appends to. *)
Record tally : Type := {
  t_matched : list string;
  t_mismatched : list string;
  t_error : list string
}.

(** [sorted(...)] on file names: Python orders [str] by code point, which
    on the bytes of a string is [String.leb]. *)
Definition str_le (a b : string) : Prop := String.leb a b = true.
#[export] Instance str_le_dec a b : Decision (str_le a b).
Proof. unfold str_le. apply _. Defined.

Definition sorted (l : list string) : list string := merge_sort str_le l.

(** The verdict of one round of the comparison loop. *)
Inductive verdict : Type := VMatch | VMismatch | VError.

(** The default of [calculate_md5]'s [chunk_size] parameter. *)
Definition default_chunk_size : nat := N.to_nat 8192.

Section WithWorld.
Context {H : Hashlib}.
Variable fs : filesystem.

(** [for chunk in iter(lambda: f.read(chunk_size), b""): update(chunk)].
    Each round consumes a non-empty chunk, so [length data] rounds are
    enough; the fuel is that bound. *)
Fixpoint read_chunks (fuel chunk_size : nat) (data : list byte)
         (h : hstate) : hstate :=
  match fuel with
  | O => h
  | S fuel' =>
      match take chunk_size data with
      | [] => h
      | chunk => read_chunks fuel' chunk_size (drop chunk_size data)
                             (md5_update h chunk)
      end
  end.

Definition calculate_md5 (filepath : string) (chunk_size : nat)
  : result (option string) * list line :=
  let hash_md5 := md5_new in
  match open_rb fs filepath with
  | inl data =>
      (Return (Some (md5_hexdigest
                       (read_chunks (length data) chunk_size data hash_md5))),
       [])
  | inr err =>
      let e := exn_of_file_error err in
      if isinstance e CFileNotFoundError then
        (Return None, [ErrFileNotFound filepath])
      else if isinstance e COSError then
        (Return None, [ErrReading filepath e])
      else if isinstance e CException then
        (Return None, [ErrUnexpected filepath e])
      else (Raise e, [])
  end.

(** One round of the loop over the common files. *)
Definition compare_file (dir1 dir2 : string) (filename : string) (t : tally)
  : result tally * list line :=
  let filepath1 := path_join dir1 filename in
  let filepath2 := path_join dir2 filename in
  let out0 := [OutComparing filename] in
  match calculate_md5 filepath1 default_chunk_size with
  | (Raise e, o1) => (Raise e, out0 ++ o1)
  | (Return md5_1, o1) =>
      match calculate_md5 filepath2 default_chunk_size with
      | (Raise e, o2) => (Raise e, out0 ++ o1 ++ o2)
      | (Return md5_2, o2) =>
          match md5_1, md5_2 with
          | Some h1, Some h2 =>
              if String.eqb h1 h2 then
                (Return {| t_matched := t_matched t ++ [filename];
                           t_mismatched := t_mismatched t;
                           t_error := t_error t |},
                 out0 ++ o1 ++ o2 ++ [OutMatch filename h1])
              else
                (Return {| t_matched := t_matched t;
                           t_mismatched := t_mismatched t ++ [filename];
                           t_error := t_error t |},
                 out0 ++ o1 ++ o2 ++
                   [OutMismatch filename (basename fs dir1) h1
                                (basename fs dir2) h2])
          | _, _ =>
              (Return {| t_matched := t_matched t;
                         t_mismatched := t_mismatched t;
                         t_error := t_error t ++ [filename] |},
               out0 ++ o1 ++ o2 ++ [OutError filename])
          end
      end
  end.

Fixpoint compare_loop (dir1 dir2 : string) (files : list string) (t : tally)
  : result tally * list line :=
  match files with
  | [] => (Return t, [])
  | filename :: rest =>
      match compare_file dir1 dir2 filename t with
      | (Raise e, o) => (Raise e, o)
      | (Return t', o) =>
          let '(r, o') := compare_loop dir1 dir2 rest t' in (r, o ++ o')
      end
  end.

(** The set comprehension [{f for f in os.listdir(d) if isfile(join(d, f))}]. *)
Definition regular_files (dir : string) (names : list string) : gset string :=
  list_to_set (filter (fun f => isfile fs (path_join dir f) = true) names).

(** Section 5 of the function: the summary. *)
Definition summary (dir1 dir2 : string) (c : comparison) : list line :=
  [OutSummary (size (common_files c)) (length (matched_files c))
              (length (mismatched_files c))]
  ++ (if error_files c is [] then []
      else [OutSummaryErrors (length (error_files c))])
  ++ (if mismatched_files c is [] then []
      else OutDifferencesHeader :: map OutItem (sorted (mismatched_files c)))
  ++ (if decide (files_only_in_dir1 c = ∅) then []
      else OutOnlyIn (basename fs dir1) (size (files_only_in_dir1 c))
             :: map OutItem (sorted (elements (files_only_in_dir1 c))))
  ++ (if decide (files_only_in_dir2 c = ∅) then []
      else OutOnlyIn (basename fs dir2) (size (files_only_in_dir2 c))
             :: map OutItem (sorted (elements (files_only_in_dir2 c))))
  ++ (if error_files c is [] then []
      else OutSkippedHeader :: map OutItem (sorted (error_files c)))
  ++ [OutComplete].

Definition compare_directories (dir1 dir2 : string)
  : result comparison * list line :=
  if negb (isdir fs dir1) then (Raise (SystemExit 1), [ErrNotADirectory dir1])
  else if negb (isdir fs dir2) then (Raise (SystemExit 1), [ErrNotADirectory dir2])
  else
    let out1 := [OutComparingDirectories (abspath fs dir1) (abspath fs dir2)] in
    match listdir fs dir1 with
    | Raise e =>
        if isinstance e COSError
        then (Raise (SystemExit 1), out1 ++ [ErrListing e])
        else (Raise e, out1)
    | Return names1 =>
        match listdir fs dir2 with
        | Raise e =>
            if isinstance e COSError
            then (Raise (SystemExit 1), out1 ++ [ErrListing e])
            else (Raise e, out1)
        | Return names2 =>
            let files1 := regular_files dir1 names1 in
            let files2 := regular_files dir2 names2 in
            let common := files1 ∩ files2 in
            let only1 := files1 ∖ files2 in
            let only2 := files2 ∖ files1 in
            let out2 := out1 ++ [OutResultsHeader] in
            let '(r, out3) :=
              if decide (common = ∅) then
                (Return {| t_matched := []; t_mismatched := []; t_error := [] |},
                 [OutNoCommonFiles])
              else
                let '(r, o) :=
                  compare_loop dir1 dir2 (sorted (elements common))
                    {| t_matched := []; t_mismatched := []; t_error := [] |} in
                (r, OutComparingCount (size common) :: o) in
            match r with
            | Raise e => (Raise e, out2 ++ out3)
            | Return t =>
                let c := {| common_files := common;
                            files_only_in_dir1 := only1;
                            files_only_in_dir2 := only2;
                            matched_files := t_matched t;
                            mismatched_files := t_mismatched t;
                            error_files := t_error t |} in
                (Return c, out2 ++ out3 ++ summary dir1 dir2 c)
            end
        end
    end.

(** The script run as a process: its exit status and what it wrote. An
    uncaught exception ends the interpreter with status 1. *)
Definition main (dir1 dir2 : string) : Z * list line :=
  match compare_directories dir1 dir2 with
  | (Return _, out) => (0, out)
  | (Raise (SystemExit code), out) => (code, out)
  | (Raise _, out) => (1, out)
  end.

(** *** Reading the loop

    The next definitions are not in the script; they name what one
    round of its loop decides, for use in statements. *)

(** The digest of a readable file, as an optional string. *)
Definition digest_of (filepath : string) : option string :=
  match open_rb fs filepath with
  | inl data =>
      Some (md5_hexdigest
              (read_chunks (length data) default_chunk_size data md5_new))
  | inr _ => None
  end.

Definition verdict_of (dir1 dir2 filename : string) : verdict :=
  match digest_of (path_join dir1 filename), digest_of (path_join dir2 filename) with
  | Some h1, Some h2 => if String.eqb h1 h2 then VMatch else VMismatch
  | _, _ => VError
  end.

Definition has_verdict (dir1 dir2 : string) (v : verdict) (filename : string) : bool :=
  match verdict_of dir1 dir2 filename, v with
  | VMatch, VMatch | VMismatch, VMismatch | VError, VError => true
  | _, _ => false
  end.

End WithWorld.

End CompareMd5.

(* ===================================================================== *)
(** ** tests/test_oasis_send_recv_integration.py *)
(* ===================================================================== *)

Module Harness.
Import Py.

(** *** The session directory *)

(** What lives at the session root path: regular files and directories.
    A directory carries whether entries may be added to or removed from
    it (its write permission); that is what [mkdir] and [shutil.rmtree]
    depend on. *)
Inductive node : Type :=
| File (name : string)
| Dir (name : string) (writable : bool) (children : list node).

Definition node_name (n : node) : string :=
  match n with File name | Dir name _ _ => name end.

Definition is_file (n : node) : bool :=
  match n with File _ => true | Dir _ _ _ => false end.

(** [shutil.rmtree(p, ignore_errors=True)] seen from the directory that
    holds the entry, whose write permission is [w]: a file is unlinked
    when [w] allows it; a directory is emptied first, and removed when it
    became empty and [w] allows it. Errors are ignored, so what could not
    be removed stays. [None] means the entry is gone. *)
Fixpoint rmtree_node (w : bool) (n : node) : option node :=
  match n with
  | File name => if w then None else Some (File name)
  | Dir name w' cs =>
      match omap (rmtree_node w') cs with
      | [] => if w then None else Some (Dir name w' [])
      | remaining => Some (Dir name w' remaining)
      end
  end.

(** [shutil.rmtree(root, ignore_errors=True)] on the session root, which
    lives in the working directory (write permission [cwd_w]). On a path
    that is not a directory the call fails, and the failure is ignored. *)
Definition rmtree (cwd_w : bool) (root : node) : option node :=
  match root with
  | File _ => Some root
  | Dir _ _ _ => rmtree_node cwd_w root
  end.

Definition find_child (name : string) (cs : list node) : option node :=
  List.find (fun c => String.eqb (node_name c) name) cs.

(** [(root / name).mkdir(parents=True, exist_ok=True)]; [root_name] is
    the name of the session root, created when absent. New directories
    are writable. A path component that is a regular file, or a parent
    that refuses new entries, raises a subclass of [OSError]. *)
Definition mkdir (cwd_w : bool) (root_name name : string) (root : option node)
  : result (option node) :=
  match root with
  | None =>
      if cwd_w then Return (Some (Dir root_name true [Dir name true []]))
      else Raise OSError
  | Some (File _) => Raise OSError
  | Some (Dir rn w cs) =>
      match find_child name cs with
      | Some (Dir _ _ _) => Return root
      | Some (File _) => Raise OSError
      | None => if w then Return (Some (Dir rn w (cs ++ [Dir name true []])))
                else Raise OSError
      end
  end.

(** [list((root / name).iterdir())]. *)
Definition iterdir (name : string) (root : option node) : result (list node) :=
  match root with
  | Some (Dir _ _ cs) =>
      match find_child name cs with
      | Some (Dir _ _ entries) => Return entries
      | Some (File _) => Raise OSError
      | None => Raise FileNotFoundError
      end
  | _ => Raise FileNotFoundError
  end.

(** An external tool writing [entries] into the sub-directory [name]. *)
Definition populate (name : string) (entries : list node) (root : option node)
  : option node :=
  match root with
  | Some (Dir rn w cs) =>
      Some (Dir rn w
              (map (fun c => match c with
                             | Dir n w' old =>
                                 if String.eqb n name then Dir n w' (old ++ entries)
                                 else c
                             | File _ => c
                             end) cs))
  | _ => root
  end.

(** *** Processes *)

(** The child processes the harness keeps a handle on. *)
Inductive proc : Type := Socat | Receiver | Sender.

(** The tools it runs to completion with [subprocess.run]. *)
Inductive tool : Type := Extractor | Comparer.

(** What the process table knows of a started child. *)
Inductive pstatus : Type :=
| Running
| Terminated            (* [terminate()] delivered SIGTERM *)
| Killed                (* [kill()] delivered SIGKILL *)
| Exited (returncode : Z).

(** The process table: [None] for a child that was never started. *)
Record ptable : Type := {
  pt_socat : option pstatus;
  pt_receiver : option pstatus;
  pt_sender : option pstatus
}.

Definition pt_get (t : ptable) (p : proc) : option pstatus :=
  match p with
  | Socat => pt_socat t
  | Receiver => pt_receiver t
  | Sender => pt_sender t
  end.

Definition pt_set (t : ptable) (p : proc) (st : pstatus) : ptable :=
  match p with
  | Socat => {| pt_socat := Some st; pt_receiver := pt_receiver t; pt_sender := pt_sender t |}
  | Receiver => {| pt_socat := pt_socat t; pt_receiver := Some st; pt_sender := pt_sender t |}
  | Sender => {| pt_socat := pt_socat t; pt_receiver := pt_receiver t; pt_sender := Some st |}
  end.

(** How a [subprocess.run] or [Popen] call ends: the child's exit status,
    or no child at all (the executable could not be started, which
    raises a subclass of [OSError]). *)
Inductive run_outcome : Type :=
| Completed (returncode : Z)
| SpawnFailed.

(** *** The outside world *)

Inductive endpoint : Type := PtyA | PtyB.

(** Everything the script asks of its environment. The numbered oracles
    take the polling attempt they are asked in. *)
Record world : Type := {
  w_platform_win32 : bool;                   (* sys.platform == "win32" *)
  w_cwd : string;                            (* os.getcwd() *)
  w_cwd_writable : bool;
  w_getpid : string;                         (* os.getpid(), as printed *)
  w_path_str : string -> string;             (* str(pathlib.Path(s)) *)
  w_which : string -> option string;         (* shutil.which *)
  w_is_file : string -> bool;                (* Path.is_file() outside the session *)
  w_access_x : string -> bool;               (* os.access(p, os.X_OK) *)
  w_initial_session : option node;           (* what is at the session path at start *)
  w_spawn : proc -> bool;                    (* does Popen start the child? *)
  w_is_symlink : endpoint -> nat -> bool;    (* link.is_symlink(), first test *)
  w_is_symlink_report : endpoint -> nat -> bool;  (* the same, asked again for the report *)
  w_resolve : endpoint -> nat -> result string;   (* link.resolve(strict=True) *)
  w_exists : nat -> string -> bool;          (* target.exists() *)
  w_is_chr : nat -> string -> bool;          (* stat.S_ISCHR(target.stat().st_mode) *)
  w_exited_early : proc -> bool;             (* has the child exited when first polled? *)
  w_returncode : proc -> Z;                  (* the child's own exit status *)
  w_exits_on_terminate : bool;               (* does socat exit within the 0.5 s grace? *)
  w_extract : run_outcome;
  w_extracted : list node;                   (* what the extraction tool writes *)
  w_send : run_outcome;
  w_received : list node;                    (* what the receiver writes *)
  w_compare : run_outcome;
  w_compare_stdout : list CompareMd5.line;
  w_compare_stderr : string;
  w_interrupt : option nat                   (* Ctrl+C before the n-th suspension point *)
}.

(** *** Configuration *)

Definition TEMP_BASE_DIR_NAME (w : world) : string :=
  "test_send_recv_temp_" +:+ w_getpid w.
Definition EXTRACTED_DIR_NAME : string := "extracted_files".
Definition RECEIVED_DIR_NAME : string := "received_files".
Definition PTY_A_SYMLINK_NAME : string := "pty_a_symlink".
Definition PTY_B_SYMLINK_NAME : string := "pty_b_symlink".

(** *** Output and effects *)

Inductive msg : Type :=
| MsgCleaningUp
| MsgStoppingSocat
| MsgForcingSocat
| MsgRemovingTemp (path : string)
| MsgCleanupComplete
| MsgFound (cmd_name path : string)
| MsgFoundDirect (cmd_name path : string)
| MsgErrNotExecutable (cmd_name path : string)
| MsgErrCommandNotFound (cmd_name cmd_path_str : string)
| MsgStarting
| MsgUsingPorts (recv send : string)
| MsgErrBothPorts
| MsgErrWindowsNeedsPorts
| MsgWillUseSocat
| MsgErrDiskImage (disk_image : string)
| MsgUsingDiskImage (path : string)
| MsgCreatingDirs
| MsgStartingSocat
| MsgSocatStarted
| MsgErrStartingSocat
| MsgWaitingForPty
| MsgPtyNotReady (symlink_a symlink_b : bool) (resolved_a resolved_b : option string)
                 (attempt max_attempts : nat)
| MsgErrPtyTimeout
| MsgPtyA (port : string)
| MsgPtyB (port : string)
| MsgExtracting
| MsgErrExtract (returncode : Z)
| MsgExtracted (n : nat)
| MsgNoFilesExtracted
| MsgNoFilesToTransfer
| MsgStartingTransfer (send recv : option string)
| MsgStartingRecv
| MsgRecvStarted
| MsgErrNoFilesToSend
| MsgSending
| MsgErrSend (returncode : Z)
| MsgSendCompleted
| MsgWaitingForRecv
| MsgErrRecv (returncode : Z)
| MsgRecvCompleted
| MsgErrDuringTransfer (e : exn)
| MsgTerminatingRecv
| MsgTransferComplete
| MsgComparing
| MsgErrNoPython
| MsgCompareStdout (report : list CompareMd5.line)
| MsgCompareStderr (text : string)
| MsgErrCompare (returncode : Z)
| MsgVerified
| MsgPassed
| MsgExitingWithCode (code : Z)
| MsgInterrupted
| MsgUnexpected (e : exn).

Inductive event : Type :=
| EvPrint (m : msg)
| EvPopen (p : proc) (argv : list string)
| EvRun (t : tool) (argv : list string)
| EvTerminate (p : proc)
| EvKill (p : proc)
| EvWait (p : proc)
| EvMkdir (path : string)
| EvRmtree (path : string)
| EvProbe (attempt : nat)
| EvSleep.

(** *** The store *)

(** The script's five globals, then what it acts on: the process table,
    the session directory, the log of effects in the order they happened
    and the pending interruption. *)
Record state : Type := {
  socat_process : option proc;
  port_for_recv : option string;
  port_for_send : option string;
  temp_base_dir_path : option string;
  use_socat_globally : bool;
  procs : ptable;
  session : option node;
  trace : list event;
  interrupt_in : option nat
}.

Definition initial_state (w : world) : state :=
  {| socat_process := None;
     port_for_recv := None;
     port_for_send := None;
     temp_base_dir_path := None;
     use_socat_globally := false;
     procs := {| pt_socat := None; pt_receiver := None; pt_sender := None |};
     session := w_initial_session w;
     trace := [];
     interrupt_in := w_interrupt w |}.

Definition set_socat_process (v : option proc) (s : state) : state :=
  {| socat_process := v; port_for_recv := port_for_recv s;
     port_for_send := port_for_send s; temp_base_dir_path := temp_base_dir_path s;
     use_socat_globally := use_socat_globally s; procs := procs s;
     session := session s; trace := trace s; interrupt_in := interrupt_in s |}.
Definition set_port_for_recv (v : option string) (s : state) : state :=
  {| socat_process := socat_process s; port_for_recv := v;
     port_for_send := port_for_send s; temp_base_dir_path := temp_base_dir_path s;
     use_socat_globally := use_socat_globally s; procs := procs s;
     session := session s; trace := trace s; interrupt_in := interrupt_in s |}.
Definition set_port_for_send (v : option string) (s : state) : state :=
  {| socat_process := socat_process s; port_for_recv := port_for_recv s;
     port_for_send := v; temp_base_dir_path := temp_base_dir_path s;
     use_socat_globally := use_socat_globally s; procs := procs s;
     session := session s; trace := trace s; interrupt_in := interrupt_in s |}.
Definition set_temp_base_dir_path (v : option string) (s : state) : state :=
  {| socat_process := socat_process s; port_for_recv := port_for_recv s;
     port_for_send := port_for_send s; temp_base_dir_path := v;
     use_socat_globally := use_socat_globally s; procs := procs s;
     session := session s; trace := trace s; interrupt_in := interrupt_in s |}.
Definition set_use_socat_globally (v : bool) (s : state) : state :=
  {| socat_process := socat_process s; port_for_recv := port_for_recv s;
     port_for_send := port_for_send s; temp_base_dir_path := temp_base_dir_path s;
     use_socat_globally := v; procs := procs s;
     session := session s; trace := trace s; interrupt_in := interrupt_in s |}.
Definition set_procs (v : ptable) (s : state) : state :=
  {| socat_process := socat_process s; port_for_recv := port_for_recv s;
     port_for_send := port_for_send s; temp_base_dir_path := temp_base_dir_path s;
     use_socat_globally := use_socat_globally s; procs := v;
     session := session s; trace := trace s; interrupt_in := interrupt_in s |}.
Definition set_session (v : option node) (s : state) : state :=
  {| socat_process := socat_process s; port_for_recv := port_for_recv s;
     port_for_send := port_for_send s; temp_base_dir_path := temp_base_dir_path s;
     use_socat_globally := use_socat_globally s; procs := procs s;
     session := v; trace := trace s; interrupt_in := interrupt_in s |}.
Definition set_trace (v : list event) (s : state) : state :=
  {| socat_process := socat_process s; port_for_recv := port_for_recv s;
     port_for_send := port_for_send s; temp_base_dir_path := temp_base_dir_path s;
     use_socat_globally := use_socat_globally s; procs := procs s;
     session := session s; trace := v; interrupt_in := interrupt_in s |}.
Definition set_interrupt_in (v : option nat) (s : state) : state :=
  {| socat_process := socat_process s; port_for_recv := port_for_recv s;
     port_for_send := port_for_send s; temp_base_dir_path := temp_base_dir_path s;
     use_socat_globally := use_socat_globally s; procs := procs s;
     session := session s; trace := trace s; interrupt_in := v |}.

(** *** A state and exception monad *)

Definition M (A : Type) : Type := state -> result A * state.

Definition ret {A} (a : A) : M A := fun s => (Return a, s).
Definition raise {A} (e : exn) : M A := fun s => (Raise e, s).
Definition bind {A B} (m : M A) (k : A -> M B) : M B :=
  fun s => match m s with
           | (Return a, s') => k a s'
           | (Raise e, s') => (Raise e, s')
           end.
Definition get : M state := fun s => (Return s, s).
Definition modify (f : state -> state) : M unit := fun s => (Return tt, f s).

(** [try: m  except ...: h e]; the handler decides what it catches and
    re-raises the rest. *)
Definition try_except {A} (m : M A) (h : exn -> M A) : M A :=
  fun s => match m s with
           | (Return a, s') => (Return a, s')
           | (Raise e, s') => h e s'
           end.

(** An [except C:] clause. *)
Definition except {A} (c : exn_class) (h : exn -> M A) (e : exn) : M A :=
  if isinstance e c then h e else raise e.


(** [try: m  finally: f]. *)
Definition try_finally {A} (m : M A) (f : M unit) : M A :=
  fun s => match m s with
           | (r, s') =>
               match f s' with
               | (Return _, s'') => (r, s'')
               | (Raise e, s'') => (Raise e, s'')
               end
           end.

#[export] Instance M_ret : MRet M := @ret.
#[export] Instance M_bind : MBind M := fun A B k m => bind m k.

Definition emit (e : event) : M unit :=
  modify (fun s => set_trace (trace s ++ [e]) s).
Definition print (m : msg) : M unit := emit (EvPrint m).
Definition sys_exit {A} (code : Z) : M A := raise (SystemExit code).

(** A suspension point: where a pending [KeyboardInterrupt] is delivered. *)
Definition tick : M unit :=
  fun s => match interrupt_in s with
           | Some O => (Raise KeyboardInterrupt, set_interrupt_in None s)
           | Some (S n) => (Return tt, set_interrupt_in (Some n) s)
           | None => (Return tt, s)
           end.

(** [time.sleep(...)]. *)
Definition sleep : M unit := tick;; emit EvSleep.

Definition set_status (p : proc) (st : pstatus) : M unit :=
  modify (fun s => set_procs (pt_set (procs s) p st) s).

Section WithWorld.
Variable w : world.

(** [subprocess.Popen(argv)]. *)
Definition popen (p : proc) (argv : list string) : M proc :=
  tick;;
  if w_spawn w p then
    emit (EvPopen p argv);; set_status p Running;; mret p
  else raise OSError.

(** [handle.poll()]: the exit status if the child is known to be gone. *)
Definition poll (p : proc) : M (option Z) :=
  s ← get;
  match pt_get (procs s) p with
  | Some Running =>
      if w_exited_early w p
      then set_status p (Exited (w_returncode w p));; mret (Some (w_returncode w p))
      else mret None
  | Some Terminated => mret None
  | Some Killed => mret (Some (-9))
  | Some (Exited rc) => mret (Some rc)
  | None => mret None
  end.

(** [handle.terminate()] and [handle.kill()]: no signal is sent to a
    child that has already exited. *)
Definition terminate (p : proc) : M unit :=
  emit (EvTerminate p);;
  rc ← poll p;
  match rc with
  | Some _ => mret tt
  | None => set_status p Terminated
  end.

Definition kill (p : proc) : M unit :=
  emit (EvKill p);;
  rc ← poll p;
  match rc with
  | Some _ => mret tt
  | None => set_status p Killed
  end.

(** [handle.wait()]: blocks until the child is gone. *)
Definition wait (p : proc) : M Z :=
  tick;;
  emit (EvWait p);;
  s ← get;
  match pt_get (procs s) p with
  | Some (Exited rc) => mret rc
  | Some Killed => mret (-9)
  | Some Terminated => set_status p (Exited (-15));; mret (-15)
  | _ => set_status p (Exited (w_returncode w p));; mret (w_returncode w p)
  end.

(** [handle.wait(timeout=0.5)]. *)
Definition wait_timeout (p : proc) : M Z :=
  emit (EvWait p);;
  s ← get;
  match pt_get (procs s) p with
  | Some (Exited rc) => mret rc
  | Some Killed => mret (-9)
  | Some Terminated =>
      if w_exits_on_terminate w
      then set_status p (Exited (-15));; mret (-15)
      else raise TimeoutExpired
  | _ =>
      if w_exited_early w p
      then set_status p (Exited (w_returncode w p));; mret (w_returncode w p)
      else raise TimeoutExpired
  end.

(** [subprocess.run(argv, check=...)] for a tool that runs to
    completion; [effect] is what the tool does to the session
    directory. *)
Definition run_tool (t : tool) (argv : list string) (outcome : run_outcome)
           (check : bool) (effect : option node -> option node) : M Z :=
  tick;;
  emit (EvRun t argv);;
  match outcome with
  | SpawnFailed => raise OSError
  | Completed rc =>
      tick;;
      modify (fun s => set_session (effect (session s)) s);;
      if check && negb (rc =? 0) then raise (CalledProcessError rc)
      else mret rc
  end.

(** [subprocess.run(send_cmd_list)]: the sender is a child like the
    receiver, but waited for at once. The second suspension point is the
    wait; when it is interrupted the sender is still running, and
    [subprocess.run] kills it before it lets the exception through. *)
Definition run_sender (argv : list string) : M Z :=
  tick;;
  match w_send w with
  | SpawnFailed => raise OSError
  | Completed rc =>
      emit (EvPopen Sender argv);;
      set_status Sender Running;;
      try_except tick
        (fun e => emit (EvKill Sender);; set_status Sender Killed;; raise e);;
      set_status Sender (Exited rc);;
      mret rc
  end.

(** *** [cleanup] *)

Definition cleanup : M unit :=
  print MsgCleaningUp;;
  s ← get;
  match use_socat_globally s, socat_process s with
  | true, Some p =>
      print MsgStoppingSocat;;
      terminate p;;
      try_except (wait_timeout p;; mret tt)
        (except CTimeoutExpired (fun _ => print MsgForcingSocat;; kill p));;
      modify (set_socat_process None)
  | _, _ => mret tt
  end;;
  s ← get;
  match temp_base_dir_path s, session s with
  | Some path, Some root =>
      print (MsgRemovingTemp path);;
      emit (EvRmtree path);;
      modify (set_session (rmtree (w_cwd_writable w) root))
  | _, _ => mret tt
  end;;
  print MsgCleanupComplete.

(** *** [check_command] *)

Definition check_command (cmd_path_str cmd_name : string) : M string :=
  tick;;
  let cmd_path := w_path_str w cmd_path_str in
  let resolved_path_str := w_which w cmd_path in
  if truthy resolved_path_str then
    let resolved_path := w_path_str w (default "" resolved_path_str) in
    if w_is_file w resolved_path && w_access_x w resolved_path then
      print (MsgFound cmd_name resolved_path);;
      mret resolved_path
    else
      print (MsgErrNotExecutable cmd_name resolved_path);;
      sys_exit 1
  else
    if w_is_file w cmd_path && w_access_x w cmd_path then
      print (MsgFoundDirect cmd_name cmd_path);;
      mret cmd_path
    else
      print (MsgErrCommandNotFound cmd_name cmd_path_str);;
      sys_exit 1.


(** *** [main_logic] *)

Record args : Type := {
  oasis_disk_util_exec : string;
  oasis_send_exec : string;
  oasis_recv_exec : string;
  disk_image : string;
  compare_md5_exec : string;
  com_port_recv_arg : option string;
  com_port_send_arg : option string
}.

(** The commands resolved by section 1. *)
Record tools : Type := {
  socat_cmd : option string;
  oasis_disk_util_cmd : string;
  oasis_send_cmd : string;
  oasis_recv_cmd : string;
  compare_md5_cmd : string
}.

(** A port global as it is put on a command line. *)
Definition port_arg (o : option string) : string := default "None" o.

(** 0. Initial checks and port strategy. *)
Definition port_strategy (a : args) : M unit :=
  modify (set_use_socat_globally false);;
  if truthy (com_port_recv_arg a) && truthy (com_port_send_arg a) then
    print (MsgUsingPorts (port_arg (com_port_recv_arg a))
                         (port_arg (com_port_send_arg a)));;
    modify (set_port_for_recv (com_port_recv_arg a));;
    modify (set_port_for_send (com_port_send_arg a))
  else if truthy (com_port_recv_arg a) || truthy (com_port_send_arg a) then
    print MsgErrBothPorts;;
    sys_exit 1
  else if w_platform_win32 w then
    print MsgErrWindowsNeedsPorts;;
    sys_exit 1
  else
    print MsgWillUseSocat;;
    modify (set_use_socat_globally true).

(** 1. Tool checks. [None] stands for the [return] of the
    [except SystemExit] clause. *)
Definition tool_checks (a : args) : M (option tools) :=
  try_except
    (s ← get;
     socat ← (if use_socat_globally s
              then p ← check_command "socat" "socat"; mret (Some p)
              else mret None);
     disk_util ← check_command (oasis_disk_util_exec a) "oasis_disk_util";
     send ← check_command (oasis_send_exec a) "oasis_send";
     recv ← check_command (oasis_recv_exec a) "oasis_recv";
     compare ← check_command (compare_md5_exec a) "compare_md5.py";
     mret (Some {| socat_cmd := socat; oasis_disk_util_cmd := disk_util;
                   oasis_send_cmd := send; oasis_recv_cmd := recv;
                   compare_md5_cmd := compare |}))
    (except CSystemExit (fun _ => mret None)).

Definition check_disk_image (a : args) : M string :=
  let disk_image_path := w_path_str w (disk_image a) in
  if negb (w_is_file w disk_image_path) then
    print (MsgErrDiskImage (disk_image a));;
    sys_exit 1
  else
    print (MsgUsingDiskImage disk_image_path);;
    mret disk_image_path.

(** 2. Set up the temporary directories. Returns the session root path. *)
Definition make_dir (base sub : string) : M unit :=
  tick;;
  emit (EvMkdir (path_join base sub));;
  s ← get;
  match mkdir (w_cwd_writable w) (TEMP_BASE_DIR_NAME w) sub (session s) with
  | Return root' => modify (set_session root')
  | Raise e => raise e
  end.

Definition setup_directories : M string :=
  let base := path_join (w_path_str w (w_cwd w)) (TEMP_BASE_DIR_NAME w) in
  modify (set_temp_base_dir_path (Some base));;
  print MsgCreatingDirs;;
  s ← get;
  match session s with
  | Some root =>
      tick;;
      emit (EvRmtree base);;
      modify (set_session (rmtree (w_cwd_writable w) root))
  | None => mret tt
  end;;
  make_dir base EXTRACTED_DIR_NAME;;
  make_dir base RECEIVED_DIR_NAME;;
  mret base.

(** 3. Socat set-up. *)
Definition max_pty_wait_seconds : nat := 15.

(** One endpoint's test inside the polling loop: an endpoint that is
    already resolved is not looked at again. *)
Definition probe (ep : endpoint) (i : nat) (local_pty_path : option string)
  : M (option string) :=
  match local_pty_path with
  | Some _ => mret local_pty_path
  | None =>
      if w_is_symlink w ep i then
        match w_resolve w ep i with
        | Return temp_path =>
            if w_exists w i temp_path && w_is_chr w i temp_path
            then mret (Some temp_path)
            else mret None
        | Raise e =>
            if isinstance e CFileNotFoundError || isinstance e CRuntimeError
            then mret None
            else raise e
        end
      else mret None
  end.

(** [for i in range(max_pty_wait_seconds): ... else: ...], with
    [remaining] rounds to go from index [i]. *)
Fixpoint wait_for_pty (remaining i : nat) (pty_a pty_b : option string)
  : M (string * string) :=
  match remaining with
  | O =>
      print MsgErrPtyTimeout;;
      s ← get;
      match socat_process s with
      | Some p =>
          rc ← poll p;
          if rc is None then kill p else mret tt
      | None => mret tt
      end;;
      sys_exit 1
  | S remaining' =>
      emit (EvProbe i);;
      pty_a ← probe PtyA i pty_a;
      pty_b ← probe PtyB i pty_b;
      match pty_a, pty_b with
      | Some pa, Some pb => mret (pa, pb)
      | _, _ =>
          print (MsgPtyNotReady (w_is_symlink_report w PtyA i)
                                (w_is_symlink_report w PtyB i)
                                pty_a pty_b (i + 1) max_pty_wait_seconds);;
          sleep;;
          wait_for_pty remaining' (S i) pty_a pty_b
      end
  end.

Definition socat_setup (t : tools) (base : string) : M unit :=
  s ← get;
  if use_socat_globally s then
    let pty_a_symlink_path := path_join base PTY_A_SYMLINK_NAME in
    let pty_b_symlink_path := path_join base PTY_B_SYMLINK_NAME in
    print MsgStartingSocat;;
    let socat_cmd_list :=
      [port_arg (socat_cmd t); "-d"; "-d";
       "pty,raw,echo=0,link=" +:+ pty_a_symlink_path;
       "pty,raw,echo=0,link=" +:+ pty_b_symlink_path] in
    try_except
      (p ← popen Socat socat_cmd_list;
       modify (set_socat_process (Some p));;
       print MsgSocatStarted)
      (except CException (fun _ => print MsgErrStartingSocat;; sys_exit 1));;
    print MsgWaitingForPty;;
    '(pa, pb) ← wait_for_pty max_pty_wait_seconds 0 None None;
    modify (set_port_for_recv (Some pa));;
    modify (set_port_for_send (Some pb));;
    print (MsgPtyA pa);;
    print (MsgPtyB pb);;
    sleep
  else mret tt.

(** 4. Extraction. *)
Definition extraction (t : tools) (disk_image_path base : string) : M unit :=
  let extracted_dir := path_join base EXTRACTED_DIR_NAME in
  print MsgExtracting;;
  let extract_cmd :=
    [oasis_disk_util_cmd t; disk_image_path; "extract"; extracted_dir; "-u"; "*"] in
  try_except
    (run_tool Extractor extract_cmd (w_extract w) true
              (populate EXTRACTED_DIR_NAME (w_extracted w));; mret tt)
    (except CCalledProcessError
       (fun e => print (MsgErrExtract
                          (if e is CalledProcessError rc then rc else 0));;
                 sys_exit 1));;
  s ← get;
  match iterdir EXTRACTED_DIR_NAME (session s) with
  | Raise e => raise e
  | Return entries =>
      let num_extracted := length (filter (fun p => is_file p = true) entries) in
      print (MsgExtracted num_extracted);;
      if (num_extracted =? 0)%nat then
        print MsgNoFilesExtracted;;
        print MsgNoFilesToTransfer;;
        sys_exit 0
      else mret tt
  end.

(** 5. Send and receive. The handler of [except Exception] reads the
    local [recv_process_obj]; it is set exactly when [Popen] returned,
    that is when the process table has a receiver. *)
Definition recv_process_obj (s : state) : option proc :=
  if pt_get (procs s) Receiver is Some _ then Some Receiver else None.

Definition terminate_if_running (p : proc) : M unit :=
  rc ← poll p;
  if rc is None then terminate p else mret tt.

Definition send_and_receive (t : tools) (base : string) : M unit :=
  let extracted_dir := path_join base EXTRACTED_DIR_NAME in
  let received_dir := path_join base RECEIVED_DIR_NAME in
  s ← get;
  print (MsgStartingTransfer (port_for_send s) (port_for_recv s));;
  try_except
    (print MsgStartingRecv;;
     s ← get;
     let recv_cmd_list :=
       [oasis_recv_cmd t; port_arg (port_for_recv s); received_dir;
        "--pacing-packet"; "10"] in
     recv ← popen Receiver recv_cmd_list;
     print MsgRecvStarted;;
     sleep;;
     s ← get;
     match iterdir EXTRACTED_DIR_NAME (session s) with
     | Raise e => raise e
     | Return entries =>
         let extracted_files_to_send :=
           map (fun f => path_join extracted_dir (node_name f))
               (filter (fun f => is_file f = true) entries) in
         if extracted_files_to_send is [] then
           print MsgErrNoFilesToSend;;
           terminate_if_running recv;;
           sys_exit 1
         else
           print MsgSending;;
           s ← get;
           let send_cmd_list :=
             [oasis_send_cmd t; port_arg (port_for_send s); "--pacing-packet"; "10"]
               ++ extracted_files_to_send in
           returncode ← run_sender send_cmd_list;
           if negb (returncode =? 0) then
             print (MsgErrSend returncode);;
             terminate_if_running recv;;
             sys_exit 1
           else
             print MsgSendCompleted;;
             print MsgWaitingForRecv;;
             rc ← wait recv;
             modify (fun s => set_session
                                (populate RECEIVED_DIR_NAME (w_received w) (session s)) s);;
             if negb (rc =? 0) then
               print (MsgErrRecv rc);;
               sys_exit 1
             else print MsgRecvCompleted
     end)
    (except CException
       (fun e =>
          print (MsgErrDuringTransfer e);;
          s ← get;
          match recv_process_obj s with
          | Some recv =>
              rc ← poll recv;
              if rc is None then print MsgTerminatingRecv;; terminate recv
              else mret tt
          | None => mret tt
          end;;
          sys_exit 1));;
  print MsgTransferComplete.

(** 6. Comparison. *)
Definition comparison (a : args) (t : tools) (base : string) : M unit :=
  let extracted_dir := path_join base EXTRACTED_DIR_NAME in
  let received_dir := path_join base RECEIVED_DIR_NAME in
  print MsgComparing;;
  compare_cmd_list ←
    (if endswith (compare_md5_exec a) ".py" then
       let python_exe :=
         if truthy (w_which w "python3") then w_which w "python3"
         else w_which w "python" in
       if negb (truthy python_exe) then
         print MsgErrNoPython;;
         sys_exit 1
       else mret [port_arg python_exe; compare_md5_cmd t; extracted_dir; received_dir]
     else mret [compare_md5_cmd t; extracted_dir; received_dir]);
  try_except
    (run_tool Comparer compare_cmd_list (w_compare w) true id;;
     print (MsgCompareStdout (w_compare_stdout w));;
     if negb (String.eqb (w_compare_stderr w) "")
     then print (MsgCompareStderr (w_compare_stderr w))
     else mret tt)
    (except CCalledProcessError
       (fun e => print (MsgErrCompare
                          (if e is CalledProcessError rc then rc else 0));;
                 print (MsgCompareStdout (w_compare_stdout w));;
                 print (MsgCompareStderr (w_compare_stderr w));;
                 sys_exit 1));;
  print MsgVerified;;
  print MsgPassed;;
  sys_exit 0.

Definition main_logic (a : args) : M unit :=
  print MsgStarting;;
  port_strategy a;;
  checked ← tool_checks a;
  match checked with
  | None => mret tt
  | Some t =>
      disk_image_path ← check_disk_image a;
      base ← setup_directories;
      socat_setup t base;;
      extraction t disk_image_path base;;
      send_and_receive t base;;
      comparison a t base
  end.

(** *** The main block *)

(** [if temp_base_dir_path and temp_base_dir_path.exists(): cleanup()]. *)
Definition fallback_cleanup : M unit :=
  s ← get;
  match temp_base_dir_path s, session s with
  | Some _, Some _ => cleanup
  | _, _ => mret tt
  end.

Definition main_block (a : args) : M unit :=
  try_finally
    (try_except (main_logic a)
       (fun e =>
          if isinstance e CSystemExit then
            let code := if e is SystemExit c then c else 0 in
            (if negb (code =? 0) then print (MsgExitingWithCode code) else mret tt);;
            s ← get;
            (if temp_base_dir_path s is Some _ then cleanup else mret tt);;
            sys_exit code
          else if isinstance e CKeyboardInterrupt then
            print MsgInterrupted;;
            cleanup;;
            sys_exit 1
          else if isinstance e CException then
            print (MsgUnexpected e);;
            cleanup;;
            sys_exit 1
          else raise e))
    fallback_cleanup.

(** The script run as a process: its exit status and the final store.
    Falling off the end exits with 0, [SystemExit] with its code, and
    an uncaught exception with 1. *)
Definition run_script (a : args) : Z * state :=
  match main_block a (initial_state w) with
  | (Return _, s) => (0, s)
  | (Raise (SystemExit code), s) => (code, s)
  | (Raise _, s) => (1, s)
  end.

End WithWorld.

(** *** Stages of a run

    The run is a sequence of stages; each has its own vocabulary of
    effects and its own footprint in the store. These definitions are
    not in the script: they are what the statements below are phrased
    with. *)

Inductive stage : Type :=
| StPorts | StTools | StDisk | StDirs | StSocat
| StExtract | StTransfer | StCompare | StExit.

(** The effects a stage may log. *)
Definition emitted_by (st : stage) (e : event) : bool :=
  match st, e with
  | StPorts, EvPrint (MsgStarting | MsgUsingPorts _ _ | MsgErrBothPorts
                      | MsgErrWindowsNeedsPorts | MsgWillUseSocat) => true
  | StTools, EvPrint (MsgFound _ _ | MsgFoundDirect _ _
                      | MsgErrNotExecutable _ _ | MsgErrCommandNotFound _ _) => true
  | StDisk, EvPrint (MsgErrDiskImage _ | MsgUsingDiskImage _) => true
  | StDirs, (EvPrint MsgCreatingDirs | EvMkdir _ | EvRmtree _) => true
  | StSocat, (EvPrint (MsgStartingSocat | MsgSocatStarted | MsgErrStartingSocat
                       | MsgWaitingForPty | MsgPtyNotReady _ _ _ _ _ _
                       | MsgErrPtyTimeout | MsgPtyA _ | MsgPtyB _)
              | EvPopen Socat _ | EvProbe _ | EvSleep | EvKill Socat) => true
  | StExtract, (EvPrint (MsgExtracting | MsgErrExtract _ | MsgExtracted _
                         | MsgNoFilesExtracted | MsgNoFilesToTransfer)
                | EvRun Extractor _) => true
  | StTransfer, (EvPrint (MsgStartingTransfer _ _ | MsgStartingRecv | MsgRecvStarted
                          | MsgErrNoFilesToSend | MsgSending | MsgErrSend _
                          | MsgSendCompleted | MsgWaitingForRecv | MsgErrRecv _
                          | MsgRecvCompleted | MsgErrDuringTransfer _
                          | MsgTerminatingRecv | MsgTransferComplete)
                 | EvPopen (Receiver | Sender) _ | EvSleep
                 | EvTerminate Receiver | EvKill Sender | EvWait Receiver) => true
  | StCompare, (EvPrint (MsgComparing | MsgErrNoPython | MsgCompareStdout _
                         | MsgCompareStderr _ | MsgErrCompare _ | MsgVerified
                         | MsgPassed)
                | EvRun Comparer _) => true
  | StExit, (EvPrint (MsgExitingWithCode _ | MsgInterrupted | MsgUnexpected _
                      | MsgCleaningUp | MsgStoppingSocat | MsgForcingSocat
                      | MsgRemovingTemp _ | MsgCleanupComplete)
             | EvTerminate Socat | EvWait Socat | EvKill Socat | EvRmtree _) => true
  | _, _ => false
  end.

(** The only handle ever stored in the global is socat's. *)
Definition socat_handle_ok (s : state) : Prop :=
  socat_process s = None ∨ socat_process s = Some Socat.

(** The part of the store a stage leaves alone. *)
Definition keeps (st : stage) (s s' : state) : Prop :=
  (if st is StTransfer then True
   else pt_receiver (procs s') = pt_receiver (procs s)
        ∧ pt_sender (procs s') = pt_sender (procs s))
  ∧ (if st is (StSocat | StExit) then True
     else pt_socat (procs s') = pt_socat (procs s)
          ∧ socat_process s' = socat_process s)
  ∧ (if st is (StDirs | StExtract | StTransfer | StExit) then True
     else session s' = session s)
  ∧ (if st is StDirs then True
     else temp_base_dir_path s' = temp_base_dir_path s)
  ∧ (if st is (StPorts | StSocat) then True
     else port_for_recv s' = port_for_recv s
          ∧ port_for_send s' = port_for_send s)
  ∧ (if st is StPorts then True
     else use_socat_globally s' = use_socat_globally s).

(** What was logged between two stores. *)
Definition new_events (s s' : state) : list event :=
  drop (length (trace s)) (trace s').

(** One stage taking the store from [s] to [s']. *)
Definition stage_step (st : stage) (s s' : state) : Prop :=
  (socat_handle_ok s → socat_handle_ok s')
  ∧ trace s' = trace s ++ new_events s s'
  ∧ Forall (fun e => emitted_by st e = true) (new_events s s')
  ∧ (interrupt_in s = None → interrupt_in s' = None)
  ∧ keeps st s s'.

(** How many polling attempts a log records. *)
Definition is_probe (e : event) : bool :=
  match e with EvProbe _ => true | _ => false end.

Definition attempts (tr : list event) : nat :=
  length (List.filter is_probe tr).

Section Readiness.
Variable w : world.

(** The readiness state of one endpoint after one more attempt, when
    resolving raises nothing but what the loop catches: it only moves
    forward. *)
Definition probed (ep : endpoint) (i : nat) (cur : option string)
  : option string :=
  match cur with
  | Some _ => cur
  | None =>
      if w_is_symlink w ep i then
        match w_resolve w ep i with
        | Return temp_path =>
            if w_exists w i temp_path && w_is_chr w i temp_path
            then Some temp_path else None
        | Raise _ => None
        end
      else None
  end.

(** The two readiness states after [n] attempts from index [i]. *)
Fixpoint readiness_after (n i : nat) (pty_a pty_b : option string)
  : option string * option string :=
  match n with
  | O => (pty_a, pty_b)
  | S n' => readiness_after n' (S i) (probed PtyA i pty_a) (probed PtyB i pty_b)
  end.

(** Resolving a link raises only what the loop catches. *)
Definition resolve_errors_caught : Prop :=
  ∀ ep i e, w_resolve w ep i = Raise e →
            isinstance e CFileNotFoundError || isinstance e CRuntimeError = true.
End Readiness.


(** *** Reading a run

    The remaining definitions of this module are not in the script either:
    they name what the statements about whole runs need. *)

(** Induction on directory trees. *)
Fixpoint node_ind' (P : node → Prop)
         (Hfile : ∀ name, P (File name))
         (Hdir : ∀ name w cs, Forall P cs → P (Dir name w cs))
         (n : node) : P n :=
  match n with
  | File name => Hfile name
  | Dir name w cs =>
      Hdir name w cs
           ((fix go (l : list node) : Forall P l :=
               match l with
               | [] => Forall_nil_2 P
               | c :: l' => Forall_cons_2 P c l' (node_ind' P Hfile Hdir c) (go l')
               end) cs)
  end.

(** What [cleanup] is observed to act on. *)
Definition observable (s : state) : option proc * ptable * option node :=
  (socat_process s, procs s, session s).

(** A resolver failure is one of [check_command]'s two error reports. *)
Definition is_resolver_error (e : event) : bool :=
  match e with
  | EvPrint (MsgErrNotExecutable _ _ | MsgErrCommandNotFound _ _) => true
  | _ => false
  end.

(** How a sequence of resolver calls can end; [P] is what is known of the
    value it returns. *)
Definition resolver_outcome {A} (P : A → Prop) (s : state) (r : result A)
           (s' : state) : Prop :=
  (∃ a, r = Return a ∧ P a
        ∧ Forall (fun e => is_resolver_error e = false) (new_events s s'))
  ∨ (r = Raise (SystemExit 1)
     ∧ ∃ pre e, new_events s s' = pre ++ [e] ∧ is_resolver_error e = true)
  ∨ (r = Raise KeyboardInterrupt
     ∧ Forall (fun e => is_resolver_error e = false) (new_events s s')).

Definition resolver_like {A} (P : A → Prop) (m : M A) : Prop :=
  ∀ s r s', m s = (r, s') → stage_step StTools s s' ∧ resolver_outcome P s r s'.

(** The exit status of the process, read off how [main_logic] ended. *)
Definition exit_status (r : result unit) : Z :=
  match r with
  | Return _ => 0
  | Raise (SystemExit code) => code
  | Raise _ => 1
  end.

(** The stages [main_logic] goes through, in order. *)
Definition all_stages : list stage :=
  [StPorts; StTools; StDisk; StDirs; StSocat; StExtract; StTransfer; StCompare].

(** Were both port identifiers supplied? *)
Definition both_ports (a : args) : bool :=
  truthy (com_port_recv_arg a) && truthy (com_port_send_arg a).

Section Runs.
Variable w : world.
Variable a : args.

(** What is known of a stage beyond its footprint. [stop] is how
    [main_logic] ended if it ended in this stage, and [None] if it went on
    to the next. *)
Definition stage_facts (st : stage) (s : state) (stop : option (result unit))
           (s' : state) : Prop :=
  match st with
  | StPorts =>
      both_ports a = true →
      stop = None
      ∧ use_socat_globally s' = false
      ∧ port_for_recv s' = com_port_recv_arg a
      ∧ port_for_send s' = com_port_send_arg a
  | StTools =>
      match stop with
      | None => Forall (fun e => is_resolver_error e = false) (new_events s s')
      | Some (Return _) =>
          ∃ pre e, new_events s s' = pre ++ [e] ∧ is_resolver_error e = true
      | Some (Raise e) =>
          e = KeyboardInterrupt
          ∧ Forall (fun e => is_resolver_error e = false) (new_events s s')
      end
  | StSocat =>
      (attempts (new_events s s') ≤ max_pty_wait_seconds)%nat
      ∧ (use_socat_globally s = false → stop = None ∧ s' = s)
      ∧ (interrupt_in s = None →
         resolve_errors_caught w →
         EvProbe 0 ∈ new_events s s' →
         ¬ (is_Some (readiness_after w max_pty_wait_seconds 0 None None).1
            ∧ is_Some (readiness_after w max_pty_wait_seconds 0 None None).2) →
         stop = Some (Raise (SystemExit 1))
         ∧ ∃ pre post sa sb,
             new_events s s'
             = pre ++ [EvPrint (MsgPtyNotReady sa sb
                          (readiness_after w max_pty_wait_seconds 0 None None).1
                          (readiness_after w max_pty_wait_seconds 0 None None).2
                          max_pty_wait_seconds max_pty_wait_seconds);
                       EvSleep; EvPrint MsgErrPtyTimeout] ++ post)
  | StExtract =>
      EvPrint (MsgExtracted 0) ∈ new_events s s' →
      stop = Some (Raise (SystemExit 0))
  | StTransfer =>
      pt_sender (procs s) = None →
      (stop = None → pt_sender (procs s') = Some (Exited 0))
      ∧ (∀ rc, pt_sender (procs s') = Some (Exited rc) → rc ≠ 0 →
               stop = Some (Raise (SystemExit 1))
               ∧ EvPrint (MsgErrSend rc) ∈ new_events s s'
               ∧ (pt_receiver (procs s') = Some Terminated
                  ∨ ∃ rc', pt_receiver (procs s') = Some (Exited rc')))
      ∧ (∀ argv, EvPopen Receiver argv ∈ new_events s s' →
                 argv !! 1%nat = Some (port_arg (port_for_recv s)))
      ∧ (∀ argv, EvPopen Sender argv ∈ new_events s s' →
                 argv !! 1%nat = Some (port_arg (port_for_send s)))
  | _ => True
  end.

(** A run of [main_logic] seen as a sequence of stages: it goes through
    the stages in order and ends in one of them. *)
Inductive run : list stage → state → result unit → state → Prop :=
| run_done s : run [] s (Return tt) s
| run_stop st rest s r s' :
    stage_step st s s' → stage_facts st s (Some r) s' →
    run (st :: rest) s r s'
| run_next st rest s s1 r s' :
    stage_step st s s1 → stage_facts st s None s1 → run rest s1 r s' →
    run (st :: rest) s r s'.

End Runs.

End Harness.

(* ===================================================================== *)
(** ** Concrete worlds *)
(* ===================================================================== *)

Module Examples.
Import Py.

(** A stand-in digest that keeps the bytes it was fed and prints them as
    a string: two files get the same digest exactly when their contents
    are equal. *)
#[export] Instance toy_hash : CompareMd5.Hashlib := {|
  CompareMd5.hstate := list byte;
  CompareMd5.md5_new := [];
  CompareMd5.md5_update := fun h chunk => h ++ chunk;
  CompareMd5.md5_hexdigest := fun h => string_of_list_byte h
|}.

(** Two directories [src] and [dst]: [A.TXT] is the same on both sides,
    [B.BIN] differs, [C.DAT] cannot be read in [dst], [D.ONLY] is only in
    [src] and [E.NEW] only in [dst]; [sub] is a sub-directory. *)
Definition two_dirs : CompareMd5.filesystem := {|
  CompareMd5.isdir := fun p => String.eqb p "src" || String.eqb p "dst";
  CompareMd5.isfile := fun p => negb (endswith p "/sub");
  CompareMd5.listdir := fun p =>
    if String.eqb p "src" then Return ["B.BIN"; "A.TXT"; "sub"; "C.DAT"; "D.ONLY"]
    else if String.eqb p "dst" then Return ["C.DAT"; "E.NEW"; "A.TXT"; "B.BIN"; "sub"]
    else Raise FileNotFoundError;
  CompareMd5.open_rb := fun p =>
    if String.eqb p "src/A.TXT" || String.eqb p "dst/A.TXT" then inl [x68; x69]
    else if String.eqb p "src/B.BIN" then inl [x01]
    else if String.eqb p "dst/B.BIN" then inl [x02]
    else if String.eqb p "src/C.DAT" then inl []
    else if String.eqb p "dst/C.DAT" then inr CompareMd5.ErrIO
    else inr CompareMd5.ErrNotFound;
  CompareMd5.abspath := fun p => "/work/" +:+ p;
  CompareMd5.basename := fun p => p
|}.


(** *** Worlds for the harness *)

Import Harness.

(** The mismatch report the comparison tool prints for [two_dirs]. *)
Definition mismatch_report : list CompareMd5.line :=
  (CompareMd5.compare_directories two_dirs "src" "dst").2.

(** A POSIX host on which every tool resolves through the search path
    and everything works. The knobs are what the examples vary: when
    both pty links resolve ([ready_at], an attempt number), what the
    extraction tool leaves behind, how the sender ends, what the
    comparison tool reports, and when Ctrl+C arrives. *)
Definition posix_world (ready_at : nat) (extracted : list node)
           (send : run_outcome) (report : list CompareMd5.line)
           (interrupt : option nat) : world := {|
  w_platform_win32 := false;
  w_cwd := "/work";
  w_cwd_writable := true;
  w_getpid := "4242";
  w_path_str := fun p => p;
  w_which := fun name => Some ("/usr/bin/" +:+ name);
  w_is_file := fun _ => true;
  w_access_x := fun _ => true;
  w_initial_session := None;
  w_spawn := fun _ => true;
  w_is_symlink := fun _ i => (ready_at <=? i)%nat;
  w_is_symlink_report := fun _ i => (ready_at <=? i)%nat;
  w_resolve := fun ep _ =>
    Return (match ep with PtyA => "/dev/pts/3" | PtyB => "/dev/pts/4" end);
  w_exists := fun _ _ => true;
  w_is_chr := fun _ _ => true;
  w_exited_early := fun _ => false;
  w_returncode := fun _ => 0;
  w_exits_on_terminate := true;
  w_extract := Completed 0;
  w_extracted := extracted;
  w_send := send;
  w_received := extracted;
  w_compare := Completed 0;
  w_compare_stdout := report;
  w_compare_stderr := "";
  w_interrupt := interrupt
|}.

Definition two_files : list node := [File "A.TXT"; File "B.BIN"].

Definition tool_args (recv send : option string) : args := {|
  oasis_disk_util_exec := "oasis_disk_util";
  oasis_send_exec := "oasis_send";
  oasis_recv_exec := "oasis_recv";
  disk_image := "disk.img";
  compare_md5_exec := "compare_md5.py";
  com_port_recv_arg := recv;
  com_port_send_arg := send
|}.

(** [w] with the command [name] neither on the search path nor a file. *)
Definition without_tool (name : string) (w : world) : world := {|
  w_platform_win32 := w_platform_win32 w;
  w_cwd := w_cwd w;
  w_cwd_writable := w_cwd_writable w;
  w_getpid := w_getpid w;
  w_path_str := w_path_str w;
  w_which := fun n => if String.eqb n name then None else w_which w n;
  w_is_file := fun p => if String.eqb p name then false else w_is_file w p;
  w_access_x := w_access_x w;
  w_initial_session := w_initial_session w;
  w_spawn := w_spawn w;
  w_is_symlink := w_is_symlink w;
  w_is_symlink_report := w_is_symlink_report w;
  w_resolve := w_resolve w;
  w_exists := w_exists w;
  w_is_chr := w_is_chr w;
  w_exited_early := w_exited_early w;
  w_returncode := w_returncode w;
  w_exits_on_terminate := w_exits_on_terminate w;
  w_extract := w_extract w;
  w_extracted := w_extracted w;
  w_send := w_send w;
  w_received := w_received w;
  w_compare := w_compare w;
  w_compare_stdout := w_compare_stdout w;
  w_compare_stderr := w_compare_stderr w;
  w_interrupt := w_interrupt w
|}.

(** The store once the two session directories exist. *)
Definition provisioned (w : world) : state :=
  set_session
    (Some (Dir (TEMP_BASE_DIR_NAME w) true
               [Dir EXTRACTED_DIR_NAME true []; Dir RECEIVED_DIR_NAME true []]))
    (initial_state w).

End Examples.

(* ===================================================================== *)
(** ** Reading a comparison report *)
(* ===================================================================== *)

Module Report.
Import Py CompareMd5.

(** The file names of the [Comparing '...'] lines of a report, in the
    order they were printed. *)
Definition compared (out : list line) : list string :=
  omap (fun l => match l with OutComparing f => Some f | _ => None end) out.

End Report.

(* ===================================================================== *)
(** ** oasis_check_imd.py *)
(* ===================================================================== *)

Module CheckImd.
Import Py.

(** An entry of a directory, as [os.walk] sorts it: a name that goes to
    [files], or a directory that goes to [dirs] and is walked into. (A
    directory that cannot be listed, or a link to a directory, which is
    not followed, is a directory without entries here: the script ignores
    the directory names.) *)
Inductive dirent : Type :=
| Entry_file (name : string)
| Entry_dir (name : string) (entries : list dirent).

(** What the script asks of its environment. The file system does not
    change while the script runs. *)
Record host : Type := {
  h_termcolor : bool;                    (* can [termcolor] be imported? *)
  h_isdir : string -> bool;              (* os.path.isdir *)
  h_abspath : string -> string;          (* os.path.abspath *)
  h_scandir : string -> list dirent;     (* what is under a directory *)
  h_run : list string -> result (Z * string * string);
      (* subprocess.run(command, capture_output=True, text=True,
         check=False): returncode, stdout and stderr, or what it raises *)
  h_str : exn -> string                  (* str(e) *)
}.

(** The command line, parsed. *)
Record args : Type := {
  directory : string;
  verbose : bool;
  chkdsk_verbose : bool;
  chkdsk_path : string
}.

Inductive color : Type := Red | Green | Yellow.

(** The lines the script prints. *)
Inductive text : Type :=
| TxtWarnNoTermcolor
| TxtWarnInstall
| TxtErrNotFoundOrNotDirectory (directory : string)
| TxtErrExecutableNotFound (oasis_chkdsk_cmd : string)
| TxtErrUnexpected (oasis_chkdsk_cmd : string) (e : exn)
| TxtErrNotValidDirectory (directory : string)
| TxtSearching (abspath : string)
| TxtNoImdFiles
| TxtFound (n : nat) (chkdsk_path : string)
| TxtChecking (imd_file : string)
| TxtOK
| TxtErrorsFound
| TxtStdoutHeader
| TxtStderrHeader
| TxtStripped (output : string)        (* [output.strip()] *)
| TxtRule
| TxtSeparator
| TxtSummaryHeader
| TxtAllOK (n : nat)
| TxtReportedErrors (files_with_errors n : nat).

(** What the script does, in order: it prints a line, in a colour or
    plain, or runs a command. *)
Inductive event : Type :=
| Printed (c : option color) (t : text)
| Ran (command : list string).

(** [file.lower()] on the characters the test looks at: the upper-case
    ASCII letters; no other character lowers to a character of [".imd"]
    on its own. *)
Definition lower_ascii (c : ascii) : ascii :=
  let n := N_of_ascii c in
  if ((65 <=? n) && (n <=? 90))%N then ascii_of_N (n + 32) else c.

Fixpoint lower (s : string) : string :=
  match s with
  | EmptyString => EmptyString
  | String c s' => String (lower_ascii c) (lower s')
  end.

(** Python truthiness of a [str]. *)
Definition nonempty (s : string) : bool := negb (String.eqb s "").

Definition filenames (entries : list dirent) : list string :=
  omap (fun d => match d with Entry_file name => Some name | _ => None end) entries.

Definition dirnames (entries : list dirent) : list string :=
  omap (fun d => match d with Entry_dir name _ => Some name | _ => None end) entries.

(** [os.walk(top)], top-down: the directory itself, then each of its
    sub-directories in turn. *)
Fixpoint walk_entry (top : string) (d : dirent)
  : list (string * list string * list string) :=
  match d with
  | Entry_file _ => []
  | Entry_dir name entries =>
      let here := path_join top name in
      (here, dirnames entries, filenames entries)
        :: flat_map (walk_entry here) entries
  end.

Definition os_walk (top : string) (entries : list dirent)
  : list (string * list string * list string) :=
  (top, dirnames entries, filenames entries) :: flat_map (walk_entry top) entries.

Section WithHost.
Variable h : host.

(** [cprint(text, color)] and [print(colored(text, color))]: termcolor's
    when it could be imported, and the plain stand-ins otherwise. *)
Definition cprint (t : text) (c : color) : event :=
  Printed (if h_termcolor h then Some c else None) t.

(** The [try: from termcolor import ...  except ImportError: ...] at the
    top of the script. *)
Definition import_termcolor : list event :=
  if h_termcolor h then []
  else [Printed None TxtWarnNoTermcolor; Printed None TxtWarnInstall].

Definition is_imd (file : string) : bool := endswith (lower file) ".imd".

Definition find_imd_files (directory : string) : list string * list event :=
  if negb (h_isdir h directory) then
    ([], [cprint (TxtErrNotFoundOrNotDirectory directory) Red])
  else
    (flat_map (fun '(root, _, files) =>
                 map (path_join root) (List.filter is_imd files))
              (os_walk directory (h_scandir h directory)),
     []).

Definition run_oasis_chkdsk (oasis_chkdsk_cmd imd_filepath : string)
           (verbose_chkdsk : bool)
  : result (Z * string * string) * list event :=
  let command :=
    [oasis_chkdsk_cmd; imd_filepath] ++ (if verbose_chkdsk then ["-v"] else []) in
  match h_run h command with
  | Return (returncode, stdout, stderr) =>
      (Return (returncode, stdout, stderr), [Ran command])
  | Raise e =>
      if isinstance e CFileNotFoundError then
        (Return (-1, "", "'" +:+ oasis_chkdsk_cmd +:+ "' not found."),
         [Ran command; cprint (TxtErrExecutableNotFound oasis_chkdsk_cmd) Red])
      else if isinstance e CException then
        (Return (-1, "", h_str h e),
         [Ran command; cprint (TxtErrUnexpected oasis_chkdsk_cmd e) Red])
      else (Raise e, [Ran command])
  end.

(** The locals the loop of [main] updates. *)
Record tally : Type := {
  overall_success : bool;
  files_with_errors : nat
}.

(** One round of the loop of [main]. *)
Definition check_file (a : args) (imd_file : string) (t : tally)
  : result tally * list event :=
  let out0 := [Printed None (TxtChecking imd_file)] in
  match run_oasis_chkdsk (chkdsk_path a) imd_file (chkdsk_verbose a) with
  | (Raise e, o) => (Raise e, out0 ++ o)
  | (Return (return_code, chkdsk_stdout, chkdsk_stderr), o) =>
      if return_code =? 0 then
        (Return t, out0 ++ o ++ [cprint TxtOK Green; Printed None TxtSeparator])
      else
        (Return {| overall_success := false;
                   files_with_errors := S (files_with_errors t) |},
         out0 ++ o ++ [cprint TxtErrorsFound Red]
           ++ (if verbose a then
                 (if nonempty chkdsk_stdout then
                    [cprint TxtStdoutHeader Yellow;
                     Printed None (TxtStripped chkdsk_stdout);
                     cprint TxtRule Yellow]
                  else [])
                 ++ (if nonempty chkdsk_stderr then
                       [cprint TxtStderrHeader Yellow;
                        Printed None (TxtStripped chkdsk_stderr);
                        cprint TxtRule Yellow]
                     else [])
               else [])
           ++ [Printed None TxtSeparator])
  end.

Fixpoint check_files (a : args) (imd_files : list string) (t : tally)
  : result tally * list event :=
  match imd_files with
  | [] => (Return t, [])
  | imd_file :: rest =>
      match check_file a imd_file t with
      | (Raise e, o) => (Raise e, o)
      | (Return t', o) =>
          let '(r, o') := check_files a rest t' in (r, o ++ o')
      end
  end.

Definition main (a : args) : result unit * list event :=
  if negb (h_isdir h (directory a)) then
    (Raise (SystemExit 1), [cprint (TxtErrNotValidDirectory (directory a)) Red])
  else
    let out1 := [Printed None (TxtSearching (h_abspath h (directory a)))] in
    let '(imd_files_found, o) := find_imd_files (directory a) in
    let out2 := out1 ++ o in
    if imd_files_found is [] then
      (Raise (SystemExit 0), out2 ++ [Printed None TxtNoImdFiles])
    else
      let out3 :=
        out2 ++ [Printed None (TxtFound (length imd_files_found) (chkdsk_path a))] in
      match check_files a imd_files_found
              {| overall_success := true; files_with_errors := 0 |} with
      | (Raise e, o') => (Raise e, out3 ++ o')
      | (Return t, o') =>
          let out4 := out3 ++ o' ++ [Printed None TxtSummaryHeader] in
          if overall_success t then
            (Raise (SystemExit 0),
             out4 ++ [cprint (TxtAllOK (length imd_files_found)) Green])
          else
            (Raise (SystemExit 1),
             out4 ++ [cprint (TxtReportedErrors (files_with_errors t)
                                                (length imd_files_found)) Red])
      end.

(** The script run as a process: the import at its top, then [main];
    its exit status and what it did. *)
Definition script (a : args) : Z * list event :=
  match main a with
  | (Return _, out) => (0, import_termcolor ++ out)
  | (Raise (SystemExit code), out) => (code, import_termcolor ++ out)
  | (Raise _, out) => (1, import_termcolor ++ out)
  end.

(** *** Reading a run

    The next definitions are not in the script; the statements about it
    are phrased with them. *)

(** The command [run_oasis_chkdsk] builds for a file. *)
Definition command_for (a : args) (imd_file : string) : list string :=
  [chkdsk_path a; imd_file] ++ (if chkdsk_verbose a then ["-v"] else []).

(** The return code [run_oasis_chkdsk] gives for a file. *)
Definition return_code_of (a : args) (imd_file : string) : Z :=
  match h_run h (command_for a imd_file) with
  | Return (returncode, _, _) => returncode
  | Raise _ => -1
  end.

Definition failed (a : args) (imd_file : string) : bool :=
  negb (return_code_of a imd_file =? 0).

(** Running the checker raises nothing but ordinary exceptions. *)
Definition run_raises_exceptions : Prop :=
  ∀ command e, h_run h command = Raise e → isinstance e CException = true.

End WithHost.

(** The commands a log records, in order. *)
Definition commands (log : list event) : list (list string) :=
  omap (fun ev => match ev with Ran command => Some command | _ => None end) log.

(** A log without its colours. *)
Definition plain (log : list event) : list event :=
  map (fun ev => match ev with Printed _ t => Printed None t | Ran c => Ran c end) log.

(** The same host with [termcolor] installed. *)
Definition with_termcolor (h : host) : host :=
  {| h_termcolor := true; h_isdir := h_isdir h; h_abspath := h_abspath h;
     h_scandir := h_scandir h; h_run := h_run h; h_str := h_str h |}.

(** Induction on directory entries. *)
Fixpoint dirent_ind' (P : dirent → Prop)
         (Hfile : ∀ name, P (Entry_file name))
         (Hdir : ∀ name entries, Forall P entries → P (Entry_dir name entries))
         (d : dirent) : P d :=
  match d with
  | Entry_file name => Hfile name
  | Entry_dir name entries =>
      Hdir name entries
           ((fix go (l : list dirent) : Forall P l :=
               match l with
               | [] => Forall_nil_2 P
               | c :: l' => Forall_cons_2 P c l' (dirent_ind' P Hfile Hdir c) (go l')
               end) entries)
  end.

(** [file_under top entries root file]: in the tree of the directory
    [top], whose entries are [entries], the directory [root] holds a file
    named [file]; [root] is [top] itself or a directory below it, and its
    path is [top] joined to the names of the directories on the way
    down. *)
Inductive file_under : string → list dirent → string → string → Prop :=
| file_here top entries file :
    Entry_file file ∈ entries →
    file_under top entries top file
| file_below top entries sub below root file :
    Entry_dir sub below ∈ entries →
    file_under (path_join top sub) below root file →
    file_under top entries root file.

End CheckImd.

(* ===================================================================== *)
(** ** Reading the outcome of a run *)
(* ===================================================================== *)

Module Outcome.
Import Py Harness.

(** The error reports of [main_logic], the resolver's apart. *)
Definition is_error_report (e : event) : bool :=
  match e with
  | EvPrint (MsgErrBothPorts | MsgErrWindowsNeedsPorts | MsgErrDiskImage _
             | MsgErrStartingSocat | MsgErrPtyTimeout | MsgErrExtract _
             | MsgErrNoFilesToSend | MsgErrSend _ | MsgErrRecv _
             | MsgErrDuringTransfer _ | MsgErrNoPython | MsgErrCompare _) => true
  | _ => false
  end.

(** The processes a log shows being started, in order. *)
Definition popens (tr : list event) : list proc :=
  omap (fun e => match e with EvPopen p _ => Some p | _ => None end) tr.

(** How often a log shows [cleanup] being entered. *)
Definition is_cleanup (e : event) : bool :=
  match e with EvPrint MsgCleaningUp => true | _ => false end.

Definition cleanups (tr : list event) : nat :=
  length (List.filter is_cleanup tr).

(** A child that is gone: it has exited, or it was killed. *)
Definition gone (st : option pstatus) : Prop :=
  match st with
  | Some (Exited _) | Some Killed => True
  | _ => False
  end.

(** Was the child ever started? *)
Definition started (st : option pstatus) : bool :=
  if st is Some _ then true else false.

(** Resolving a link raises nothing but ordinary exceptions. *)
Definition resolve_raises_exceptions (w : world) : Prop :=
  ∀ ep i e, w_resolve w ep i = Raise e → isinstance e CException = true.

(** How a stage that returned or raised bears on [main_logic]: it goes
    on after a return, and ends with what was raised. *)
Definition ending {A} (r : result A) : option (result unit) :=
  match r with
  | Return _ => None
  | Raise e => Some (Raise e)
  end.

Section Journeys.
Variable w : world.
Variable a : args.

(** More of what is known of a stage. *)
Definition stage_outcome (st : stage) (s : state) (stop : option (result unit))
           (s' : state) : Prop :=
  (∀ e, e ∈ new_events s s' → is_error_report e = true →
        stop = Some (Raise (SystemExit 1)))
  ∧ (st ≠ StTools → ∀ u, stop ≠ Some (Return u))
  ∧ match st with
    | StPorts =>
        (∀ r, stop = Some r → r = Raise (SystemExit 1))
        ∧ (use_socat_globally s' = true →
           w_platform_win32 w = false
           ∧ truthy (com_port_recv_arg a) = false
           ∧ truthy (com_port_send_arg a) = false)
        ∧ (stop = None → use_socat_globally s' = negb (both_ports a))
    | StTools => True
    | StDisk => ∀ r, stop = Some r → r = Raise (SystemExit 1)
    | StDirs =>
        temp_base_dir_path s' ≠ None
        ∧ (∀ r, stop = Some r → exit_status r = 1)
    | StSocat =>
        (socat_process s = None → pt_socat (procs s) = None →
         (socat_process s' = None ∧ pt_socat (procs s') = None
          ∧ popens (new_events s s') = [])
         ∨ (socat_process s' = Some Socat ∧ is_Some (pt_socat (procs s'))
            ∧ use_socat_globally s = true
            ∧ popens (new_events s s') = [Socat]))
        ∧ (resolve_raises_exceptions w → ∀ r, stop = Some r → exit_status r = 1)
        ∧ (use_socat_globally s = true → stop = None →
           resolve_errors_caught w →
           port_for_recv s' = (readiness_after w max_pty_wait_seconds 0 None None).1
           ∧ port_for_send s' = (readiness_after w max_pty_wait_seconds 0 None None).2
           ∧ is_Some (port_for_recv s') ∧ is_Some (port_for_send s'))
    | StExtract =>
        (stop = None → w_extract w = Completed 0)
        ∧ (∀ r, stop = Some r → exit_status r = 0 →
                EvPrint MsgNoFilesToTransfer ∈ new_events s s')
        ∧ (EvPrint MsgNoFilesToTransfer ∈ new_events s s' →
           stop = Some (Raise (SystemExit 0)))
    | StTransfer =>
        (∀ r, stop = Some r → exit_status r = 1)
        ∧ (pt_receiver (procs s) = None → pt_sender (procs s) = None →
           popens (new_events s s')
           = (if started (pt_receiver (procs s')) then [Receiver] else [])
               ++ (if started (pt_sender (procs s')) then [Sender] else [])
           ∧ (is_Some (pt_sender (procs s')) → is_Some (pt_receiver (procs s')))
           ∧ (stop = None →
              pt_receiver (procs s') = Some (Exited 0)
              ∧ pt_sender (procs s') = Some (Exited 0)
              ∧ w_send w = Completed 0))
    | StCompare =>
        stop ≠ None
        ∧ (∀ r, stop = Some r → exit_status r = 0 →
                EvPrint MsgPassed ∈ new_events s s')
        ∧ (EvPrint MsgPassed ∈ new_events s s' →
           stop = Some (Raise (SystemExit 0)) ∧ w_compare w = Completed 0)
    | StExit => True
    end.

(** A run of [main_logic] with all that is known of its stages. *)
Inductive journey : list stage → state → result unit → state → Prop :=
| journey_done s : journey [] s (Return tt) s
| journey_stop st rest s r s' :
    stage_step st s s' →
    stage_facts w a st s (Some r) s' → stage_outcome st s (Some r) s' →
    journey (st :: rest) s r s'
| journey_next st rest s s1 r s' :
    stage_step st s s1 →
    stage_facts w a st s None s1 → stage_outcome st s None s1 →
    journey rest s1 r s' →
    journey (st :: rest) s r s'.

End Journeys.

End Outcome.

(* ===================================================================== *)
(** ** More examples *)
(* ===================================================================== *)

Module Shelf.
Import Py CheckImd.

(** A directory [disks] with two images, one of them in a sub-directory,
    and a file that is not an image; the checker finds a bad sector in
    [old/b.imd]. [termcolor] is not installed. *)
Definition shelf : host := {|
  h_termcolor := false;
  h_isdir := fun p => String.eqb p "disks";
  h_abspath := fun p => "/work/" +:+ p;
  h_scandir := fun _ =>
    [Entry_file "A.IMD"; Entry_file "notes.txt";
     Entry_dir "old" [Entry_file "b.imd"]];
  h_run := fun command =>
    if bool_decide (command !! 1%nat = Some "disks/old/b.imd")
    then Return (2, "bad sector", "")
    else Return (0, "", "");
  h_str := fun _ => ""
|}.

Definition check_disks : args := {|
  directory := "disks";
  verbose := true;
  chkdsk_verbose := false;
  chkdsk_path := "oasis_chkdsk"
|}.

End Shelf.

Module Leftover.
Import Py Harness.

(** [w] started where an earlier run left a session directory that
    cannot be emptied. *)
Definition with_stale_session (w : world) : world := {|
  w_platform_win32 := w_platform_win32 w;
  w_cwd := w_cwd w;
  w_cwd_writable := w_cwd_writable w;
  w_getpid := w_getpid w;
  w_path_str := w_path_str w;
  w_which := w_which w;
  w_is_file := w_is_file w;
  w_access_x := w_access_x w;
  w_initial_session :=
    Some (Dir (TEMP_BASE_DIR_NAME w) false [File "stale.bin"]);
  w_spawn := w_spawn w;
  w_is_symlink := w_is_symlink w;
  w_is_symlink_report := w_is_symlink_report w;
  w_resolve := w_resolve w;
  w_exists := w_exists w;
  w_is_chr := w_is_chr w;
  w_exited_early := w_exited_early w;
  w_returncode := w_returncode w;
  w_exits_on_terminate := w_exits_on_terminate w;
  w_extract := w_extract w;
  w_extracted := w_extracted w;
  w_send := w_send w;
  w_received := w_received w;
  w_compare := w_compare w;
  w_compare_stdout := w_compare_stdout w;
  w_compare_stderr := w_compare_stderr w;
  w_interrupt := w_interrupt w
|}.

(** [w] with children that take their time over SIGTERM: none has
    exited half a second after [terminate()]. *)
Definition slow_to_exit (w : world) : world := {|
  w_platform_win32 := w_platform_win32 w;
  w_cwd := w_cwd w;
  w_cwd_writable := w_cwd_writable w;
  w_getpid := w_getpid w;
  w_path_str := w_path_str w;
  w_which := w_which w;
  w_is_file := w_is_file w;
  w_access_x := w_access_x w;
  w_initial_session := w_initial_session w;
  w_spawn := w_spawn w;
  w_is_symlink := w_is_symlink w;
  w_is_symlink_report := w_is_symlink_report w;
  w_resolve := w_resolve w;
  w_exists := w_exists w;
  w_is_chr := w_is_chr w;
  w_exited_early := w_exited_early w;
  w_returncode := w_returncode w;
  w_exits_on_terminate := false;
  w_extract := w_extract w;
  w_extracted := w_extracted w;
  w_send := w_send w;
  w_received := w_received w;
  w_compare := w_compare w;
  w_compare_stdout := w_compare_stdout w;
  w_compare_stderr := w_compare_stderr w;
  w_interrupt := w_interrupt w
|}.

End Leftover.

(* ===================================================================== *)
(** ** Properties of compare_md5.py *)
(* ===================================================================== *)

Section CompareMd5Facts.
Import Py CompareMd5.
Context {H : Hashlib}.
Variable fs : filesystem.

(** The fuel of [read_chunks] is enough: more of it changes nothing. *)
Lemma read_chunks_fuel chunk_size fuel1 fuel2 data h :
  (length data ≤ fuel1)%nat → (length data ≤ fuel2)%nat →
  read_chunks fuel1 chunk_size data h = read_chunks fuel2 chunk_size data h.
Proof.
  revert fuel2 data h.
  induction fuel1 as [|fuel1 IH]; intros fuel2 data h H1 H2.
  - destruct data; [|simpl in H1; lia].
    destruct fuel2; simpl; [done|]. by rewrite take_nil.
  - destruct fuel2 as [|fuel2].
    + destruct data; [|simpl in H2; lia]. simpl. by rewrite take_nil.
    + simpl. destruct (take chunk_size data) as [|b chunk] eqn:Htake; [done|].
      assert (length (drop chunk_size data) < length data)%nat.
      { rewrite length_drop. destruct chunk_size; [done|].
        destruct data; [done|]. simpl. lia. }
      apply IH; lia.
Qed.

Lemma calculate_md5_returns filepath chunk_size :
  ∃ r out, calculate_md5 fs filepath chunk_size = (Return r, out)
           ∧ (∀ err, open_rb fs filepath = inr err → r = None)
           ∧ (∀ data, open_rb fs filepath = inl data → is_Some r).
Proof.
  unfold calculate_md5. destruct (open_rb fs filepath) as [data|err].
  - eexists _, _. split; [done|]. split; [done|]. by eauto.
  - destruct err; simpl; eexists _, _; (split; [done|]); split; try done.
Qed.

Lemma calculate_md5_digest filepath :
  ∃ out, calculate_md5 fs filepath default_chunk_size
         = (Return (digest_of fs filepath), out).
Proof.
  unfold calculate_md5, digest_of.
  destruct (open_rb fs filepath) as [data|[]]; simpl; eauto.
Qed.

Lemma compare_file_spec dir1 dir2 filename t :
  ∃ out,
    compare_file fs dir1 dir2 filename t =
      (Return
         match verdict_of fs dir1 dir2 filename with
         | VMatch => {| t_matched := t_matched t ++ [filename];
                        t_mismatched := t_mismatched t;
                        t_error := t_error t |}
         | VMismatch => {| t_matched := t_matched t;
                           t_mismatched := t_mismatched t ++ [filename];
                           t_error := t_error t |}
         | VError => {| t_matched := t_matched t;
                        t_mismatched := t_mismatched t;
                        t_error := t_error t ++ [filename] |}
         end, out).
Proof.
  unfold compare_file, verdict_of.
  destruct (calculate_md5_digest (path_join dir1 filename)) as [o1 ->].
  destruct (calculate_md5_digest (path_join dir2 filename)) as [o2 ->].
  destruct (digest_of fs (path_join dir1 filename)) as [h1|];
    destruct (digest_of fs (path_join dir2 filename)) as [h2|]; eauto.
  destruct (String.eqb h1 h2); eauto.
Qed.

(** The loop sorts every file into exactly one of the three lists. *)
Lemma compare_loop_spec dir1 dir2 files t :
  ∃ out,
    compare_loop fs dir1 dir2 files t =
      (Return {| t_matched := t_matched t ++ filter (fun f => has_verdict fs dir1 dir2 VMatch f = true) files;
                 t_mismatched := t_mismatched t ++ filter (fun f => has_verdict fs dir1 dir2 VMismatch f = true) files;
                 t_error := t_error t ++ filter (fun f => has_verdict fs dir1 dir2 VError f = true) files |},
       out).
Proof.
  revert t. induction files as [|f files IH]; intros t; simpl.
  - rewrite !app_nil_r. destruct t; eauto.
  - destruct (compare_file_spec dir1 dir2 f t) as [o ->].
    match goal with |- context [compare_loop _ _ _ _ ?t'] =>
      destruct (IH t') as [o' ->] end.
    eexists. f_equal.
    rewrite !filter_cons. unfold has_verdict.
    destruct (verdict_of fs dir1 dir2 f); simpl;
      repeat case_decide; try done; by rewrite <- ?app_assoc.
Qed.

Lemma has_verdict_cases dir1 dir2 f :
  (has_verdict fs dir1 dir2 VMatch f = true
   ∧ has_verdict fs dir1 dir2 VMismatch f = false
   ∧ has_verdict fs dir1 dir2 VError f = false)
  ∨ (has_verdict fs dir1 dir2 VMatch f = false
     ∧ has_verdict fs dir1 dir2 VMismatch f = true
     ∧ has_verdict fs dir1 dir2 VError f = false)
  ∨ (has_verdict fs dir1 dir2 VMatch f = false
     ∧ has_verdict fs dir1 dir2 VMismatch f = false
     ∧ has_verdict fs dir1 dir2 VError f = true).
Proof. unfold has_verdict. destruct (verdict_of fs dir1 dir2 f); auto. Qed.

Lemma verdict_partition dir1 dir2 (files : list string) :
  (length (filter (fun f => has_verdict fs dir1 dir2 VMatch f = true) files)
   + length (filter (fun f => has_verdict fs dir1 dir2 VMismatch f = true) files)
   + length (filter (fun f => has_verdict fs dir1 dir2 VError f = true) files)
   = length files)%nat.
Proof.
  induction files as [|f files IH]; [done|].
  rewrite !filter_cons.
  destruct (has_verdict_cases dir1 dir2 f) as [(-> & -> & ->)|[(-> & -> & ->)|(-> & -> & ->)]];
    repeat case_decide; try done; simpl; lia.
Qed.

(** What [compare_directories] returns when it returns. *)
Lemma compare_directories_spec dir1 dir2 c out :
  compare_directories fs dir1 dir2 = (Return c, out) →
  ∃ names1 names2,
    listdir fs dir1 = Return names1 ∧ listdir fs dir2 = Return names2 ∧
    let files1 := regular_files fs dir1 names1 in
    let files2 := regular_files fs dir2 names2 in
    common_files c = files1 ∩ files2 ∧
    files_only_in_dir1 c = files1 ∖ files2 ∧
    files_only_in_dir2 c = files2 ∖ files1 ∧
    matched_files c
      = filter (fun f => has_verdict fs dir1 dir2 VMatch f = true)
               (sorted (elements (common_files c))) ∧
    mismatched_files c
      = filter (fun f => has_verdict fs dir1 dir2 VMismatch f = true)
               (sorted (elements (common_files c))) ∧
    error_files c
      = filter (fun f => has_verdict fs dir1 dir2 VError f = true)
               (sorted (elements (common_files c))).
Proof.
  unfold compare_directories.
  destruct (isdir fs dir1); simpl; [|done].
  destruct (isdir fs dir2); simpl; [|done].
  destruct (listdir fs dir1) as [names1|e1]; [|by destruct e1].
  destruct (listdir fs dir2) as [names2|e2]; [|by destruct e2].
  set (files1 := regular_files fs dir1 names1).
  set (files2 := regular_files fs dir2 names2).
  intros Hret. exists names1, names2. split; [done|]. split; [done|].
  case_decide as Hempty.
  - injection Hret as <- _. simpl. rewrite Hempty, elements_empty.
    by repeat split.
  - destruct (compare_loop_spec dir1 dir2 (sorted (elements (files1 ∩ files2)))
                {| t_matched := []; t_mismatched := []; t_error := [] |})
      as [o Hloop].
    rewrite Hloop in Hret. injection Hret as <- _. simpl. by repeat split.
Qed.

Lemma sorted_length (l : list string) : length (sorted l) = length l.
Proof. unfold sorted. by rewrite merge_sort_Permutation. Qed.

Lemma sorted_elem_of (l : list string) x : x ∈ sorted l ↔ x ∈ l.
Proof. unfold sorted. by rewrite merge_sort_Permutation. Qed.

End CompareMd5Facts.

Section CompareMd5Claims.
Import Py CompareMd5.
Context {H : Hashlib}.
Variable fs : filesystem.

(** Every common file ends in exactly one of the three lists. *)
Lemma comparison_counts_exact dir1 dir2 c out :
  compare_directories fs dir1 dir2 = (Return c, out) →
  (length (matched_files c) + length (mismatched_files c)
   + length (error_files c) = size (common_files c))%nat.
Proof.
  intros Hret.
  destruct (compare_directories_spec fs _ _ _ _ Hret)
    as (names1 & names2 & _ & _ & _ & _ & _ & -> & -> & ->).
  rewrite verdict_partition, sorted_length. done.
Qed.

(** The common files are the regular files listed in both directories. *)
Lemma common_files_in_both dir1 dir2 c out :
  compare_directories fs dir1 dir2 = (Return c, out) →
  ∃ names1 names2,
    listdir fs dir1 = Return names1 ∧ listdir fs dir2 = Return names2 ∧
    ∀ f, f ∈ common_files c ↔
         (f ∈ names1 ∧ isfile fs (path_join dir1 f) = true)
         ∧ (f ∈ names2 ∧ isfile fs (path_join dir2 f) = true).
Proof.
  intros Hret.
  destruct (compare_directories_spec fs _ _ _ _ Hret)
    as (names1 & names2 & Hl1 & Hl2 & Hc & _).
  rewrite Hc. exists names1, names2. split; [done|]. split; [done|].
  intros f. unfold regular_files.
  rewrite elem_of_intersection, !elem_of_list_to_set, !list_elem_of_filter.
  tauto.
Qed.

(** C9. For every pair of input directories the comparison outcome
    satisfies: the number of matched files plus mismatched files plus
    error files is at most the number of common files, and the files only
    in the first directory and the files only in the second are each
    disjoint from the common files. *)
Theorem comparison_outcome_invariant dir1 dir2 c out :
  compare_directories fs dir1 dir2 = (Return c, out) →
  (length (matched_files c) + length (mismatched_files c)
   + length (error_files c) ≤ size (common_files c))%nat
  ∧ files_only_in_dir1 c ## common_files c
  ∧ files_only_in_dir2 c ## common_files c.
Proof.
  intros Hret. split.
  - by rewrite (comparison_counts_exact _ _ _ _ Hret).
  - destruct (compare_directories_spec fs _ _ _ _ Hret)
      as (names1 & names2 & _ & _ & -> & -> & -> & _).
    split; set_solver.
Qed.

(** C10. The MD5 helper never raises: whatever the path, it returns, and
    when the file cannot be opened or read (missing file, I/O error or
    any other exception) it returns [None]. A common file for which
    either side's digest is [None] is counted as an error file and is
    neither matched nor mismatched. *)
Theorem calculate_md5_never_raises :
  (∀ filepath chunk_size,
      ∃ r out, calculate_md5 fs filepath chunk_size = (Return r, out)
               ∧ ∀ err, open_rb fs filepath = inr err → r = None)
  ∧ (∀ dir1 dir2 c out f,
        compare_directories fs dir1 dir2 = (Return c, out) →
        f ∈ common_files c →
        ((calculate_md5 fs (path_join dir1 f) default_chunk_size).1 = Return None
         ∨ (calculate_md5 fs (path_join dir2 f) default_chunk_size).1 = Return None) →
        f ∈ error_files c ∧ (f ∉ matched_files c) ∧ (f ∉ mismatched_files c)).
Proof.
  split.
  - intros filepath chunk_size.
    destruct (calculate_md5_returns fs filepath chunk_size) as (r & o & Hr & Herr & _).
    by exists r, o.
  - intros dir1 dir2 c out f Hret Hin Hnone.
    assert (verdict_of fs dir1 dir2 f = VError) as Hv.
    { unfold verdict_of.
      destruct (calculate_md5_digest fs (path_join dir1 f)) as [o1 E1].
      destruct (calculate_md5_digest fs (path_join dir2 f)) as [o2 E2].
      rewrite E1, E2 in Hnone. simpl in Hnone.
      destruct Hnone as [Hn|Hn]; injection Hn as Hn; rewrite Hn; [done|].
      by destruct (digest_of fs (path_join dir1 f)). }
    destruct (compare_directories_spec fs _ _ _ _ Hret)
      as (names1 & names2 & _ & _ & _ & _ & _ & -> & -> & ->).
    rewrite !list_elem_of_filter, sorted_elem_of, elem_of_elements.
    unfold has_verdict. rewrite Hv. naive_solver.
Qed.

End CompareMd5Claims.

(** The invariant on the two example directories: one match, one mismatch
    and one error among three common files. *)
Lemma comparison_outcome_invariant_witness :
  ∃ c out,
    CompareMd5.compare_directories (H:=Examples.toy_hash) Examples.two_dirs "src" "dst" = (Py.Return c, out)
    ∧ (length (CompareMd5.matched_files c) + length (CompareMd5.mismatched_files c)
       + length (CompareMd5.error_files c) ≤ size (CompareMd5.common_files c))%nat
    ∧ CompareMd5.files_only_in_dir1 c ## CompareMd5.common_files c
    ∧ CompareMd5.files_only_in_dir2 c ## CompareMd5.common_files c.
Proof.
  eexists _, _. split.
  - vm_compute. reflexivity.
  - eapply (comparison_outcome_invariant (H:=Examples.toy_hash) Examples.two_dirs "src" "dst").
    vm_compute. reflexivity.
Defined.

(** [C.DAT] cannot be read on one side: it is an error file. *)
Lemma calculate_md5_never_raises_witness :
  ∃ c out,
    CompareMd5.compare_directories (H:=Examples.toy_hash) Examples.two_dirs "src" "dst" = (Py.Return c, out)
    ∧ "C.DAT" ∈ CompareMd5.error_files c
    ∧ ("C.DAT" ∉ CompareMd5.matched_files c)
    ∧ ("C.DAT" ∉ CompareMd5.mismatched_files c).
Proof.
  eexists _, _. split.
  - vm_compute. reflexivity.
  - eapply (proj2 (calculate_md5_never_raises (H:=Examples.toy_hash) Examples.two_dirs)
                  "src" "dst" _ _ "C.DAT").
    + vm_compute. reflexivity.
    + apply (bool_decide_unpack _). vm_compute. exact I.
    + right. vm_compute. reflexivity.
Defined.

(* ===================================================================== *)
(** ** Properties of the integration harness *)
(* ===================================================================== *)

Import Py Harness.


(** *** Running the monad *)

Lemma bind_inv {A B} (m : M A) (k : A → M B) s r s' :
  (m ≫= k) s = (r, s') →
  (∃ a s1, m s = (Return a, s1) ∧ k a s1 = (r, s'))
  ∨ (∃ e, m s = (Raise e, s') ∧ r = Raise e).
Proof.
  unfold mbind, M_bind, bind. destruct (m s) as [[a|e] s1]; intros Hk.
  - left. eauto.
  - right. injection Hk as <- <-. eauto.
Qed.

Lemma try_except_inv {A} (m : M A) (h : exn → M A) s r s' :
  try_except m h s = (r, s') →
  (∃ a, m s = (Return a, s') ∧ r = Return a)
  ∨ (∃ e s1, m s = (Raise e, s1) ∧ h e s1 = (r, s')).
Proof.
  unfold try_except. destruct (m s) as [[a|e] s1]; intros Hk.
  - left. injection Hk as <- <-. eauto.
  - right. eauto.
Qed.

(** *** Logs *)

Lemma new_events_app s s' evs :
  trace s' = trace s ++ evs → new_events s s' = evs.
Proof. intros Ht. unfold new_events. rewrite Ht. apply drop_app_length. Qed.

Lemma new_events_refl s : new_events s s = [].
Proof. apply new_events_app. by rewrite app_nil_r. Qed.

Lemma new_events_trans s1 s2 s3 :
  trace s2 = trace s1 ++ new_events s1 s2 →
  trace s3 = trace s2 ++ new_events s2 s3 →
  new_events s1 s3 = new_events s1 s2 ++ new_events s2 s3.
Proof.
  intros H12 H23. apply new_events_app.
  rewrite H23 at 1. rewrite H12 at 1. by rewrite app_assoc.
Qed.

Lemma stage_step_refl st s : stage_step st s s.
Proof.
  unfold stage_step, keeps. rewrite new_events_refl, app_nil_r.
  split; [done|]. split; [done|]. split; [done|]. split; [done|].
  destruct st; done.
Qed.

Lemma stage_step_trans st s1 s2 s3 :
  stage_step st s1 s2 → stage_step st s2 s3 → stage_step st s1 s3.
Proof.
  intros (Hh1 & Ht1 & Hf1 & Hi1 & Hk1) (Hh2 & Ht2 & Hf2 & Hi2 & Hk2).
  unfold stage_step. rewrite (new_events_trans _ _ _ Ht1 Ht2).
  split; [auto|]. split.
  { rewrite Ht2 at 1. rewrite Ht1 at 1. by rewrite app_assoc. }
  split; [by apply Forall_app|]. split; [auto|].
  unfold keeps in *. destruct st; intuition congruence.
Qed.

(** A store that differs from [s] by [evs] more log entries and in the
    fields the stage may touch. *)
Lemma stage_step_intro st s s' evs :
  trace s' = trace s ++ evs →
  Forall (fun e => emitted_by st e = true) evs →
  (socat_handle_ok s → socat_handle_ok s') →
  (interrupt_in s = None → interrupt_in s' = None) →
  keeps st s s' →
  stage_step st s s'.
Proof.
  intros Ht Hf Hh Hi Hk. unfold stage_step.
  rewrite (new_events_app _ _ _ Ht). done.
Qed.

(** Symbolic execution of a stage: unfold the monad, split on every test,
    and compare the stores. *)
Ltac unfold_monad :=
  unfold sys_exit, print, sleep, set_status, emit, tick, except in *;
  unfold mbind, M_bind, mret, M_ret, try_except, bind, ret, raise, get, modify in *.

Ltac simpl_store :=
  cbn [socat_process port_for_recv port_for_send temp_base_dir_path
       use_socat_globally procs session trace interrupt_in
       set_socat_process set_port_for_recv set_port_for_send
       set_temp_base_dir_path set_use_socat_globally set_procs set_session
       set_trace set_interrupt_in pt_get pt_set pt_socat pt_receiver pt_sender
       fst snd] in *.

Ltac log_tail :=
  simpl_store; rewrite <- ?app_assoc; cbn [app];
  first [ reflexivity | symmetry; apply app_nil_r ].

Ltac in_vocabulary :=
  repeat first [ apply Forall_nil_2 | apply Forall_cons_2; [reflexivity|] ].

Ltac by_footprint :=
  lazymatch goal with
  | |- stage_step _ _ _ =>
      eapply stage_step_intro;
      [ log_tail | in_vocabulary
      | unfold socat_handle_ok; simpl_store; solve [ auto | intros _; auto ]
      | simpl_store; intros; congruence
      | unfold keeps; simpl_store; repeat split ]
  end.

Ltac unfold_primitives :=
  unfold terminate_if_running, make_dir, run_sender, run_tool, wait_timeout,
    wait, kill, terminate, poll, popen, probe in *.

Ltac run_stage :=
  unfold_primitives; unfold_monad;
  repeat (simpl_store; case_match; simplify_eq); simpl_store; simplify_eq.

(** Membership in a log that is written out. *)
Ltac not_logged H :=
  repeat (apply elem_of_cons in H as [H|H]; [discriminate H|]);
  by apply elem_of_nil in H.

Ltac rc_facts :=
  repeat match goal with
    | H : negb (?x =? 0) = false |- _ => apply negb_false_iff, Z.eqb_eq in H
    | H : negb (?x =? 0) = true |- _ => apply negb_true_iff, Z.eqb_neq in H
    end.

Ltac logged_cases H :=
  repeat (apply elem_of_cons in H as [H|H]; [try discriminate H|]);
  try (by apply elem_of_nil in H).

(** *** The stages, one by one *)

Section HarnessStages.
Variable w : world.

Lemma check_command_step cmd name s r s' :
  check_command w cmd name s = (r, s') →
  stage_step StTools s s'.
Proof.
  unfold check_command. intros Hrun. run_stage; by_footprint.
Qed.

(** What [check_command] decides, and that it reports every failure:
    it returns without an error report, or reports an error as its last
    effect and exits with status 1, or is interrupted before anything. *)
Lemma check_command_result cmd name s r s' :
  check_command w cmd name s = (r, s') →
  (∃ p, r = Return p
        ∧ Forall (fun e => is_resolver_error e = false) (new_events s s'))
  ∨ (r = Raise (SystemExit 1)
     ∧ ∃ e, new_events s s' = [e] ∧ is_resolver_error e = true)
  ∨ (r = Raise KeyboardInterrupt ∧ new_events s s' = []).
Proof.
  unfold check_command. intros Hrun. run_stage.
  all: first
    [ right; right; split; [done|]; apply new_events_app; log_tail
    | left; eexists; split; [done|];
      erewrite new_events_app by log_tail;
      repeat first [ apply Forall_nil_2 | apply Forall_cons_2; [reflexivity|] ]
    | right; left; split; [done|]; eexists; split;
      [ apply new_events_app; log_tail | reflexivity ] ].
Qed.

Lemma port_strategy_step a s r s' :
  port_strategy w a s = (r, s') →
  stage_step StPorts s s'
  ∧ (truthy (com_port_recv_arg a) && truthy (com_port_send_arg a) = true →
     r = Return tt
     ∧ use_socat_globally s' = false
     ∧ port_for_recv s' = com_port_recv_arg a
     ∧ port_for_send s' = com_port_send_arg a).
Proof.
  unfold port_strategy. intros Hrun. run_stage.
  all: split; [by_footprint | try done].
Qed.

Lemma resolver_like_ret {A} (P : A → Prop) (a : A) :
  P a → resolver_like P (mret a).
Proof.
  intros HP s r s' Hrun. injection Hrun as <- <-.
  split; [apply stage_step_refl|]. left. exists a. split; [done|].
  rewrite new_events_refl. split; [done|constructor].
Qed.

Lemma resolver_like_check_command cmd name :
  resolver_like (fun _ => True) (check_command w cmd name).
Proof.
  intros s r s' Hrun. split; [by eapply check_command_step|].
  destruct (check_command_result _ _ _ _ _ Hrun)
    as [(p & -> & Hf)|[(-> & e & He & Herr)|(-> & He)]].
  - left. eauto.
  - right. left. split; [done|]. exists [], e. by rewrite He.
  - right. right. rewrite He. split; [done|constructor].
Qed.

Lemma resolver_like_bind {A B} (P : A → Prop) (Q : B → Prop)
      (m : M A) (k : A → M B) :
  resolver_like P m → (∀ a, resolver_like Q (k a)) → resolver_like Q (m ≫= k).
Proof.
  intros Hm Hk s r s' Hrun.
  apply bind_inv in Hrun as [(a & s1 & H1 & H2)|(e & H1 & ->)].
  - destruct (Hm _ _ _ H1) as [Hs1 Ho1]. destruct (Hk _ _ _ _ H2) as [Hs2 Ho2].
    split; [by eapply stage_step_trans|].
    assert (new_events s s' = new_events s s1 ++ new_events s1 s') as Hnew.
    { apply new_events_trans; [apply Hs1 | apply Hs2]. }
    destruct Ho1 as [(a' & _ & _ & Hf1)|[(? & _)|(? & _)]]; try done.
    unfold resolver_outcome. rewrite Hnew.
    destruct Ho2 as [(b & -> & HQ & Hf2)|[(-> & pre & e & He & Herr)|(-> & Hf2)]].
    + left. exists b. split; [done|]. split; [done|]. by apply Forall_app.
    + right. left. split; [done|]. exists (new_events s s1 ++ pre), e.
      by rewrite He, app_assoc.
    + right. right. split; [done|]. by apply Forall_app.
  - destruct (Hm _ _ _ H1) as [Hs1 Ho1]. split; [done|].
    destruct Ho1 as [(a' & ? & _)|[(He & Herr)|(He & Hf)]]; [done| |].
    + right. left. injection He as ->. by split.
    + right. right. injection He as ->. by split.
Qed.

Lemma resolver_like_get {A} (P : A → Prop) (k : state → M A) :
  (∀ s, resolver_like P (k s)) → resolver_like P (get ≫= k).
Proof. intros Hk s r s' Hrun. by apply (Hk s). Qed.

Lemma tool_checks_step a s r s' :
  tool_checks w a s = (r, s') →
  stage_step StTools s s'
  ∧ ((∃ t, r = Return (Some t)
           ∧ Forall (fun e => is_resolver_error e = false) (new_events s s'))
     ∨ (r = Return None
        ∧ ∃ pre e, new_events s s' = pre ++ [e] ∧ is_resolver_error e = true)
     ∨ (r = Raise KeyboardInterrupt
        ∧ Forall (fun e => is_resolver_error e = false) (new_events s s'))).
Proof.
  unfold tool_checks. intros Hrun.
  apply try_except_inv in Hrun as [(t & Hbody & ->)|(e & s1 & Hbody & Hh)].
  all: eapply (resolver_like_get (fun t => is_Some t)) in Hbody;
    [| intros s0; repeat lazymatch goal with
         | |- resolver_like _ (mret _) =>
             apply resolver_like_ret; first [ exact I | eexists; reflexivity ]
         | |- resolver_like _ (check_command _ _ _) =>
             apply resolver_like_check_command
         | |- resolver_like _ (if ?c then _ else _) => destruct c
         | |- resolver_like _ (_ ≫= _) =>
             eapply (resolver_like_bind (fun _ => True)); [|intros ?]
         end ].
  - destruct Hbody as [Hstep [(t' & ? & [t'' ->] & Hf)|[(? & _)|(? & _)]]];
      simplify_eq.
    split; [done|]. left. eauto.
  - destruct Hbody as [Hstep [(? & ? & _)|[(? & Herr)|(? & Hf)]]]; simplify_eq.
    + injection Hh as <- <-. split; [done|]. right. by left.
    + injection Hh as <- <-. split; [done|]. right. by right.
Qed.

Lemma check_disk_image_step a s r s' :
  check_disk_image w a s = (r, s') → stage_step StDisk s s'.
Proof.
  unfold check_disk_image. intros Hrun. run_stage; by_footprint.
Qed.

Lemma setup_directories_step s r s' :
  setup_directories w s = (r, s') → stage_step StDirs s s'.
Proof.
  unfold setup_directories. intros Hrun. run_stage; by_footprint.
Qed.

Lemma comparison_step a t base s r s' :
  comparison w a t base s = (r, s') → stage_step StCompare s s'.
Proof.
  unfold comparison. intros Hrun. run_stage; by_footprint.
Qed.

Lemma cleanup_step s r s' :
  cleanup w s = (r, s') → socat_handle_ok s →
  r = Return tt ∧ stage_step StExit s s'
  ∧ (socat_process s = None → procs s' = procs s ∧ socat_process s' = None).
Proof.
  unfold cleanup. intros Hrun Hok. run_stage.
  all: destruct Hok; simplify_eq.
  all: split; [done | split; [by_footprint | try done]].
Qed.

(** *** Readiness polling *)

Lemma attempts_app tr1 tr2 : attempts (tr1 ++ tr2) = (attempts tr1 + attempts tr2)%nat.
Proof. unfold attempts. by rewrite List.filter_app, length_app. Qed.

Lemma attempts_trans s1 s2 s3 :
  stage_step StSocat s1 s2 → stage_step StSocat s2 s3 →
  attempts (new_events s1 s3)
  = (attempts (new_events s1 s2) + attempts (new_events s2 s3))%nat.
Proof.
  intros H12 H23. rewrite <- attempts_app. f_equal.
  apply new_events_trans; [apply H12 | apply H23].
Qed.

(** A stage that cannot log a polling attempt logs none. *)
Lemma attempts_other_stage st s s' :
  stage_step st s s' → st ≠ StSocat → attempts (new_events s s') = 0%nat.
Proof.
  intros (_ & _ & Hf & _) Hst. unfold attempts.
  induction Hf as [|e evs He _ IH]; [done|].
  cbn [List.filter]. destruct (is_probe e) eqn:Hp; [|done].
  destruct e; try discriminate. by destruct st.
Qed.

(** The loop never makes more attempts than it has rounds left. *)
Lemma wait_for_pty_step n i a b s r s' :
  wait_for_pty w n i a b s = (r, s') →
  socat_handle_ok s →
  stage_step StSocat s s' ∧ (attempts (new_events s s') ≤ n)%nat.
Proof.
  revert i a b s. induction n as [|n IH]; intros i a b s Hrun Hok;
    cbn [wait_for_pty] in Hrun.
  - run_stage.
    all: destruct Hok; simplify_eq.
    all: split; [by_footprint|].
    all: erewrite new_events_app by log_tail; cbn; lia.
  - run_stage.
    all: try (split; [by_footprint|]; erewrite new_events_app by log_tail;
              cbn; lia).
    all: match goal with
         | H : wait_for_pty _ _ _ _ _ ?s1 = _ |- _ =>
             assert (stage_step StSocat s s1) as Hfirst by by_footprint;
             assert (attempts (new_events s s1) = 1%nat) as Hone
               by (erewrite new_events_app by log_tail; reflexivity);
             apply IH in H as [Hrest Hle];
             [| by apply Hfirst]
         end.
    all: split; [by eapply stage_step_trans|].
    all: rewrite (attempts_trans _ _ _ Hfirst Hrest); lia.
Qed.

(** When resolving raises nothing the loop does not catch, a test of an
    endpoint is a pure step of its readiness state. *)
Lemma probe_caught ep i cur s :
  resolve_errors_caught w →
  probe w ep i cur s = (Return (probed w ep i cur), s).
Proof.
  intros Hc. unfold probe, probed. destruct cur as [p|]; [done|].
  destruct (w_is_symlink w ep i); [|done].
  destruct (w_resolve w ep i) as [p|e] eqn:Hres.
  - by destruct (w_exists w i p && w_is_chr w i p).
  - by rewrite (Hc _ _ _ Hres).
Qed.

(** Readiness only moves forward. *)
Lemma readiness_after_resolved n i pa pb :
  readiness_after w n i (Some pa) (Some pb) = (Some pa, Some pb).
Proof. revert i. induction n as [|n IH]; intros i; [done|]. cbn. apply IH. Qed.

(** Exhausting the budget: the loop exits with status 1, and the last
    progress line it printed carries the readiness states after the last
    attempt. *)
Lemma wait_for_pty_timeout n i a b s r s' :
  wait_for_pty w (S n) i a b s = (r, s') →
  socat_handle_ok s →
  interrupt_in s = None →
  resolve_errors_caught w →
  ¬ (is_Some (readiness_after w (S n) i a b).1
     ∧ is_Some (readiness_after w (S n) i a b).2) →
  r = Raise (SystemExit 1)
  ∧ ∃ pre post sa sb,
      new_events s s'
      = pre ++ [EvPrint (MsgPtyNotReady sa sb
                           (readiness_after w (S n) i a b).1
                           (readiness_after w (S n) i a b).2
                           (i + S n) max_pty_wait_seconds);
                EvSleep; EvPrint MsgErrPtyTimeout] ++ post.
Proof.
  assert (∀ k i a b,
             readiness_after w (S k) i a b
             = readiness_after w k (S i) (probed w PtyA i a) (probed w PtyB i b))
    as Hunfold by done.
  revert i a b s. induction n as [|n IH]; intros i a b s Hrun Hok Hint Hc Hnot.
  all: pose proof (wait_for_pty_step _ _ _ _ _ _ _ Hrun Hok) as [Hstep _].
  all: rewrite Hunfold in Hnot |- *.
  2: remember (S n) as m eqn:Hm.
  all: cbn [wait_for_pty] in Hrun; unfold_monad; simpl_store.
  all: rewrite !probe_caught in Hrun by done.
  all: destruct (probed w PtyA i a) as [pa|] eqn:Ha;
    destruct (probed w PtyB i b) as [pb|] eqn:Hb;
    try (exfalso; apply Hnot; rewrite readiness_after_resolved; cbn;
         by eauto).
  all: simpl_store; rewrite Hint in Hrun; simpl_store.
  (* the last round: the [else] clause of the loop *)
  1-3: cbn [readiness_after fst snd]; run_stage; destruct Hok; simplify_eq;
    (split; [done|]); exists [EvProbe i]; eexists; do 2 eexists;
    apply new_events_app; log_tail.
  (* a round with more to come *)
  all: match type of Hrun with
       | wait_for_pty _ _ _ _ _ ?s1 = _ =>
           assert (stage_step StSocat s s1) as Hfirst by by_footprint
       end.
  all: subst m.
  all: pose proof (wait_for_pty_step _ _ _ _ _ _ _ Hrun (proj1 Hfirst Hok))
    as [Hrest _].
  all: apply IH in Hrun as [-> (pre & post & sa & sb & Hnew)];
    [| by apply Hfirst | by simpl_store | done | done ].
  all: split; [done|].
  all: rewrite (new_events_trans _ _ _ (proj1 (proj2 Hfirst)) (proj1 (proj2 Hrest))).
  all: rewrite Hnew; erewrite new_events_app by log_tail.
  all: replace (i + S (S n))%nat with (S i + S n)%nat by lia.
  all: eexists (_ ++ pre), post, sa, sb; by rewrite <- app_assoc.
Qed.


Lemma socat_setup_step t base s r s' :
  socat_setup w t base s = (r, s') →
  socat_handle_ok s →
  stage_step StSocat s s'
  ∧ (attempts (new_events s s') ≤ max_pty_wait_seconds)%nat
  ∧ (use_socat_globally s = false → r = Return tt ∧ s' = s).
Proof.
  unfold socat_setup. intros Hrun Hok. run_stage.
  (* the loop was entered *)
  all: try match goal with
    | H : wait_for_pty _ _ _ _ _ ?s1 = (_, ?s2) |- context [new_events _ ?s3] =>
        assert (stage_step StSocat s s1) as Hfirst by by_footprint;
        assert (attempts (new_events s s1) = 0%nat) as Hzero
          by (erewrite new_events_app by log_tail; reflexivity);
        apply wait_for_pty_step in H as [Hloop Hle]; [|by apply Hfirst];
        pose proof (stage_step_trans _ _ _ _ Hfirst Hloop) as Hmid;
        pose proof (attempts_trans _ _ _ Hfirst Hloop) as Hsum;
        assert (stage_step StSocat s2 s3) as Hlast
          by first [ apply stage_step_refl | by_footprint ];
        assert (attempts (new_events s2 s3) = 0%nat) as Hzero'
          by first [ by rewrite new_events_refl
                   | erewrite new_events_app by log_tail; reflexivity ];
        pose proof (attempts_trans _ _ _ Hmid Hlast) as Hsum';
        split; [by eapply stage_step_trans|];
        split; [lia | congruence]
    end.
  (* it was not *)
  all: split; [by_footprint|].
  all: split; [erewrite new_events_app by log_tail; cbn; lia|].
  all: first [ done | congruence ].
Qed.

Lemma socat_setup_timeout t base s r s' :
  socat_setup w t base s = (r, s') →
  socat_handle_ok s →
  interrupt_in s = None →
  resolve_errors_caught w →
  EvProbe 0 ∈ new_events s s' →
  ¬ (is_Some (readiness_after w max_pty_wait_seconds 0 None None).1
     ∧ is_Some (readiness_after w max_pty_wait_seconds 0 None None).2) →
  r = Raise (SystemExit 1)
  ∧ ∃ pre post sa sb,
      new_events s s'
      = pre ++ [EvPrint (MsgPtyNotReady sa sb
                           (readiness_after w max_pty_wait_seconds 0 None None).1
                           (readiness_after w max_pty_wait_seconds 0 None None).2
                           max_pty_wait_seconds max_pty_wait_seconds);
                EvSleep; EvPrint MsgErrPtyTimeout] ++ post.
Proof.
  unfold socat_setup. intros Hrun Hok Hint Hc Hprobe Hnot. run_stage.
  all: try congruence.
  all: try (erewrite new_events_app in Hprobe by log_tail; not_logged Hprobe).
  all: match goal with
    | H : wait_for_pty _ _ _ _ _ ?s1 = (_, ?s2) |- _ =>
        assert (stage_step StSocat s s1) as Hfirst by by_footprint;
        pose proof (wait_for_pty_step _ _ _ _ _ _ _ H (proj1 Hfirst Hok))
          as [Hloop _];
        change max_pty_wait_seconds with (S 14) in H at 1;
        apply wait_for_pty_timeout in H as [Hr (pre & post & sa & sb & Hnew)];
        [| by apply Hfirst | by simpl_store | done | done ]
    end.
  all: simplify_eq.
  split; [done|].
  rewrite (new_events_trans _ _ _ (proj1 (proj2 Hfirst)) (proj1 (proj2 Hloop))).
  rewrite Hnew. erewrite new_events_app by log_tail.
  eexists (_ ++ pre), post, sa, sb. by rewrite <- app_assoc.
Qed.

(** *** Extraction *)

Lemma extraction_step t disk_image_path base s r s' :
  extraction w t disk_image_path base s = (r, s') →
  stage_step StExtract s s'
  ∧ (EvPrint (MsgExtracted 0) ∈ new_events s s' → r = Raise (SystemExit 0)).
Proof.
  unfold extraction. intros Hrun. run_stage.
  all: split; [by_footprint|].
  all: intros Hin; erewrite new_events_app in Hin by log_tail.
  all: try done.
  all: logged_cases Hin.
  all: injection Hin as Hlen; rewrite <- Hlen in *; done.
Qed.

(** When the tool succeeds and leaves no regular file in the extraction
    directory, the stage logs that nothing was extracted and exits with
    status 0. *)
Lemma extraction_nothing t disk_image_path base s entries :
  interrupt_in s = None →
  w_extract w = Completed 0 →
  iterdir EXTRACTED_DIR_NAME
          (populate EXTRACTED_DIR_NAME (w_extracted w) (session s))
  = Return entries →
  filter (fun p => is_file p = true) entries = [] →
  ∃ s', extraction w t disk_image_path base s = (Raise (SystemExit 0), s')
        ∧ EvPrint (MsgExtracted 0) ∈ new_events s s'
        ∧ procs s' = procs s.
Proof.
  intros Hint Hext Hdir Hnone. unfold extraction.
  unfold_primitives; unfold_monad; simpl_store.
  rewrite Hint, Hext. simpl_store. rewrite Hint.
  cbn [andb negb Z.eqb]. simpl_store.
  rewrite Hdir, Hnone. cbn [length Nat.eqb]. simpl_store.
  eexists. split; [done|]. split; [|done].
  erewrite new_events_app by log_tail. set_solver.
Qed.

(** *** Send and receive *)

Lemma send_and_receive_step t base s r s' :
  send_and_receive w t base s = (r, s') →
  stage_step StTransfer s s'
  ∧ (pt_sender (procs s) = None →
     (r = Return tt → pt_sender (procs s') = Some (Exited 0))
     ∧ (∀ rc, pt_sender (procs s') = Some (Exited rc) → rc ≠ 0 →
              r = Raise (SystemExit 1)
              ∧ EvPrint (MsgErrSend rc) ∈ new_events s s'
              ∧ (pt_receiver (procs s') = Some Terminated
                 ∨ ∃ rc', pt_receiver (procs s') = Some (Exited rc')))
     ∧ (∀ argv, EvPopen Receiver argv ∈ new_events s s' →
                argv !! 1%nat = Some (port_arg (port_for_recv s)))
     ∧ (∀ argv, EvPopen Sender argv ∈ new_events s s' →
                argv !! 1%nat = Some (port_arg (port_for_send s)))).
Proof.
  unfold send_and_receive, recv_process_obj. intros Hrun. run_stage.
  all: split; [by_footprint|intros Hnone].
  all: rc_facts.
  all: split; [intros Hr; first [ discriminate Hr | congruence ] |].
  all: split;
    [ intros rc Hrc Hne;
      first [ congruence
            | injection Hrc as <-;
              split; [done|];
              split; [erewrite new_events_app by log_tail; set_solver|];
              by eauto ]
    | split; intros argv Hin; erewrite new_events_app in Hin by log_tail;
      logged_cases Hin; by injection Hin as -> ].
Qed.

End HarnessStages.

(** *** The main block and the whole run *)

Ltac handle_ok :=
  first
    [ assumption
    | by (unfold socat_handle_ok in *; simpl_store)
    | match goal with
      | Hc : stage_step _ ?s0 ?s |- socat_handle_ok ?s => apply (proj1 Hc); handle_ok
      end ].

Ltac use_cleanups :=
  repeat match goal with
    | H : cleanup _ ?s = (_, _) |- _ =>
        apply cleanup_step in H as (? & ? & ?); [|handle_ok]
    end.

Ltac exit_chain :=
  lazymatch goal with
  | |- stage_step StExit ?a ?b =>
      first
        [ apply stage_step_refl
        | solve [by_footprint]
        | eassumption
        | match goal with
          | H : stage_step StExit ?x b |- _ =>
              apply (stage_step_trans _ a x b); [exit_chain | exact H]
          end ]
  end.

Section HarnessRun.
Variable w : world.

(** Every handler of the main block ends in [cleanup], which never
    raises. *)
Lemma main_block_step a s r s1 rf sf :
  main_logic w a s = (r, s1) →
  main_block w a s = (rf, sf) →
  socat_handle_ok s1 →
  stage_step StExit s1 sf ∧ exit_status rf = exit_status r
  ∧ (socat_process s1 = None → procs sf = procs s1 ∧ socat_process sf = None)
  ∧ (r = Return tt → temp_base_dir_path s1 = None → sf = s1).
Proof.
  intros Hmain Hblock Hok. unfold main_block, try_finally, try_except in Hblock.
  rewrite Hmain in Hblock. unfold fallback_cleanup in Hblock.
  destruct r as [[]|e].
  - unfold_monad. simpl_store. repeat (case_match; simplify_eq).
    all: use_cleanups; simplify_eq.
    all: split; [exit_chain|split; [done|]].
    all: simpl_store; split; [intros; split; intuition congruence|].
    all: intros; first [ done | congruence ].
  - destruct e; cbn [isinstance] in Hblock.
    all: unfold_monad; simpl_store.
    all: repeat (case_match; simplify_eq); simpl_store.
    all: use_cleanups; simplify_eq.
    all: split; [exit_chain|split; [done|]].
    all: simpl_store; split; [intros; split; intuition congruence|done].
Qed.

(** [main_logic] is such a run. *)
Lemma main_logic_run a s r s' :
  main_logic w a s = (r, s') →
  socat_handle_ok s →
  run w a all_stages s r s'.
Proof.
  unfold main_logic. intros Hrun Hok.
  (* 0. ports *)
  apply bind_inv in Hrun as [([] & s0 & H0 & Hrun)|(e & H0 & ->)];
    [|discriminate H0].
  assert (stage_step StPorts s s0) as Hs0.
  { injection H0 as <-. by_footprint. }
  apply bind_inv in Hrun as [([] & s1 & H1 & Hrun)|(e & H1 & ->)];
    apply port_strategy_step in H1 as [Hs1 Hf1];
    pose proof (stage_step_trans _ _ _ _ Hs0 Hs1) as Hp.
  2:{ apply run_stop; [done|]. intros Hb. by destruct (Hf1 Hb). }
  eapply run_next; [exact Hp| |].
  { intros Hb. destruct (Hf1 Hb) as (_ & ? & ? & ?). done. }
  pose proof (proj1 Hp Hok) as Hok1.
  (* 1. tools *)
  apply bind_inv in Hrun as [(checked & s2 & H2 & Hrun)|(e & H2 & ->)];
    apply tool_checks_step in H2 as [Hs2 Hf2].
  2:{ apply run_stop; [done|].
      destruct Hf2 as [(? & ? & _)|[(? & _)|(? & ?)]]; by simplify_eq. }
  destruct checked as [t|].
  2:{ injection Hrun as <- <-. apply run_stop; [done|].
      destruct Hf2 as [(? & ? & _)|[(_ & ?)|(? & _)]]; by simplify_eq. }
  eapply run_next; [exact Hs2| |].
  { destruct Hf2 as [(? & _ & ?)|[(? & _)|(? & _)]]; by simplify_eq. }
  pose proof (proj1 Hs2 Hok1) as Hok2.
  (* the disk image *)
  apply bind_inv in Hrun as [(disk_image_path & s3 & H3 & Hrun)|(e & H3 & ->)];
    apply check_disk_image_step in H3 as Hs3.
  2:{ by apply run_stop. }
  eapply run_next; [exact Hs3|done|].
  pose proof (proj1 Hs3 Hok2) as Hok3.
  (* 2. directories *)
  apply bind_inv in Hrun as [(base & s4 & H4 & Hrun)|(e & H4 & ->)];
    apply setup_directories_step in H4 as Hs4.
  2:{ by apply run_stop. }
  eapply run_next; [exact Hs4|done|].
  pose proof (proj1 Hs4 Hok3) as Hok4.
  (* 3. socat *)
  apply bind_inv in Hrun as [([] & s5 & H5 & Hrun)|(e & H5 & ->)];
    pose proof (socat_setup_step _ _ _ _ _ _ H5 Hok4) as (Hs5 & Hle & Hoff);
    pose proof (socat_setup_timeout _ _ _ _ _ _ H5 Hok4) as Hto.
  2:{ apply run_stop; [done|]. split; [done|]. split.
      - intros Hu. by destruct (Hoff Hu).
      - intros Hi Hc Hp0 Hn. destruct (Hto Hi Hc Hp0 Hn) as [-> ?]. done. }
  eapply run_next; [exact Hs5| |].
  { split; [done|]. split.
    - intros Hu. by destruct (Hoff Hu) as [_ ->].
    - intros Hi Hc Hp0 Hn. by destruct (Hto Hi Hc Hp0 Hn). }
  pose proof (proj1 Hs5 Hok4) as Hok5.
  (* 4. extraction *)
  apply bind_inv in Hrun as [([] & s6 & H6 & Hrun)|(e & H6 & ->)];
    apply extraction_step in H6 as [Hs6 Hf6].
  2:{ apply run_stop; [done|]. intros Hin. by rewrite (Hf6 Hin). }
  eapply run_next; [exact Hs6| |].
  { intros Hin. by specialize (Hf6 Hin). }
  (* 5. send and receive *)
  apply bind_inv in Hrun as [([] & s7 & H7 & Hrun)|(e & H7 & ->)];
    apply send_and_receive_step in H7 as [Hs7 Hf7].
  2:{ apply run_stop; [done|]. intros Hnone.
      destruct (Hf7 Hnone) as (_ & Hrc & Hra & Hsa).
      split; [done|]. split; [|done].
      intros rc H1 H2. destruct (Hrc rc H1 H2) as (-> & ? & ?). done. }
  eapply run_next; [exact Hs7| |].
  { intros Hnone. destruct (Hf7 Hnone) as (Hr & Hrc & Hra & Hsa).
    split; [by auto|]. split; [|done].
    intros rc H1 H2. by destruct (Hrc rc H1 H2). }
  (* 6. comparison *)
  apply run_stop; [by eapply comparison_step|done].
Qed.

Lemma run_handle_ok a sts s r s' :
  run w a sts s r s' → socat_handle_ok s → socat_handle_ok s'.
Proof.
  induction 1 as [|????? Hs|?????? Hs ? ? IH]; intros Hok; [done| |].
  - by apply Hs.
  - apply IH. by apply Hs.
Qed.

(** The whole script: a run of [main_logic], then the exit stage; the
    exit status is read off how the run ended. *)
Lemma run_script_run a code sf :
  run_script w a = (code, sf) →
  ∃ r s1,
    run w a all_stages (initial_state w) r s1
    ∧ stage_step StExit s1 sf
    ∧ code = exit_status r
    ∧ (socat_process s1 = None → procs sf = procs s1 ∧ socat_process sf = None)
    ∧ (r = Return tt → temp_base_dir_path s1 = None → sf = s1).
Proof.
  unfold run_script. intros Hscript.
  destruct (main_logic w a (initial_state w)) as [r s1] eqn:Hmain.
  destruct (main_block w a (initial_state w)) as [rf sf'] eqn:Hblock.
  assert (socat_handle_ok (initial_state w)) as Hok0 by by left.
  pose proof (main_logic_run _ _ _ _ Hmain Hok0) as Hrun.
  destruct (main_block_step _ _ _ _ _ _ Hmain Hblock
              (run_handle_ok _ _ _ _ _ Hrun Hok0))
    as (Hexit & Hstatus & Hoff & Hsame).
  exists r, s1.
  assert (sf' = sf ∧ code = exit_status rf) as [-> ->].
  { destruct rf as [[]|[]]; by simplify_eq. }
  by rewrite Hstatus.
Qed.

End HarnessRun.

(** *** The claims about runs *)

(** Split a run over the stage list into the ways it can end. *)
Ltac run_cases :=
  repeat match goal with
    | H : run _ _ (_ :: _) _ _ _ |- _ => inversion H; subst; clear H
    | H : run _ _ [] _ _ _ |- _ => inversion H; subst; clear H
    end.

(** Open every stage step into its log and footprint equations. *)
Ltac open_steps :=
  repeat match goal with
    | H : stage_step _ _ _ |- _ =>
        let Hh := fresh "Hh" in let Ht := fresh "Ht" in
        let Hv := fresh "Hv" in let Hi := fresh "Hi" in
        let Hk := fresh "Hk" in
        destruct H as (Hh & Ht & Hv & Hi & Hk);
        unfold keeps in Hk; destruct_and?
    end;
  cbn [stage_facts] in *.

(** An event that a stage cannot log was not logged by it. *)
Ltac by_vocabulary H :=
  match type of H with
  | ?e ∈ new_events ?s ?s' =>
      match goal with
      | Hv : Forall _ (new_events s s') |- _ =>
          let Hx := fresh in
          pose proof (proj1 (Forall_forall _ _) Hv _ H) as Hx;
          cbn in Hx; discriminate Hx
      end
  end.

(** Use every implication whose premise is at hand. *)
Ltac forward :=
  repeat match goal with
    | H : ?P → _ |- _ =>
        lazymatch type of P with
        | Prop =>
            let HP := fresh in
            assert P as HP by (first [ assumption | congruence ]);
            specialize (H HP); clear HP
        end
    end;
  destruct_and?.

Ltac init_store :=
  cbn [initial_state socat_process port_for_recv port_for_send
       temp_base_dir_path use_socat_globally procs session trace interrupt_in
       pt_socat pt_receiver pt_sender] in *.

Lemma attempts_none st evs :
  Forall (fun e => emitted_by st e = true) evs → st ≠ StSocat →
  attempts evs = 0%nat.
Proof.
  intros Hf Hst. unfold attempts.
  induction Hf as [|e evs He _ IH]; [done|].
  cbn [List.filter]. destruct (is_probe e) eqn:Hp; [|done].
  destruct e; try discriminate. by destruct st.
Qed.

(** Write the final log as the concatenation of what each stage logged. *)
Ltac unfold_log :=
  rewrite ?new_events_refl in *;
  repeat match goal with
    | H : trace ?x = trace ?x ++ _ |- _ => clear H
    end;
  repeat match goal with
    | Ht : trace ?x = _ |- context [trace ?x] => rewrite Ht
    | Ht : trace ?x = _, H : context [trace ?x] |- _ => rewrite Ht in H
    end.

(** No stage but the socat stage logs a polling attempt. *)
Ltac count_attempts :=
  unfold_log; rewrite ?attempts_app;
  repeat match goal with
    | Hv : Forall (fun e => emitted_by ?st e = true) ?evs
      |- context [attempts ?evs] =>
        rewrite (attempts_none st evs Hv) by done
    end;
  cbn [attempts List.filter length Nat.add] in *.

(** Find the stage that logged an event. *)
Ltac who_logged H :=
  unfold_log; rewrite ?elem_of_app in H; destruct_or?;
  try (by apply elem_of_nil in H);
  try by_vocabulary H.

Ltac chase :=
  open_steps; init_store;
  repeat (progress (forward; simplify_eq; init_store)).

Section HarnessClaims.
Variable w : world.

(** C7. Whenever the caller supplies two port identifiers, socat is never
    started, no readiness polling attempt is made, the two identifiers are
    the two endpoints, and they are what the receiver and the sender are
    started on. *)
Theorem explicit_ports_skip_loopback a code s :
  run_script w a = (code, s) →
  truthy (com_port_recv_arg a) = true →
  truthy (com_port_send_arg a) = true →
  pt_socat (procs s) = None
  ∧ (∀ argv, EvPopen Socat argv ∉ trace s)
  ∧ attempts (trace s) = 0%nat
  ∧ port_for_recv s = com_port_recv_arg a
  ∧ port_for_send s = com_port_send_arg a
  ∧ (∀ argv, EvPopen Receiver argv ∈ trace s → argv !! 1%nat = com_port_recv_arg a)
  ∧ (∀ argv, EvPopen Sender argv ∈ trace s → argv !! 1%nat = com_port_send_arg a).
Proof.
  intros Hscript Hrecv Hsend.
  apply run_script_run in Hscript as (r & s1 & Hrun & Hexit & -> & Hoff & _).
  assert (both_ports a = true) as Hboth
    by (unfold both_ports; by rewrite Hrecv, Hsend).
  destruct (com_port_recv_arg a) as [recv|] eqn:Ear; [|done].
  destruct (com_port_send_arg a) as [send|] eqn:Eas; [|done].
  unfold all_stages in Hrun. run_cases.
  all: chase.
  all: repeat split; try congruence.
  all: try (intros argv Hin; who_logged Hin).
  all: try (count_attempts; lia).
  all: match goal with
       | Hin : _ ∈ new_events _ _, Hargv : ∀ argv : list string, _ |- _ =>
           rewrite (Hargv _ Hin); unfold port_arg;
           match goal with
           | |- Some (default _ ?p) = Some ?x =>
               replace p with (Some x) by congruence; reflexivity
           end
       end.
Qed.

(** C3. When the extraction tool succeeds and leaves no regular file in
    the extraction directory, the stage logs that nothing was extracted
    and exits with status 0; and every run whose log says so ends with
    exit status 0 without having started the receiver or the sender. *)
Theorem nothing_extracted_is_success :
  (∀ t disk_image_path base s entries,
      interrupt_in s = None →
      w_extract w = Completed 0 →
      iterdir EXTRACTED_DIR_NAME
              (populate EXTRACTED_DIR_NAME (w_extracted w) (session s))
      = Return entries →
      filter (fun p => is_file p = true) entries = [] →
      ∃ s', extraction w t disk_image_path base s = (Raise (SystemExit 0), s')
            ∧ EvPrint (MsgExtracted 0) ∈ new_events s s')
  ∧ (∀ a code s,
        run_script w a = (code, s) →
        EvPrint (MsgExtracted 0) ∈ trace s →
        code = 0
        ∧ pt_receiver (procs s) = None
        ∧ pt_sender (procs s) = None
        ∧ (∀ argv, EvPopen Receiver argv ∉ trace s)
        ∧ (∀ argv, EvPopen Sender argv ∉ trace s)).
Proof.
  split.
  - intros t d base s entries Hi He Hd Hn.
    destruct (extraction_nothing w t d base s entries Hi He Hd Hn)
      as (s' & ? & ? & _).
    by exists s'.
  - intros a code s Hscript Hin.
    apply run_script_run in Hscript as (r & s1 & Hrun & Hexit & -> & Hoff & _).
    unfold all_stages in Hrun. run_cases.
    all: chase.
    all: who_logged Hin.
    all: chase.
    repeat split; try congruence.
    all: intros argv Hin'; who_logged Hin'.
Qed.

(** C2, amended. Whenever the sender has exited with a non-zero status,
    the run reports the failed transfer and exits with status 1, and the
    receiver has been dealt with: it has exited, or [terminate()] was
    called on it. That is all: the script does not wait for a receiver it
    has signalled, so it need not have exited when the run ends. *)
Theorem sender_failure_terminates_receiver a code s rc :
  run_script w a = (code, s) →
  pt_sender (procs s) = Some (Exited rc) →
  rc ≠ 0 →
  code = 1
  ∧ EvPrint (MsgErrSend rc) ∈ trace s
  ∧ (pt_receiver (procs s) = Some Terminated
     ∨ ∃ rc', pt_receiver (procs s) = Some (Exited rc')).
Proof.
  intros Hscript Hsender Hrc.
  apply run_script_run in Hscript as (r & s1 & Hrun & Hexit & -> & Hoff & _).
  unfold all_stages in Hrun. run_cases.
  all: chase.
  all: try congruence.
  match goal with
  | H : ∀ rc, pt_sender _ = _ → _ |- _ =>
      destruct (H rc) as (Hr & Hlog & Hrecv); [congruence|done|]
  end.
  simplify_eq. split; [done|]. split.
  - unfold_log. rewrite !elem_of_app. tauto.
  - destruct Hrecv as [?|[rc' ?]]; [left|right; exists rc']; congruence.
Qed.

(** C4. Readiness polling never makes more than its fifteen attempts,
    whatever the links do. And when polling has begun, nothing interrupts
    the run, resolving a link raises only what the loop catches, and the
    two endpoints are not both resolved after the fifteenth attempt, the
    run exits with status 1 after reporting the timeout; the progress line
    logged just before it carries the readiness state of each endpoint
    as last observed. *)
Theorem readiness_polling_bounded :
  (∀ a code s, run_script w a = (code, s) →
               (attempts (trace s) ≤ max_pty_wait_seconds)%nat)
  ∧ (∀ a code s,
        run_script w a = (code, s) →
        EvProbe 0 ∈ trace s →
        w_interrupt w = None →
        resolve_errors_caught w →
        ¬ (is_Some (readiness_after w max_pty_wait_seconds 0 None None).1
           ∧ is_Some (readiness_after w max_pty_wait_seconds 0 None None).2) →
        code = 1
        ∧ ∃ pre post sa sb,
            trace s
            = pre ++ [EvPrint (MsgPtyNotReady sa sb
                         (readiness_after w max_pty_wait_seconds 0 None None).1
                         (readiness_after w max_pty_wait_seconds 0 None None).2
                         max_pty_wait_seconds max_pty_wait_seconds);
                      EvSleep; EvPrint MsgErrPtyTimeout] ++ post).
Proof.
  split.
  - intros a code s Hscript.
    apply run_script_run in Hscript as (r & s1 & Hrun & Hexit & -> & Hoff & _).
    unfold all_stages in Hrun. run_cases.
    all: chase.
    all: count_attempts; lia.
  - intros a code s Hscript Hin Hint Hcaught Hnot.
    apply run_script_run in Hscript as (r & s1 & Hrun & Hexit & -> & Hoff & _).
    unfold all_stages in Hrun. run_cases.
    all: chase.
    all: who_logged Hin.
    all: chase.
    match goal with
    | H : ∃ pre post sa sb, new_events _ _ = _ |- _ =>
        destruct H as (pre & post & sa & sb & Hnew)
    end.
    split; [done|]. rewrite Hnew.
    match goal with
    | |- ∃ pre0 post0 sa0 sb0, (?A ++ _) ++ ?E = _ =>
        exists (A ++ pre), (post ++ E), sa, sb
    end.
    by rewrite <- !app_assoc.
Qed.

(** C8. [check_command] first asks the search path; what it finds there
    decides alone, and only when the search finds nothing is the string
    tried as a path to a regular executable file. Every failure is
    reported as the call's last effect. And in a run whose log has a
    resolver failure, that report is the last thing logged: the run
    stopped there, before the session directory was touched and before any
    process was started. *)
Theorem resolver_order_and_early_failure :
  (∀ cmd name s,
      interrupt_in s = None →
      (∀ found, w_which w (w_path_str w cmd) = Some found → found ≠ "" →
          (check_command w cmd name s).1
          = if w_is_file w (w_path_str w found) && w_access_x w (w_path_str w found)
            then Return (w_path_str w found) else Raise (SystemExit 1))
      ∧ (truthy (w_which w (w_path_str w cmd)) = false →
          (check_command w cmd name s).1
          = if w_is_file w (w_path_str w cmd) && w_access_x w (w_path_str w cmd)
            then Return (w_path_str w cmd) else Raise (SystemExit 1))
      ∧ ((check_command w cmd name s).1 = Raise (SystemExit 1) →
          ∃ e, new_events s (check_command w cmd name s).2 = [e]
               ∧ is_resolver_error e = true))
  ∧ (∀ a code s e,
        run_script w a = (code, s) →
        e ∈ trace s → is_resolver_error e = true →
        (∃ pre e', trace s = pre ++ [e'] ∧ is_resolver_error e' = true)
        ∧ session s = w_initial_session w
        ∧ temp_base_dir_path s = None
        ∧ procs s = procs (initial_state w)
        ∧ (∀ e'', e'' ∈ trace s → emitted_by StPorts e'' || emitted_by StTools e'' = true)).
Proof.
  split.
  - intros cmd name s Hint. split; [|split].
    + intros found Hfound Hne. unfold check_command.
      unfold_monad. simpl_store. rewrite Hint, Hfound.
      cbn [truthy from_option id]. destruct (String.eqb_spec found ""); [done|].
      cbn [negb].
      by destruct (w_is_file w (w_path_str w found)
                   && w_access_x w (w_path_str w found)).
    + intros Hnone. unfold check_command.
      unfold_monad. simpl_store. rewrite Hint, Hnone.
      by destruct (w_is_file w (w_path_str w cmd)
                   && w_access_x w (w_path_str w cmd)).
    + intros Hfail.
      destruct (check_command w cmd name s) as [r s'] eqn:Hrun.
      destruct (check_command_result _ _ _ _ _ _ Hrun)
        as [(p & -> & _)|[(_ & ?)|(-> & _)]]; done.
  - intros a code s e Hscript Hin Herr.
    apply run_script_run in Hscript as (r & s1 & Hrun & Hexit & -> & Hoff & Hsame).
    assert (∃ m, e = EvPrint m) as [m ->] by (destruct e; try done; by eauto).
    destruct m; try discriminate Herr.
    all: unfold all_stages in Hrun; run_cases.
    all: chase.
    all: who_logged Hin.
    all: try match goal with
         | Hf : Forall (fun e => is_resolver_error e = false) ?evs,
           Hin : _ ∈ ?evs |- _ =>
             by pose proof (proj1 (Forall_forall _ _) Hf _ Hin)
         end.
    all: match goal with
         | H : match ?r with Return _ => _ | Raise _ => _ end |- _ =>
             destruct r as [[]|]; [|destruct H as [_ Hf]]
         end.
    all: try match goal with
         | Hf : Forall (fun e => is_resolver_error e = false) ?evs,
           Hin : _ ∈ ?evs |- _ =>
             by pose proof (proj1 (Forall_forall _ _) Hf _ Hin)
         end.
    all: chase.
    all: match goal with
         | H : ∃ pre e, new_events _ _ = _ ∧ _ |- _ =>
             destruct H as (pre & e' & Hnew & He')
         end.
    all: unfold_log; rewrite Hnew in *; rewrite ?app_nil_r in *.
    all: split; [eexists _, e'; split; [by rewrite app_assoc|done]|].
    all: split; [congruence|]; split; [congruence|]; split.
    all: try (destruct (procs s1); simpl in *; congruence).
    all: intros e'' He''; rewrite !elem_of_app in He''; apply orb_true_iff.
    all: repeat match goal with
         | Hv : Forall _ _ |- _ => rewrite Forall_forall in Hv
         end.
    all: destruct_or?; try (by apply elem_of_nil in He'').
    all: first [ left; by eauto | right; by eauto
               | right; rewrite <- ?elem_of_app in *; by eauto
               | right;
                 match goal with
                 | Hv : ∀ x, x ∈ _ ++ _ → emitted_by StTools x = true |- _ =>
                     apply Hv; rewrite elem_of_app; by auto
                 end ].
Qed.

End HarnessClaims.

(** *** Cleanup *)

Section Cleanup.
Variable w : world.

Lemma omap_idem {A} (f : A → option A) (l : list A) :
  Forall (fun x => ∀ y, f x = Some y → f y = Some y) l →
  omap f (omap f l) = omap f l.
Proof.
  induction 1 as [|x l Hx _ IH]; [done|].
  cbn. destruct (f x) as [y|] eqn:Hfx; [|done].
  cbn. by rewrite (Hx y eq_refl), IH.
Qed.

(** What [rmtree] could not remove, it cannot remove the second time. *)
Lemma rmtree_node_idem n : ∀ wr n', rmtree_node wr n = Some n' → rmtree_node wr n' = Some n'.
Proof.
  induction n as [name|name w' cs IH] using node_ind'; intros wr n' Hrm.
  - cbn in Hrm. destruct wr; [done|]. by injection Hrm as <-.
  - cbn [rmtree_node] in Hrm.
    assert (omap (rmtree_node w') (omap (rmtree_node w') cs)
            = omap (rmtree_node w') cs) as Hidem.
    { apply omap_idem. eapply Forall_impl; [exact IH|]. intros c Hc. apply Hc. }
    destruct (omap (rmtree_node w') cs) as [|c rest] eqn:Hleft.
    + destruct wr; [done|]. injection Hrm as <-. done.
    + injection Hrm as <-. cbn [rmtree_node]. by rewrite Hidem.
Qed.

Lemma rmtree_idem cwd_w root root' :
  rmtree cwd_w root = Some root' → rmtree cwd_w root' = Some root'.
Proof.
  unfold rmtree. destruct root as [name|name wr cs]; intros Hrm.
  - by injection Hrm as <-.
  - pose proof (rmtree_node_idem _ _ _ Hrm) as Hidem.
    destruct root' as [name'|name' wr' cs']; [|done].
    cbn in Hrm. by repeat case_match.
Qed.

(** What one call of [cleanup] does to the store. *)
Lemma cleanup_spec s :
  ∃ s', cleanup w s = (Return tt, s')
        ∧ temp_base_dir_path s' = temp_base_dir_path s
        ∧ use_socat_globally s' = use_socat_globally s
        ∧ socat_process s'
          = (if use_socat_globally s then None else socat_process s)
        ∧ (use_socat_globally s = false ∨ socat_process s = None →
           procs s' = procs s)
        ∧ session s'
          = match temp_base_dir_path s, session s with
            | Some _, Some root => rmtree (w_cwd_writable w) root
            | _, _ => session s
            end.
Proof.
  destruct (cleanup w s) as [r s'] eqn:Hrun. unfold cleanup in Hrun. run_stage.
  all: eexists; split; [reflexivity|]; simpl_store.
  all: repeat split; try done.
  all: try (by intros [?|?]).
  all: by repeat case_match.
Qed.

(** C6. [cleanup] never raises, and a second call in sequence leaves the
    loopback-process handle, the process table and the session directory
    as the first call left them. *)
Theorem cleanup_idempotent s :
  (cleanup w s).1 = Return tt
  ∧ (cleanup w (cleanup w s).2).1 = Return tt
  ∧ observable (cleanup w (cleanup w s).2).2 = observable (cleanup w s).2.
Proof.
  destruct (cleanup_spec s) as (s1 & Hc1 & Ht1 & Hu1 & Hp1 & _ & Hs1).
  rewrite Hc1. cbn [fst snd].
  destruct (cleanup_spec s1) as (s2 & Hc2 & Ht2 & Hu2 & Hp2 & Hq2 & Hs2).
  rewrite Hc2. cbn [fst snd]. split; [done|]. split; [done|].
  unfold observable. f_equal; [f_equal|].
  - rewrite Hp2, Hu1, Hp1. by destruct (use_socat_globally s).
  - apply Hq2. rewrite Hu1, Hp1. destruct (use_socat_globally s); by auto.
  - rewrite Hs2, Ht1, Hs1.
    destruct (temp_base_dir_path s) as [path|]; [|done].
    destruct (session s) as [root|]; [|done].
    destruct (rmtree (w_cwd_writable w) root) as [root'|] eqn:Hrm; [|done].
    apply (rmtree_idem _ _ _ Hrm).
Qed.

End Cleanup.

(* ===================================================================== *)
(** ** The claims on concrete runs *)
(* ===================================================================== *)

Import Examples.

(** Membership in a log that has been computed. *)
Ltac in_log :=
  repeat first [ apply list_elem_of_here | apply list_elem_of_further ].

Ltac not_in_log :=
  let H := fresh in intros H; not_logged H.

(** C1. The comparison tool of the repository exits with status 0 on two
    directories in which [B.BIN] differs, and its report says so; the
    harness, given that exit status and that report, prints the report,
    declares the test passed and exits with status 0, where the claim
    asks for status 1. *)
Theorem mismatch_report_passes :
  let w := posix_world 2 two_files (Completed 0)
                                mismatch_report None in
  let outcome := run_script w (tool_args None None) in
  (CompareMd5.main two_dirs "src" "dst").1 = 0
  ∧ CompareMd5.OutMismatch "B.BIN" "src" (String "001" "") "dst" (String "002" "")
    ∈ (CompareMd5.main two_dirs "src" "dst").2
  ∧ w_compare w = Completed 0
  ∧ w_compare_stdout w = (CompareMd5.main two_dirs "src" "dst").2
  ∧ EvPrint (MsgCompareStdout (w_compare_stdout w)) ∈ trace outcome.2
  ∧ EvPrint MsgPassed ∈ trace outcome.2
  ∧ outcome.1 = 0.
Proof.
  cbv zeta. split; [by vm_compute|]. split; [vm_compute; in_log|].
  split; [done|]. split; [by vm_compute|].
  split; [vm_compute; in_log|]. split; [vm_compute; in_log|]. by vm_compute.
Qed.

(** C5. Ctrl+C while the sender is running: the sender is killed by
    [subprocess.run], [cleanup] is reached once, stops socat and removes
    the session directory, and the script exits with status 1; but
    nothing terminates the receiver, which was started before the sender
    and is still running when the script is gone. *)
Theorem interrupt_leaves_receiver_running :
  let w := posix_world 0 two_files (Completed 0) [] (Some 14%nat) in
  let outcome := run_script w (tool_args None None) in
  outcome.1 = 1
  ∧ List.filter (fun e => match e with
                          | EvPopen _ _ | EvTerminate _ | EvKill _ | EvRmtree _
                          | EvPrint (MsgInterrupted | MsgCleaningUp) => true
                          | _ => false
                          end) (trace outcome.2)
    = [EvPopen Socat
         ["/usr/bin/socat"; "-d"; "-d";
          "pty,raw,echo=0,link=/work/test_send_recv_temp_4242/pty_a_symlink";
          "pty,raw,echo=0,link=/work/test_send_recv_temp_4242/pty_b_symlink"];
       EvPopen Receiver
         ["/usr/bin/oasis_recv"; "/dev/pts/3";
          "/work/test_send_recv_temp_4242/received_files"; "--pacing-packet"; "10"];
       EvPopen Sender
         ["/usr/bin/oasis_send"; "/dev/pts/4"; "--pacing-packet"; "10";
          "/work/test_send_recv_temp_4242/extracted_files/A.TXT";
          "/work/test_send_recv_temp_4242/extracted_files/B.BIN"];
       EvKill Sender;
       EvPrint MsgInterrupted;
       EvPrint MsgCleaningUp;
       EvTerminate Socat;
       EvRmtree "/work/test_send_recv_temp_4242"]
  ∧ session outcome.2 = None
  ∧ procs outcome.2
    = {| pt_socat := Some (Exited (-15));
         pt_receiver := Some Running;
         pt_sender := Some Killed |}.
Proof. cbv zeta. by vm_compute. Qed.


(** The sender exits with status 3: the receiver is terminated and the
    script exits with status 1. *)
Lemma sender_failure_terminates_receiver_witness :
  let w := posix_world 2 two_files (Completed 3) [] None in
  ∃ code s,
    run_script w (tool_args None None) = (code, s)
    ∧ pt_sender (procs s) = Some (Exited 3)
    ∧ code = 1
    ∧ EvPrint (MsgErrSend 3) ∈ trace s
    ∧ (pt_receiver (procs s) = Some Terminated
       ∨ ∃ rc', pt_receiver (procs s) = Some (Exited rc')).
Proof.
  cbv zeta. eexists _, _. split; [vm_compute; reflexivity|].
  split; [reflexivity|].
  eapply (sender_failure_terminates_receiver
            (posix_world 2 two_files (Completed 3) [] None)
            (tool_args None None) _ _ 3).
  - vm_compute. reflexivity.
  - reflexivity.
  - lia.
Defined.

(** An extraction that leaves nothing behind. *)
Lemma nothing_extracted_is_success_witness :
  let w := posix_world 2 [] (Completed 0) [] None in
  (∃ s', extraction w
           {| socat_cmd := None; oasis_disk_util_cmd := "oasis_disk_util";
              oasis_send_cmd := "oasis_send"; oasis_recv_cmd := "oasis_recv";
              compare_md5_cmd := "compare_md5.py" |}
           "disk.img" "/work/session" (provisioned w)
         = (Raise (SystemExit 0), s')
         ∧ EvPrint (MsgExtracted 0) ∈ new_events (provisioned w) s')
  ∧ ∃ code s,
      run_script w (tool_args None None) = (code, s)
      ∧ code = 0
      ∧ pt_receiver (procs s) = None
      ∧ pt_sender (procs s) = None
      ∧ (∀ argv, EvPopen Receiver argv ∉ trace s)
      ∧ (∀ argv, EvPopen Sender argv ∉ trace s).
Proof.
  cbv zeta. split.
  - apply (proj1 (nothing_extracted_is_success (posix_world 2 [] (Completed 0) [] None))
             _ _ _ (provisioned (posix_world 2 [] (Completed 0) [] None)) []);
      reflexivity.
  - eexists _, _. split; [vm_compute; reflexivity|].
    eapply (proj2 (nothing_extracted_is_success (posix_world 2 [] (Completed 0) [] None))
              (tool_args None None)).
    + vm_compute. reflexivity.
    + vm_compute. in_log.
Defined.

(** Links that never appear: fifteen attempts, then the timeout. *)
Lemma readiness_polling_bounded_witness :
  let w := posix_world 20 two_files (Completed 0) [] None in
  ∃ code s,
    run_script w (tool_args None None) = (code, s)
    ∧ attempts (trace s) = 15%nat
    ∧ code = 1
    ∧ ∃ pre post sa sb,
        trace s
        = pre ++ [EvPrint (MsgPtyNotReady sa sb
                     (readiness_after w max_pty_wait_seconds 0 None None).1
                     (readiness_after w max_pty_wait_seconds 0 None None).2
                     max_pty_wait_seconds max_pty_wait_seconds);
                  EvSleep; EvPrint MsgErrPtyTimeout] ++ post.
Proof.
  cbv zeta. eexists _, _. split; [vm_compute; reflexivity|].
  split; [vm_compute; reflexivity|].
  eapply (proj2 (readiness_polling_bounded (posix_world 20 two_files (Completed 0) [] None))
            (tool_args None None)).
  - vm_compute. reflexivity.
  - vm_compute. in_log.
  - reflexivity.
  - intros ep i e Hres. discriminate Hres.
  - vm_compute. intros [[x Hx] _]. discriminate Hx.
Defined.

(** Two COM ports supplied: no socat, no polling. *)
Lemma explicit_ports_skip_loopback_witness :
  let w := posix_world 0 two_files (Completed 0) [] None in
  let a := tool_args (Some "COM1") (Some "COM2") in
  ∃ code s,
    run_script w a = (code, s)
    ∧ pt_socat (procs s) = None
    ∧ (∀ argv, EvPopen Socat argv ∉ trace s)
    ∧ attempts (trace s) = 0%nat
    ∧ port_for_recv s = Some "COM1"
    ∧ port_for_send s = Some "COM2"
    ∧ (∀ argv, EvPopen Receiver argv ∈ trace s → argv !! 1%nat = Some "COM1")
    ∧ (∀ argv, EvPopen Sender argv ∈ trace s → argv !! 1%nat = Some "COM2").
Proof.
  cbv zeta. eexists _, _. split; [vm_compute; reflexivity|].
  eapply (explicit_ports_skip_loopback
            (posix_world 0 two_files (Completed 0) [] None)
            (tool_args (Some "COM1") (Some "COM2"))).
  - vm_compute. reflexivity.
  - reflexivity.
  - reflexivity.
Defined.

(** [oasis_send] cannot be found: the run stops at the report. *)
Lemma resolver_order_and_early_failure_witness :
  let w := without_tool "oasis_send"
             (posix_world 0 two_files (Completed 0) [] None) in
  (check_command w "oasis_recv" "oasis_recv" (initial_state w)).1
  = Return "/usr/bin/oasis_recv"
  ∧ (check_command w "oasis_send" "oasis_send" (initial_state w)).1
    = Raise (SystemExit 1)
  ∧ ∃ code s,
      run_script w (tool_args None None) = (code, s)
      ∧ (∃ pre e', trace s = pre ++ [e'] ∧ is_resolver_error e' = true)
      ∧ session s = w_initial_session w
      ∧ temp_base_dir_path s = None
      ∧ procs s = procs (initial_state w)
      ∧ (∀ e'', e'' ∈ trace s →
                emitted_by StPorts e'' || emitted_by StTools e'' = true).
Proof.
  cbv zeta.
  pose proof (resolver_order_and_early_failure
                (without_tool "oasis_send"
                   (posix_world 0 two_files (Completed 0) [] None)))
    as [Hcall Hrun].
  split; [|split].
  - destruct (Hcall "oasis_recv" "oasis_recv"
                      (initial_state (without_tool "oasis_send"
                         (posix_world 0 two_files (Completed 0) [] None)))
                      eq_refl) as (Hfound & _ & _).
    apply (Hfound "/usr/bin/oasis_recv"); [reflexivity | discriminate].
  - destruct (Hcall "oasis_send" "oasis_send"
                      (initial_state (without_tool "oasis_send"
                         (posix_world 0 two_files (Completed 0) [] None)))
                      eq_refl) as (_ & Hdirect & _).
    apply Hdirect. reflexivity.
  - eexists _, _. split; [vm_compute; reflexivity|].
    eapply (Hrun (tool_args None None) _ _
                 (EvPrint (MsgErrCommandNotFound "oasis_send" "oasis_send"))).
    + vm_compute. reflexivity.
    + vm_compute. in_log.
    + reflexivity.
Defined.

(* ===================================================================== *)
(** ** More properties of compare_md5.py *)
(* ===================================================================== *)

Import Report.

(** *** The order on file names *)

Lemma ascii_compare_trans a b c o :
  Ascii.compare a b = o → Ascii.compare b c = o → Ascii.compare a c = o.
Proof.
  unfold Ascii.compare. intros Hab Hbc. destruct o.
  - apply N.compare_eq_iff in Hab, Hbc. apply N.compare_eq_iff. congruence.
  - exact (N.lt_trans _ _ _ Hab Hbc).
  - change (N_of_ascii a > N_of_ascii b)%N in Hab.
    change (N_of_ascii b > N_of_ascii c)%N in Hbc.
    change (N_of_ascii a > N_of_ascii c)%N. lia.
Qed.

Lemma string_compare_trans s1 : ∀ s2 s3 o,
  String.compare s1 s2 = o → String.compare s2 s3 = o → String.compare s1 s3 = o.
Proof.
  induction s1 as [|a s1 IH]; intros [|b s2] [|c s3] o; cbn; try congruence.
  destruct (Ascii.compare a b) eqn:Hab, (Ascii.compare b c) eqn:Hbc;
    try (intros; congruence).
  - apply Ascii.compare_eq_iff in Hab as ->. rewrite Hbc.
    apply Ascii.compare_eq_iff in Hbc as ->. apply IH.
  - apply Ascii.compare_eq_iff in Hab as ->. by rewrite Hbc.
  - apply Ascii.compare_eq_iff in Hab as ->. by rewrite Hbc.
  - apply Ascii.compare_eq_iff in Hbc as ->. by rewrite Hab.
  - by rewrite (ascii_compare_trans _ _ _ _ Hab Hbc).
  - apply Ascii.compare_eq_iff in Hbc as ->. by rewrite Hab.
  - by rewrite (ascii_compare_trans _ _ _ _ Hab Hbc).
Qed.

Lemma str_le_trans : Transitive CompareMd5.str_le.
Proof.
  intros s1 s2 s3. unfold CompareMd5.str_le, String.leb.
  destruct (String.compare s1 s2) eqn:H12; [| |done];
    destruct (String.compare s2 s3) eqn:H23; try done; intros _ _.
  - by rewrite (string_compare_trans _ _ _ _ H12 H23).
  - apply String.compare_eq_iff in H12 as ->. by rewrite H23.
  - apply String.compare_eq_iff in H23 as ->. by rewrite H12.
  - by rewrite (string_compare_trans _ _ _ _ H12 H23).
Qed.

Lemma str_le_total : Total CompareMd5.str_le.
Proof. intros s1 s2. apply String.leb_total. Qed.

Section CompareMd5More.
Import Py CompareMd5.
Context {H : Hashlib}.
Variable fs : filesystem.

Lemma sorted_strongly (l : list string) : StronglySorted str_le (sorted l).
Proof.
  apply StronglySorted_merge_sort; [apply str_le_trans|apply str_le_total].
Qed.

Lemma sorted_NoDup (l : list string) : NoDup l → NoDup (sorted l).
Proof. unfold sorted. by rewrite merge_sort_Permutation. Qed.

Lemma compare_directories_returns dir1 dir2 names1 names2 :
  isdir fs dir1 = true → isdir fs dir2 = true →
  listdir fs dir1 = Return names1 → listdir fs dir2 = Return names2 →
  ∃ c out, compare_directories fs dir1 dir2 = (Return c, out).
Proof.
  intros Hd1 Hd2 Hl1 Hl2. unfold compare_directories.
  rewrite Hd1, Hd2, Hl1, Hl2. cbn [negb].
  case_decide; [by eauto|].
  match goal with |- context [compare_loop ?fs ?a ?b ?l ?t] =>
    destruct (compare_loop_spec fs a b l t) as [o ->] end.
  by eauto.
Qed.

(** X1. The comparison tool exits with status 0 exactly when both
    arguments are directories and both can be listed, whatever the
    comparison of their files finds; in every other case it exits with
    status 1. Listing a directory is taken to raise nothing but ordinary
    exceptions. *)
Theorem main_exit_status dir1 dir2 :
  (∀ d e, listdir fs d = Raise e → isinstance e CException = true) →
  (main fs dir1 dir2).1
  = match listdir fs dir1, listdir fs dir2 with
    | Return _, Return _ => if isdir fs dir1 && isdir fs dir2 then 0 else 1
    | _, _ => 1
    end.
Proof.
  intros Hexn. unfold main.
  destruct (isdir fs dir1) eqn:Hd1.
  2:{ unfold compare_directories. rewrite Hd1. cbn.
      by destruct (listdir fs dir1), (listdir fs dir2). }
  destruct (isdir fs dir2) eqn:Hd2.
  2:{ unfold compare_directories. rewrite Hd1, Hd2. cbn.
      by destruct (listdir fs dir1), (listdir fs dir2). }
  destruct (listdir fs dir1) as [names1|e1] eqn:Hl1.
  2:{ unfold compare_directories. rewrite Hd1, Hd2, Hl1. cbn [negb].
      pose proof (Hexn _ _ Hl1). by destruct e1. }
  destruct (listdir fs dir2) as [names2|e2] eqn:Hl2.
  2:{ unfold compare_directories. rewrite Hd1, Hd2, Hl1, Hl2. cbn [negb].
      pose proof (Hexn _ _ Hl2). by destruct e2. }
  destruct (compare_directories_returns _ _ _ _ Hd1 Hd2 Hl1 Hl2) as (c & out & ->).
  done.
Qed.

Lemma filter_verdict_disjoint dir1 dir2 v1 v2 (l : list string) f :
  v1 ≠ v2 →
  f ∈ filter (fun f => has_verdict fs dir1 dir2 v1 f = true) l →
  f ∉ filter (fun f => has_verdict fs dir1 dir2 v2 f = true) l.
Proof.
  intros Hne. rewrite !list_elem_of_filter. unfold has_verdict.
  destruct (verdict_of fs dir1 dir2 f), v1, v2; naive_solver.
Qed.

(** X2. Whenever [compare_directories] returns, its three result lists
    (matched, mismatched, error) hold exactly the names that are listed
    in both directories and are regular files in both, each exactly
    once: no name is twice in a list or in two lists. *)
Theorem verdict_lists_partition dir1 dir2 c out :
  compare_directories fs dir1 dir2 = (Return c, out) →
  NoDup (matched_files c ++ mismatched_files c ++ error_files c)
  ∧ ∃ names1 names2,
      listdir fs dir1 = Return names1 ∧ listdir fs dir2 = Return names2
      ∧ ∀ f, f ∈ matched_files c ++ mismatched_files c ++ error_files c
             ↔ (f ∈ names1 ∧ isfile fs (path_join dir1 f) = true)
               ∧ (f ∈ names2 ∧ isfile fs (path_join dir2 f) = true).
Proof.
  intros Hret.
  destruct (common_files_in_both fs _ _ _ _ Hret)
    as (names1 & names2 & Hl1 & Hl2 & Hcommon).
  destruct (compare_directories_spec fs _ _ _ _ Hret)
    as (? & ? & _ & _ & _ & _ & _ & Hm & Hx & He).
  rewrite Hm, Hx, He. clear Hm Hx He.
  set (L := sorted (elements (common_files c))).
  assert (NoDup L) as HL by (apply sorted_NoDup, NoDup_elements).
  split.
  - apply NoDup_app. split; [by apply NoDup_filter|]. split.
    + intros f Hm. rewrite elem_of_app. intros [Hx|Hx];
        by eapply filter_verdict_disjoint in Hm.
    + apply NoDup_app. split; [by apply NoDup_filter|]. split.
      * intros f Hm Hx. by eapply filter_verdict_disjoint in Hm.
      * by apply NoDup_filter.
  - exists names1, names2. split; [done|]. split; [done|].
    intros f. rewrite <- Hcommon.
    rewrite !elem_of_app, !list_elem_of_filter.
    subst L. rewrite sorted_elem_of, elem_of_elements.
    destruct (has_verdict_cases fs dir1 dir2 f)
      as [(-> & -> & ->)|[(-> & -> & ->)|(-> & -> & ->)]]; naive_solver.
Qed.

Lemma digest_of_result filepath :
  (calculate_md5 fs filepath default_chunk_size).1 = Return (digest_of fs filepath).
Proof. by destruct (calculate_md5_digest fs filepath) as [o ->]. Qed.

(** X3. A common file is in the matched list exactly when
    [calculate_md5] gave the same digest for both sides, in the
    mismatched list exactly when it gave two different digests, and in
    the error list exactly when it gave [None] for one side at least. *)
Theorem verdicts_follow_digests dir1 dir2 c out f :
  compare_directories fs dir1 dir2 = (Return c, out) →
  f ∈ common_files c →
  let md5_1 := (calculate_md5 fs (path_join dir1 f) default_chunk_size).1 in
  let md5_2 := (calculate_md5 fs (path_join dir2 f) default_chunk_size).1 in
  (f ∈ matched_files c
   ↔ ∃ h, md5_1 = Return (Some h) ∧ md5_2 = Return (Some h))
  ∧ (f ∈ mismatched_files c
     ↔ ∃ h1 h2, md5_1 = Return (Some h1) ∧ md5_2 = Return (Some h2) ∧ h1 ≠ h2)
  ∧ (f ∈ error_files c ↔ md5_1 = Return None ∨ md5_2 = Return None).
Proof.
  intros Hret Hin. cbv zeta. rewrite !digest_of_result.
  destruct (compare_directories_spec fs _ _ _ _ Hret)
    as (names1 & names2 & _ & _ & _ & _ & _ & -> & -> & ->).
  rewrite !list_elem_of_filter, !sorted_elem_of, !elem_of_elements.
  unfold has_verdict, verdict_of.
  destruct (digest_of fs (path_join dir1 f)) as [h1|];
    destruct (digest_of fs (path_join dir2 f)) as [h2|];
    try destruct (String.eqb_spec h1 h2); naive_solver.
Qed.

(** X4. A common file whose bytes are the same on both sides is
    reported as matched; a file reported as mismatched could be read on
    both sides and its bytes differ; a file is reported as an error
    exactly when it could not be opened on one side at least. *)
Theorem verdicts_follow_content dir1 dir2 c out f :
  compare_directories fs dir1 dir2 = (Return c, out) →
  f ∈ common_files c →
  (∀ data, open_rb fs (path_join dir1 f) = inl data →
           open_rb fs (path_join dir2 f) = inl data →
           f ∈ matched_files c)
  ∧ (f ∈ mismatched_files c →
     ∃ data1 data2, open_rb fs (path_join dir1 f) = inl data1
                    ∧ open_rb fs (path_join dir2 f) = inl data2
                    ∧ data1 ≠ data2)
  ∧ (f ∈ error_files c
     ↔ (∃ err, open_rb fs (path_join dir1 f) = inr err)
       ∨ (∃ err, open_rb fs (path_join dir2 f) = inr err)).
Proof.
  intros Hret Hin.
  destruct (compare_directories_spec fs _ _ _ _ Hret)
    as (names1 & names2 & _ & _ & _ & _ & _ & -> & -> & ->).
  assert (∀ v, f ∈ filter (fun f => has_verdict fs dir1 dir2 v f = true)
                        (sorted (elements (common_files c)))
               ↔ has_verdict fs dir1 dir2 v f = true) as Hmem.
  { intros v. rewrite list_elem_of_filter, sorted_elem_of, elem_of_elements.
    naive_solver. }
  split; [|split].
  - intros data H1 H2. apply Hmem. unfold has_verdict, verdict_of, digest_of.
    by rewrite H1, H2, String.eqb_refl.
  - intros Hv. apply Hmem in Hv. revert Hv.
    unfold has_verdict, verdict_of, digest_of.
    destruct (open_rb fs (path_join dir1 f)) as [d1|e1]; [|done].
    destruct (open_rb fs (path_join dir2 f)) as [d2|e2]; [|done].
    intros Hv. exists d1, d2. split; [done|]. split; [done|].
    intros ->. by rewrite String.eqb_refl in Hv.
  - rewrite (Hmem VError). unfold has_verdict, verdict_of, digest_of.
    destruct (open_rb fs (path_join dir1 f)) as [d1|e1];
      destruct (open_rb fs (path_join dir2 f)) as [d2|e2];
      try destruct (String.eqb _ _); naive_solver.
Qed.

(** *** The order of the report *)

Lemma compared_app out1 out2 : compared (out1 ++ out2) = compared out1 ++ compared out2.
Proof. apply omap_app. Qed.

Lemma compared_cons l out :
  compared (l :: out)
  = (if l is OutComparing f then [f] else []) ++ compared out.
Proof. by destruct l. Qed.

Lemma compared_items (l : list string) : compared (map OutItem l) = [].
Proof. by induction l. Qed.

Lemma compared_calculate_md5 filepath chunk_size :
  compared (calculate_md5 fs filepath chunk_size).2 = [].
Proof.
  unfold calculate_md5. by destruct (open_rb fs filepath) as [data|[]].
Qed.

Lemma compared_compare_file dir1 dir2 filename t :
  compared (compare_file fs dir1 dir2 filename t).2 = [filename].
Proof.
  unfold compare_file.
  pose proof (compared_calculate_md5 (path_join dir1 filename) default_chunk_size) as H1.
  pose proof (compared_calculate_md5 (path_join dir2 filename) default_chunk_size) as H2.
  destruct (calculate_md5 fs (path_join dir1 filename) default_chunk_size)
    as [[md5_1|e1] o1]; cbn [snd] in *.
  2:{ by rewrite compared_app, H1. }
  destruct (calculate_md5 fs (path_join dir2 filename) default_chunk_size)
    as [[md5_2|e2] o2]; cbn [snd] in *.
  2:{ by rewrite !compared_app, H1, H2. }
  destruct md5_1 as [h1|], md5_2 as [h2|]; try destruct (String.eqb h1 h2);
    cbn [snd]; by rewrite !compared_app, H1, H2.
Qed.

Lemma compared_compare_loop dir1 dir2 files : ∀ t r out,
  compare_loop fs dir1 dir2 files t = (Return r, out) → compared out = files.
Proof.
  induction files as [|f files IH]; intros t r out; cbn [compare_loop].
  - by intros [= <- <-].
  - pose proof (compared_compare_file dir1 dir2 f t) as Hf.
    destruct (compare_file fs dir1 dir2 f t) as [[t'|e] o]; [|done].
    destruct (compare_loop fs dir1 dir2 files t') as [r' o'] eqn:Hloop.
    intros [= -> <-]. rewrite compared_app. cbn [snd] in Hf.
    by rewrite Hf, (IH _ _ _ Hloop).
Qed.

Lemma compared_summary dir1 dir2 c : compared (summary fs dir1 dir2 c) = [].
Proof.
  unfold summary. rewrite !compared_app.
  repeat case_match; by rewrite ?compared_cons, ?compared_items.
Qed.

Lemma StronglySorted_filter (P : string → Prop) `{!∀ x, Decision (P x)} l :
  StronglySorted str_le l → StronglySorted str_le (filter P l).
Proof.
  induction 1 as [|x l Hl IH Hx]; [constructor|].
  rewrite filter_cons. case_decide; [|done].
  constructor; [done|].
  rewrite Forall_forall in Hx |- *. intros y Hy.
  apply Hx. by apply list_elem_of_filter in Hy as [_ ?].
Qed.

(** X5. The report has one [Comparing] line for every common file, in
    ascending order of the file names, and the matched, mismatched and
    error lists are each in ascending order too. *)
Theorem report_in_ascending_order dir1 dir2 c out :
  compare_directories fs dir1 dir2 = (Return c, out) →
  compared out = sorted (elements (common_files c))
  ∧ compared out ≡ₚ elements (common_files c)
  ∧ StronglySorted str_le (compared out)
  ∧ StronglySorted str_le (matched_files c)
  ∧ StronglySorted str_le (mismatched_files c)
  ∧ StronglySorted str_le (error_files c).
Proof.
  intros Hret.
  assert (compared out = sorted (elements (common_files c))) as ->.
  { revert Hret. unfold compare_directories.
    destruct (isdir fs dir1); [|done]. destruct (isdir fs dir2); [|done].
    cbn [negb].
    destruct (listdir fs dir1) as [names1|e1]; [|by destruct (isinstance e1 _)].
    destruct (listdir fs dir2) as [names2|e2]; [|by destruct (isinstance e2 _)].
    case_decide as Hempty.
    - intros [= <- <-]. cbn [common_files]. rewrite Hempty, elements_empty.
      by rewrite !compared_cons, compared_summary.
    - match goal with |- context [compare_loop ?fs ?a ?b ?l ?t] =>
        destruct (compare_loop fs a b l t) as [[t'|e] o] eqn:Hloop end; [|done].
      intros [= <- <-]. cbn [common_files].
      rewrite !compared_cons, compared_app, compared_summary.
      rewrite (compared_compare_loop _ _ _ _ _ _ Hloop).
      by rewrite app_nil_r. }
  destruct (compare_directories_spec fs _ _ _ _ Hret)
    as (names1 & names2 & _ & _ & _ & _ & _ & -> & -> & ->).
  split; [done|]. split; [apply merge_sort_Permutation|].
  split; [apply sorted_strongly|].
  repeat split; apply StronglySorted_filter, sorted_strongly.
Qed.

(** *** Symmetry *)

Lemma verdict_of_sym dir1 dir2 f :
  verdict_of fs dir2 dir1 f = verdict_of fs dir1 dir2 f.
Proof.
  unfold verdict_of.
  destruct (digest_of fs (path_join dir1 f)) as [h1|],
           (digest_of fs (path_join dir2 f)) as [h2|]; try done.
  by rewrite String.eqb_sym.
Qed.

Lemma filter_verdict_sym dir1 dir2 v (l : list string) :
  filter (fun f => has_verdict fs dir2 dir1 v f = true) l
  = filter (fun f => has_verdict fs dir1 dir2 v f = true) l.
Proof.
  apply list_filter_iff. intros f. unfold has_verdict.
  by rewrite verdict_of_sym.
Qed.

(** X6. Comparing the two directories the other way round gives the same
    common files and the same matched, mismatched and error lists; only
    the two sets of files found on one side are swapped. *)
Theorem compare_directories_symmetric dir1 dir2 c out :
  compare_directories fs dir1 dir2 = (Return c, out) →
  ∃ c' out',
    compare_directories fs dir2 dir1 = (Return c', out')
    ∧ common_files c' = common_files c
    ∧ files_only_in_dir1 c' = files_only_in_dir2 c
    ∧ files_only_in_dir2 c' = files_only_in_dir1 c
    ∧ matched_files c' = matched_files c
    ∧ mismatched_files c' = mismatched_files c
    ∧ error_files c' = error_files c.
Proof.
  intros Hret.
  assert (isdir fs dir1 = true ∧ isdir fs dir2 = true) as [Hd1 Hd2].
  { revert Hret. unfold compare_directories.
    destruct (isdir fs dir1); [|done]. by destruct (isdir fs dir2). }
  destruct (compare_directories_spec fs _ _ _ _ Hret)
    as (names1 & names2 & Hl1 & Hl2 & Hc & Ho1 & Ho2 & Hm & Hx & He).
  destruct (compare_directories_returns _ _ _ _ Hd2 Hd1 Hl2 Hl1)
    as (c' & out' & Hret').
  exists c', out'. split; [done|].
  destruct (compare_directories_spec fs _ _ _ _ Hret')
    as (names2' & names1' & Hl2' & Hl1' & Hc' & Ho1' & Ho2' & Hm' & Hx' & He').
  assert (names1' = names1) as -> by congruence.
  assert (names2' = names2) as -> by congruence.
  assert (common_files c' = common_files c) as Hcc.
  { rewrite Hc, Hc'. apply (comm_L (∩)). }
  split; [done|]. split; [congruence|]. split; [congruence|].
  rewrite Hm', Hx', He', Hcc, !(filter_verdict_sym dir1 dir2). by rewrite Hm, Hx, He.
Qed.

(** X7. A directory compared with itself has no mismatched file and no
    file on one side only; of the regular files listed in it, those that
    can be opened are exactly the matched ones, and those that cannot are
    exactly the errors. *)
Theorem compare_directories_same dir c out :
  compare_directories fs dir dir = (Return c, out) →
  mismatched_files c = []
  ∧ files_only_in_dir1 c = ∅
  ∧ files_only_in_dir2 c = ∅
  ∧ ∃ names,
      listdir fs dir = Return names
      ∧ ∀ f,
          (f ∈ matched_files c
           ↔ f ∈ names ∧ isfile fs (path_join dir f) = true
             ∧ ∃ data, open_rb fs (path_join dir f) = inl data)
          ∧ (f ∈ error_files c
             ↔ f ∈ names ∧ isfile fs (path_join dir f) = true
               ∧ ∃ err, open_rb fs (path_join dir f) = inr err).
Proof.
  intros Hret.
  destruct (common_files_in_both fs _ _ _ _ Hret)
    as (names & names' & Hl & Hl' & Hcommon).
  assert (names' = names) as -> by congruence.
  destruct (compare_directories_spec fs _ _ _ _ Hret)
    as (names1 & names2 & Hl1 & Hl2 & Hc & -> & -> & -> & -> & ->).
  assert (names2 = names1) as -> by congruence.
  split; [|split; [|split]].
  - induction (sorted (elements (common_files c))) as [|f l IH]; [done|].
    rewrite filter_cons, IH. case_decide as Hv; [|done].
    revert Hv. unfold has_verdict, verdict_of.
    destruct (digest_of fs (path_join dir f)) as [h|]; [|done].
    by rewrite String.eqb_refl.
  - set_solver.
  - set_solver.
  - exists names. split; [done|]. intros f.
    rewrite !list_elem_of_filter, !sorted_elem_of, !elem_of_elements, !Hcommon.
    unfold has_verdict, verdict_of, digest_of.
    destruct (open_rb fs (path_join dir f)) as [data|err].
    + rewrite String.eqb_refl. naive_solver.
    + naive_solver.
Qed.

(** *** Chunking *)

Lemma read_chunks_whole chunk_size fuel data h :
  (∀ h a b, md5_update (md5_update h a) b = md5_update h (a ++ b)) →
  (0 < chunk_size)%nat → (length data ≤ fuel)%nat →
  read_chunks fuel chunk_size data h
  = if data is [] then h else md5_update h data.
Proof.
  intros Hstream Hpos. revert data h.
  induction fuel as [|fuel IH]; intros data h Hlen.
  - by destruct data; [|simpl in Hlen; lia].
  - destruct data as [|b data]; [by destruct chunk_size|].
    cbn [read_chunks].
    destruct chunk_size as [|n]; [lia|].
    cbn [take drop]. rewrite IH.
    2:{ rewrite length_drop. simpl in Hlen. lia. }
    destruct (drop n data) as [|b' rest] eqn:Hdrop.
    + rewrite <- (take_drop n data) at 2. by rewrite Hdrop, app_nil_r.
    + rewrite Hstream. rewrite <- Hdrop.
      by rewrite <- app_comm_cons, take_drop.
Qed.

(** X8. For a streaming digest (feeding two chunks is feeding their
    concatenation, as MD5 is), the result of [calculate_md5] does not
    depend on the chunk size as long as it is positive: it is the digest
    of the whole content. With a chunk size of 0 nothing is read, and the
    result is the digest of the empty input. *)
Theorem calculate_md5_chunk_size filepath :
  (∀ h a b, md5_update (md5_update h a) b = md5_update h (a ++ b)) →
  (∀ n m, (0 < n)%nat → (0 < m)%nat →
          calculate_md5 fs filepath n = calculate_md5 fs filepath m)
  ∧ (∀ data, open_rb fs filepath = inl data →
             (∀ n, (0 < n)%nat →
                   (calculate_md5 fs filepath n).1
                   = Return (Some (md5_hexdigest
                                     (if data is [] then md5_new
                                      else md5_update md5_new data))))
             ∧ (calculate_md5 fs filepath 0).1
               = Return (Some (md5_hexdigest md5_new))).
Proof.
  intros Hstream. split.
  - intros n m Hn Hm. unfold calculate_md5.
    destruct (open_rb fs filepath) as [data|err]; [|done].
    by rewrite !read_chunks_whole.
  - intros data Hopen. unfold calculate_md5. rewrite Hopen. split.
    + intros n Hn. by rewrite read_chunks_whole.
    + cbn [fst]. by destruct data.
Qed.

End CompareMd5More.

(** *** The example directories *)

(** Listing one of the example directories raises nothing but
    [FileNotFoundError]; both exist, so the tool exits with 0. *)
Lemma main_exit_status_witness :
  (∀ d e, CompareMd5.listdir Examples.two_dirs d = Py.Raise e →
          Py.isinstance e Py.CException = true)
  ∧ (CompareMd5.main (H:=Examples.toy_hash) Examples.two_dirs "src" "dst").1 = 0.
Proof.
  assert (∀ d e, CompareMd5.listdir Examples.two_dirs d = Py.Raise e →
                 Py.isinstance e Py.CException = true) as Hexn.
  { intros d e. cbn. repeat case_match; intros Heq; by simplify_eq. }
  split; [exact Hexn|].
  exact (main_exit_status (H:=Examples.toy_hash) Examples.two_dirs "src" "dst" Hexn).
Defined.

(** The three common files of the example, one in each list; [sub] is
    listed on both sides but is not a regular file, [D.ONLY] and [E.NEW]
    are on one side only. *)
Lemma verdict_lists_partition_witness :
  ∃ c out,
    CompareMd5.compare_directories (H:=Examples.toy_hash) Examples.two_dirs "src" "dst"
    = (Py.Return c, out)
    ∧ CompareMd5.matched_files c = ["A.TXT"]
    ∧ CompareMd5.mismatched_files c = ["B.BIN"]
    ∧ CompareMd5.error_files c = ["C.DAT"]
    ∧ NoDup (CompareMd5.matched_files c ++ CompareMd5.mismatched_files c
             ++ CompareMd5.error_files c)
    ∧ ∃ names1 names2,
        CompareMd5.listdir Examples.two_dirs "src" = Py.Return names1
        ∧ CompareMd5.listdir Examples.two_dirs "dst" = Py.Return names2
        ∧ ∀ f, f ∈ CompareMd5.matched_files c ++ CompareMd5.mismatched_files c
                   ++ CompareMd5.error_files c
               ↔ (f ∈ names1
                  ∧ CompareMd5.isfile Examples.two_dirs (Py.path_join "src" f) = true)
                 ∧ (f ∈ names2
                    ∧ CompareMd5.isfile Examples.two_dirs (Py.path_join "dst" f) = true).
Proof.
  eexists _, _. split; [vm_compute; reflexivity|].
  split; [vm_compute; reflexivity|].
  split; [vm_compute; reflexivity|].
  split; [vm_compute; reflexivity|].
  refine (verdict_lists_partition (H:=Examples.toy_hash)
            Examples.two_dirs "src" "dst" _ _ _).
  vm_compute. reflexivity.
Defined.

(** [B.BIN] has two different digests. *)
Lemma verdicts_follow_digests_witness :
  ∃ c out,
    CompareMd5.compare_directories (H:=Examples.toy_hash) Examples.two_dirs "src" "dst"
    = (Py.Return c, out)
    ∧ "B.BIN" ∈ CompareMd5.common_files c
    ∧ ("B.BIN" ∈ CompareMd5.mismatched_files c
       ↔ ∃ h1 h2,
           (CompareMd5.calculate_md5 (H:=Examples.toy_hash) Examples.two_dirs
              (Py.path_join "src" "B.BIN") CompareMd5.default_chunk_size).1
           = Py.Return (Some h1)
           ∧ (CompareMd5.calculate_md5 (H:=Examples.toy_hash) Examples.two_dirs
                (Py.path_join "dst" "B.BIN") CompareMd5.default_chunk_size).1
             = Py.Return (Some h2)
           ∧ h1 ≠ h2).
Proof.
  eexists _, _. split; [vm_compute; reflexivity|].
  split; [apply (bool_decide_unpack _); vm_compute; exact I|].
  refine (proj1 (proj2 (verdicts_follow_digests (H:=Examples.toy_hash)
                          Examples.two_dirs "src" "dst" _ _ "B.BIN" _ _))).
  - vm_compute. reflexivity.
  - apply (bool_decide_unpack _). vm_compute. exact I.
Defined.

(** [A.TXT] has the same bytes on both sides. *)
Lemma verdicts_follow_content_witness :
  ∃ c out,
    CompareMd5.compare_directories (H:=Examples.toy_hash) Examples.two_dirs "src" "dst"
    = (Py.Return c, out)
    ∧ "A.TXT" ∈ CompareMd5.common_files c
    ∧ ∀ data,
        CompareMd5.open_rb Examples.two_dirs (Py.path_join "src" "A.TXT") = inl data →
        CompareMd5.open_rb Examples.two_dirs (Py.path_join "dst" "A.TXT") = inl data →
        "A.TXT" ∈ CompareMd5.matched_files c.
Proof.
  eexists _, _. split; [vm_compute; reflexivity|].
  split; [apply (bool_decide_unpack _); vm_compute; exact I|].
  refine (proj1 (verdicts_follow_content (H:=Examples.toy_hash)
                   Examples.two_dirs "src" "dst" _ _ "A.TXT" _ _)).
  - vm_compute. reflexivity.
  - apply (bool_decide_unpack _). vm_compute. exact I.
Defined.

(** The report of the example names the common files in ascending order. *)
Lemma report_in_ascending_order_witness :
  ∃ c out,
    CompareMd5.compare_directories (H:=Examples.toy_hash) Examples.two_dirs "src" "dst"
    = (Py.Return c, out)
    ∧ compared out = ["A.TXT"; "B.BIN"; "C.DAT"]
    ∧ compared out = CompareMd5.sorted (elements (CompareMd5.common_files c)).
Proof.
  eexists _, _. split; [vm_compute; reflexivity|].
  split; [vm_compute; reflexivity|].
  refine (proj1 (report_in_ascending_order (H:=Examples.toy_hash)
                   Examples.two_dirs "src" "dst" _ _ _)).
  vm_compute. reflexivity.
Defined.

(** The example directories the other way round. *)
Lemma compare_directories_symmetric_witness :
  ∃ c out,
    CompareMd5.compare_directories (H:=Examples.toy_hash) Examples.two_dirs "src" "dst"
    = (Py.Return c, out)
    ∧ ∃ c' out',
        CompareMd5.compare_directories (H:=Examples.toy_hash) Examples.two_dirs "dst" "src"
        = (Py.Return c', out')
        ∧ CompareMd5.common_files c' = CompareMd5.common_files c
        ∧ CompareMd5.files_only_in_dir1 c' = CompareMd5.files_only_in_dir2 c
        ∧ CompareMd5.files_only_in_dir2 c' = CompareMd5.files_only_in_dir1 c
        ∧ CompareMd5.matched_files c' = CompareMd5.matched_files c
        ∧ CompareMd5.mismatched_files c' = CompareMd5.mismatched_files c
        ∧ CompareMd5.error_files c' = CompareMd5.error_files c.
Proof.
  eexists _, _. split; [vm_compute; reflexivity|].
  refine (compare_directories_symmetric (H:=Examples.toy_hash)
            Examples.two_dirs "src" "dst" _ _ _).
  vm_compute. reflexivity.
Defined.

(** [src] compared with itself: nothing differs; three of its four
    regular files can be opened and are matched, [D.ONLY] cannot and is an
    error. *)
Lemma compare_directories_same_witness :
  ∃ c out,
    CompareMd5.compare_directories (H:=Examples.toy_hash) Examples.two_dirs "src" "src"
    = (Py.Return c, out)
    ∧ CompareMd5.matched_files c = ["A.TXT"; "B.BIN"; "C.DAT"]
    ∧ CompareMd5.error_files c = ["D.ONLY"]
    ∧ CompareMd5.mismatched_files c = []
    ∧ CompareMd5.files_only_in_dir1 c = ∅
    ∧ CompareMd5.files_only_in_dir2 c = ∅
    ∧ ∃ names,
        CompareMd5.listdir Examples.two_dirs "src" = Py.Return names
        ∧ ∀ f,
            (f ∈ CompareMd5.matched_files c
             ↔ f ∈ names
               ∧ CompareMd5.isfile Examples.two_dirs (Py.path_join "src" f) = true
               ∧ ∃ data,
                   CompareMd5.open_rb Examples.two_dirs (Py.path_join "src" f)
                   = inl data)
            ∧ (f ∈ CompareMd5.error_files c
               ↔ f ∈ names
                 ∧ CompareMd5.isfile Examples.two_dirs (Py.path_join "src" f) = true
                 ∧ ∃ err,
                     CompareMd5.open_rb Examples.two_dirs (Py.path_join "src" f)
                     = inr err).
Proof.
  eexists _, _. split; [vm_compute; reflexivity|].
  split; [vm_compute; reflexivity|].
  split; [vm_compute; reflexivity|].
  refine (compare_directories_same (H:=Examples.toy_hash)
            Examples.two_dirs "src" _ _ _).
  vm_compute. reflexivity.
Defined.

(** The stand-in digest is a streaming digest; [A.TXT] read one byte at a
    time or all at once has the same digest. *)
Lemma calculate_md5_chunk_size_witness :
  (∀ (h : CompareMd5.hstate (Hashlib:=Examples.toy_hash)) a b,
      CompareMd5.md5_update (CompareMd5.md5_update h a) b
      = CompareMd5.md5_update h (a ++ b))
  ∧ CompareMd5.calculate_md5 (H:=Examples.toy_hash) Examples.two_dirs "src/A.TXT" 1
    = CompareMd5.calculate_md5 (H:=Examples.toy_hash) Examples.two_dirs "src/A.TXT" 4096.
Proof.
  assert (∀ (h : CompareMd5.hstate (Hashlib:=Examples.toy_hash)) a b,
             CompareMd5.md5_update (CompareMd5.md5_update h a) b
             = CompareMd5.md5_update h (a ++ b)) as Hstream.
  { intros h a b. cbn. symmetry. apply app_assoc. }
  split; [exact Hstream|].
  apply (proj1 (calculate_md5_chunk_size (H:=Examples.toy_hash)
                  Examples.two_dirs "src/A.TXT" Hstream)); lia.
Defined.

(* ===================================================================== *)
(** ** Properties of oasis_check_imd.py *)
(* ===================================================================== *)

Section CheckImdFacts.
Import Py CheckImd.
Variable h : host.

Lemma commands_app log1 log2 : commands (log1 ++ log2) = commands log1 ++ commands log2.
Proof. apply omap_app. Qed.

(** What [run_oasis_chkdsk] returns when the checker raises nothing but
    ordinary exceptions. *)
Lemma run_oasis_chkdsk_returns a imd_file :
  run_raises_exceptions h →
  ∃ stdout stderr o,
    run_oasis_chkdsk h (chkdsk_path a) imd_file (chkdsk_verbose a)
    = (Return (return_code_of h a imd_file, stdout, stderr), o)
    ∧ commands o = [command_for a imd_file].
Proof.
  intros Hexn. unfold run_oasis_chkdsk, return_code_of.
  fold (command_for a imd_file).
  destruct (h_run h (command_for a imd_file)) as [[[rc out] err]|e] eqn:Hrun.
  - by eauto.
  - pose proof (Hexn _ _ Hrun) as He.
    destruct (isinstance e CFileNotFoundError); [by eauto|].
    rewrite He. by eauto.
Qed.

Lemma check_file_spec a imd_file t :
  run_raises_exceptions h →
  ∃ o,
    check_file h a imd_file t
    = (Return (if failed h a imd_file
               then {| overall_success := false;
                       files_with_errors := S (files_with_errors t) |}
               else t), o)
    ∧ commands o = [command_for a imd_file].
Proof.
  intros Hexn. unfold check_file, failed.
  destruct (run_oasis_chkdsk_returns a imd_file Hexn)
    as (out & err & o & -> & Hcmd).
  destruct (return_code_of h a imd_file =? 0); cbn [negb].
  all: eexists; split; [done|].
  all: rewrite !commands_app, Hcmd.
  all: unfold cprint; by repeat case_match.
Qed.

Lemma check_files_spec a imd_files : ∀ t,
  run_raises_exceptions h →
  ∃ o,
    check_files h a imd_files t
    = (Return {| overall_success :=
                   overall_success t
                   && forallb (fun f => negb (failed h a f)) imd_files;
                 files_with_errors :=
                   files_with_errors t
                   + length (List.filter (failed h a) imd_files) |}, o)
    ∧ commands o = map (command_for a) imd_files.
Proof.
  induction imd_files as [|f files IH]; intros t Hexn; cbn [check_files].
  - exists []. split; [|done]. cbn [forallb List.filter length].
    rewrite andb_true_r, Nat.add_0_r. by destruct t.
  - destruct (check_file_spec a f t Hexn) as (o & -> & Hcmd).
    match goal with |- context [check_files _ _ _ ?t'] =>
      destruct (IH t' Hexn) as (o' & -> & Hcmd') end.
    exists (o ++ o'). split; [|by rewrite commands_app, Hcmd, Hcmd'].
    f_equal. cbn [forallb List.filter map].
    destruct (failed h a f); cbn [negb andb length overall_success files_with_errors].
    + rewrite andb_false_r. do 2 f_equal. lia.
    + done.
Qed.

Lemma commands_import_termcolor : commands (import_termcolor h) = [].
Proof. unfold import_termcolor. by destruct (h_termcolor h). Qed.

Lemma find_imd_files_quiet dir : commands (find_imd_files h dir).2 = [].
Proof. unfold find_imd_files. by destruct (h_isdir h dir). Qed.

Lemma find_imd_files_not_a_directory dir :
  h_isdir h dir = false → (find_imd_files h dir).1 = [].
Proof. unfold find_imd_files. by intros ->. Qed.

(** X9. [oasis_check_imd.py] exits with status 0 exactly when its
    argument is a directory and the checker returned 0 for every image
    found (also when none was found), and with status 1 otherwise; when
    images were found its last line is the summary, with the number of
    images and of those that failed. Running the checker is taken to
    raise nothing but ordinary exceptions. *)
Theorem check_imd_exit_status a :
  run_raises_exceptions h →
  let found := (find_imd_files h (directory a)).1 in
  let all_ok := forallb (fun f => negb (failed h a f)) found in
  (script h a).1 = (if h_isdir h (directory a) && all_ok then 0 else 1)
  ∧ (h_isdir h (directory a) = true → found ≠ [] →
     ∃ pre,
       (script h a).2
       = pre ++ [Printed None TxtSummaryHeader;
                 if all_ok
                 then cprint h (TxtAllOK (length found)) Green
                 else cprint h (TxtReportedErrors
                                  (length (List.filter (failed h a) found))
                                  (length found)) Red]).
Proof.
  intros Hexn. cbv zeta. unfold script, main.
  destruct (h_isdir h (directory a)) eqn:Hdir; cbn [negb andb].
  2:{ split; [done|]. by intros. }
  destruct (find_imd_files h (directory a)) as [found o] eqn:Hfound.
  cbn [fst]. destruct found as [|f found]; [by split|].
  destruct (check_files_spec a (f :: found)
              {| overall_success := true; files_with_errors := 0 |} Hexn)
    as (o' & -> & _).
  cbn [overall_success files_with_errors andb Nat.add].
  destruct (forallb (fun f => negb (failed h a f)) (f :: found)); cbn [fst snd].
  all: split; [done|]; intros _ _; eexists.
  all: rewrite !app_assoc; rewrite <- (app_assoc _ [_] [_]); reflexivity.
Qed.

(** X10. The checker is run exactly once for every image found, in the
    order [find_imd_files] lists them, on the path found, and with [-v]
    exactly when [--chkdsk-verbose] was given; a failing image does not
    stop the loop. *)
Theorem every_file_checked_once a :
  run_raises_exceptions h →
  commands (script h a).2
  = map (command_for a) (find_imd_files h (directory a)).1.
Proof.
  intros Hexn.
  assert (commands (script h a).2 = commands (main h a).2) as ->.
  { unfold script. destruct (main h a) as [[[]|[]] out]; cbn [snd];
      by rewrite commands_app, commands_import_termcolor. }
  unfold main.
  destruct (h_isdir h (directory a)) eqn:Hdir; cbn [negb].
  2:{ by rewrite find_imd_files_not_a_directory. }
  pose proof (find_imd_files_quiet (directory a)) as Hquiet.
  destruct (find_imd_files h (directory a)) as [found o] eqn:Hfound.
  cbn [fst snd] in *. destruct found as [|f found].
  { cbn [snd]. by rewrite !commands_app, Hquiet. }
  destruct (check_files_spec a (f :: found)
              {| overall_success := true; files_with_errors := 0 |} Hexn)
    as (o' & -> & Hcmd).
  match goal with |- context [if ?b then _ else _] => destruct b end.
  all: cbn [snd]; rewrite !commands_app, Hquiet, Hcmd.
  all: unfold cprint; destruct (h_termcolor h); cbn; by rewrite !app_nil_r.
Qed.

(** *** Which files are found *)

Lemma lower_length s : String.length (lower s) = String.length s.
Proof.
  induction s as [|c s IH]; [done|]. cbn [lower String.length]. by rewrite IH.
Qed.

Lemma lower_substring s : ∀ i k,
  lower (String.substring i k s) = String.substring i k (lower s).
Proof.
  induction s as [|c s IH]; intros [|i] [|k];
    cbn [lower String.substring]; try done.
  by rewrite IH.
Qed.

Lemma append_cons c s1 s2 : String c s1 +:+ s2 = String c (s1 +:+ s2).
Proof. done. Qed.

Lemma lower_app s1 s2 : lower (s1 +:+ s2) = lower s1 +:+ lower s2.
Proof.
  induction s1 as [|c s1 IH]; [done|].
  rewrite append_cons. cbn [lower]. by rewrite append_cons, IH.
Qed.

Lemma substring_whole s : String.substring 0 (String.length s) s = s.
Proof.
  induction s as [|c s IH]; [done|].
  cbn [String.length String.substring]. by rewrite IH.
Qed.

Lemma substring_split s : ∀ i,
  (i ≤ String.length s)%nat →
  s = String.substring 0 i s +:+ String.substring i (String.length s - i) s.
Proof.
  induction s as [|c s IH]; intros [|i] Hi.
  - done.
  - cbn [String.length] in Hi. lia.
  - rewrite Nat.sub_0_r, substring_whole. by destruct (String.length _).
  - cbn [String.length String.substring] in *.
    rewrite append_cons. f_equal. apply IH. lia.
Qed.

Lemma substring_suffix s1 s2 :
  String.substring (String.length s1) (String.length s2) (s1 +:+ s2) = s2.
Proof.
  induction s1 as [|c s1 IH]; [|by rewrite append_cons].
  change ("" +:+ s2) with s2. cbn [String.length].
  induction s2 as [|c s2 IH]; cbn [String.length String.substring]; [done|].
  by rewrite IH.
Qed.

Lemma append_length s1 s2 :
  String.length (s1 +:+ s2) = (String.length s1 + String.length s2)%nat.
Proof.
  induction s1 as [|c s1 IH]; [done|].
  rewrite append_cons. cbn [String.length]. by rewrite IH.
Qed.

Lemma lower_ascii_dot c : lower_ascii c = "."%char → c = "."%char.
Proof.
  destruct c as [[] [] [] [] [] [] [] []]; vm_compute; intros Hc;
    first [ discriminate Hc | reflexivity ].
Qed.

Lemma lower_ascii_i c : lower_ascii c = "i"%char → c = "i"%char ∨ c = "I"%char.
Proof.
  destruct c as [[] [] [] [] [] [] [] []]; vm_compute; intros Hc;
    first [ discriminate Hc | by left | by right ].
Qed.

Lemma lower_ascii_m c : lower_ascii c = "m"%char → c = "m"%char ∨ c = "M"%char.
Proof.
  destruct c as [[] [] [] [] [] [] [] []]; vm_compute; intros Hc;
    first [ discriminate Hc | by left | by right ].
Qed.

Lemma lower_ascii_d c : lower_ascii c = "d"%char → c = "d"%char ∨ c = "D"%char.
Proof.
  destruct c as [[] [] [] [] [] [] [] []]; vm_compute; intros Hc;
    first [ discriminate Hc | by left | by right ].
Qed.

(** *** Where the files are found *)

Lemma filenames_elem_of file entries :
  file ∈ filenames entries ↔ Entry_file file ∈ entries.
Proof.
  unfold filenames. rewrite list_elem_of_omap. split.
  - intros ([name|name sub] & Hin & Heq); by simplify_eq.
  - intros Hin. by exists (Entry_file file).
Qed.

(** What [os.walk] yields below a sub-directory holds the files it says. *)
Lemma walk_entry_sound d : ∀ top root dirs files file,
  (root, dirs, files) ∈ walk_entry top d → file ∈ files →
  ∃ sub below, d = Entry_dir sub below
               ∧ file_under (path_join top sub) below root file.
Proof.
  induction d as [name|name entries IH] using dirent_ind';
    intros top root dirs files file Hin Hfile.
  - by apply elem_of_nil in Hin.
  - exists name, entries. split; [done|].
    cbn [walk_entry] in Hin. apply elem_of_cons in Hin as [Heq|Hin].
    + injection Heq as -> _ ->.
      apply file_here. by apply filenames_elem_of.
    + apply list_elem_of_In, in_flat_map in Hin as (d & Hd & Hin).
      apply list_elem_of_In in Hd, Hin.
      rewrite Forall_forall in IH.
      destruct (IH d Hd _ _ _ _ _ Hin Hfile) as (sub & below & -> & Hunder).
      by eapply file_below.
Qed.

Lemma os_walk_sound top entries root dirs files file :
  (root, dirs, files) ∈ os_walk top entries → file ∈ files →
  file_under top entries root file.
Proof.
  unfold os_walk. intros Hin Hfile. apply elem_of_cons in Hin as [Heq|Hin].
  - injection Heq as -> _ ->. apply file_here. by apply filenames_elem_of.
  - apply list_elem_of_In, in_flat_map in Hin as (d & Hd & Hin).
    apply list_elem_of_In in Hd, Hin.
    destruct (walk_entry_sound d _ _ _ _ _ Hin Hfile) as (sub & below & -> & Hunder).
    by eapply file_below.
Qed.

(** And [os.walk] comes to every directory of the tree. *)
Lemma os_walk_complete top entries root file :
  file_under top entries root file →
  ∃ dirs files, (root, dirs, files) ∈ os_walk top entries ∧ file ∈ files.
Proof.
  induction 1 as [top entries file Hin
                 |top entries sub below root file Hin _ (dirs & files & Hwalk & Hfile)].
  - exists (dirnames entries), (filenames entries).
    split; [apply list_elem_of_here|by apply filenames_elem_of].
  - exists dirs, files. split; [|done].
    unfold os_walk. apply list_elem_of_further.
    apply list_elem_of_In, in_flat_map. exists (Entry_dir sub below).
    split; by apply list_elem_of_In.
Qed.

(** X11. A file name is taken for an image exactly when it ends in a dot
    followed by [i], [m], [d], each in either case; and the paths
    [find_imd_files] returns are exactly these: the argument is a
    directory, and the path is the name of an image joined to the path of
    the directory that holds it, which is the argument or a directory
    anywhere below it. *)
Theorem imd_extension_any_case :
  (∀ file,
      is_imd file = true
      ↔ ∃ stem c1 c2 c3,
          file = stem +:+ String "." (String c1 (String c2 (String c3 "")))
          ∧ (c1 = "i"%char ∨ c1 = "I"%char)
          ∧ (c2 = "m"%char ∨ c2 = "M"%char)
          ∧ (c3 = "d"%char ∨ c3 = "D"%char))
  ∧ (∀ dir path,
        path ∈ (find_imd_files h dir).1
        ↔ h_isdir h dir = true
          ∧ ∃ root file,
              file_under dir (h_scandir h dir) root file
              ∧ is_imd file = true
              ∧ path = path_join root file).
Proof.
  split.
  - intros file. unfold is_imd, endswith. rewrite lower_length.
    cbn [String.length]. split.
    + intros [Hlen Heq]%andb_true_iff.
      apply Nat.leb_le in Hlen. apply String.eqb_eq in Heq.
      rewrite <- lower_substring in Heq.
      pose proof (substring_split file (String.length file - 4) ltac:(lia)) as Hsplit.
      replace (String.length file - (String.length file - 4))%nat with 4%nat
        in Hsplit by lia.
      destruct (String.substring (String.length file - 4) 4 file)
        as [|c0 [|c1 [|c2 [|c3 [|? ?]]]]]; try discriminate Heq.
      cbn in Heq. injection Heq as H0 H1 H2 H3.
      apply lower_ascii_dot in H0 as ->.
      exists (String.substring 0 (String.length file - 4) file), c1, c2, c3.
      split; [done|].
      auto using lower_ascii_i, lower_ascii_m, lower_ascii_d.
    + intros (stem & c1 & c2 & c3 & -> & H1 & H2 & H3).
      rewrite append_length. cbn [String.length].
      apply andb_true_iff. split; [apply Nat.leb_le; lia|].
      apply String.eqb_eq.
      replace (String.length stem + 4 - 4)%nat with (String.length (lower stem))
        by (rewrite lower_length; lia).
      rewrite lower_app.
      change 4%nat with (String.length
        (lower (String "." (String c1 (String c2 (String c3 "")))))).
      rewrite substring_suffix.
      by destruct H1 as [-> | ->], H2 as [-> | ->], H3 as [-> | ->].
  - intros dir path. unfold find_imd_files.
    destruct (h_isdir h dir); cbn [negb fst].
    2:{ split; [by intros ?%elem_of_nil|by intros [? _]]. }
    rewrite list_elem_of_In, in_flat_map. split.
    + intros ([[root dirs] files] & Hwalk & Hin). split; [done|].
      apply in_map_iff in Hin as (file & <- & Hfile).
      apply filter_In in Hfile as [Hfile Himd].
      exists root, file. split; [|done].
      apply (os_walk_sound _ _ root dirs files); by apply list_elem_of_In.
    + intros (_ & root & file & Hunder & Himd & ->).
      apply os_walk_complete in Hunder as (dirs & files & Hwalk & Hfile).
      exists (root, dirs, files). split; [by apply list_elem_of_In|].
      apply in_map_iff. exists file. split; [done|].
      apply filter_In. split; [by apply list_elem_of_In|done].
Qed.

(** *** What is shown of the checker's output *)

Lemma check_file_stripped a f t c s :
  Printed c (TxtStripped s) ∈ (check_file h a f t).2 →
  verbose a = true ∧ nonempty s = true
  ∧ ∃ rc out err,
      (run_oasis_chkdsk h (chkdsk_path a) f (chkdsk_verbose a)).1
      = Return (rc, out, err)
      ∧ rc ≠ 0 ∧ (s = out ∨ s = err).
Proof.
  unfold check_file.
  assert (∀ c s, Printed c (TxtStripped s)
                 ∉ (run_oasis_chkdsk h (chkdsk_path a) f (chkdsk_verbose a)).2)
    as Hrun.
  { intros c' s'. unfold run_oasis_chkdsk, cprint.
    repeat case_match; cbn [snd]; set_solver. }
  destruct (run_oasis_chkdsk h (chkdsk_path a) f (chkdsk_verbose a))
    as [[[[rc out] err]|e] o]; cbn [fst snd] in *.
  2:{ rewrite elem_of_app. intros [Hin|Hin]; [set_solver|by apply Hrun in Hin]. }
  destruct (Z.eqb_spec rc 0) as [->|Hrc]; cbn [snd].
  { rewrite !elem_of_app. unfold cprint.
    intros [Hin|[Hin|Hin]]; [set_solver|by apply Hrun in Hin|set_solver]. }
  rewrite !elem_of_app. unfold cprint.
  intros [Hin|[Hin|[Hin|[Hin|Hin]]]];
    [set_solver|by apply Hrun in Hin|set_solver| |set_solver].
  destruct (verbose a); [|set_solver]. split; [done|].
  apply elem_of_app in Hin as [Hin|Hin].
  - destruct (nonempty out) eqn:Hne; [|set_solver].
    assert (s = out) as -> by set_solver. split; [done|]. by eauto 10.
  - destruct (nonempty err) eqn:Hne; [|set_solver].
    assert (s = err) as -> by set_solver. split; [done|]. by eauto 10.
Qed.

Lemma check_files_events a files : ∀ t ev,
  ev ∈ (check_files h a files t).2 →
  ∃ f t', f ∈ files ∧ ev ∈ (check_file h a f t').2.
Proof.
  induction files as [|f files IH]; intros t ev; cbn [check_files].
  - set_solver.
  - destruct (check_file h a f t) as [[t'|e] o] eqn:Hfile.
    + destruct (check_files h a files t') as [r o'] eqn:Hrest. cbn [snd].
      rewrite elem_of_app. intros [Hin|Hin].
      * exists f, t. rewrite Hfile. split; [set_solver|done].
      * destruct (IH t' ev) as (f' & t'' & ? & ?); [by rewrite Hrest|].
        exists f', t''. split; [set_solver|done].
    + cbn [snd]. intros Hin. exists f, t. rewrite Hfile. split; [set_solver|done].
Qed.

(** X12. The checker's standard output or error is printed only for an
    image for which it returned a non-zero status, only when [--verbose]
    was given, and only when it is not empty. *)
Theorem chkdsk_output_shown_only_on_error a c s :
  Printed c (TxtStripped s) ∈ (script h a).2 →
  verbose a = true ∧ nonempty s = true
  ∧ ∃ f rc out err,
      f ∈ (find_imd_files h (directory a)).1
      ∧ (run_oasis_chkdsk h (chkdsk_path a) f (chkdsk_verbose a)).1
        = Return (rc, out, err)
      ∧ rc ≠ 0 ∧ (s = out ∨ s = err).
Proof.
  intros Hin.
  assert (Printed c (TxtStripped s) ∈ (main h a).2) as Hmain.
  { revert Hin. unfold script, import_termcolor.
    destruct (main h a) as [[[]|[]] out]; cbn [snd];
      destruct (h_termcolor h); set_solver. }
  clear Hin. revert Hmain. unfold main.
  destruct (h_isdir h (directory a)) eqn:Hdir; cbn [negb].
  2:{ unfold cprint. set_solver. }
  assert (∀ ev, ev ∈ (find_imd_files h (directory a)).2 → False) as Hquiet.
  { unfold find_imd_files. rewrite Hdir. set_solver. }
  destruct (find_imd_files h (directory a)) as [found o] eqn:Hfound.
  cbn [fst snd] in *. destruct found as [|f found].
  { cbn [snd]. rewrite !elem_of_app. intros [[Hin|Hin]|Hin];
      [set_solver|by apply Hquiet in Hin|set_solver]. }
  pose proof (check_files_events a (f :: found)
                {| overall_success := true; files_with_errors := 0 |}
                (Printed c (TxtStripped s))) as Hloop.
  destruct (check_files h a (f :: found)
              {| overall_success := true; files_with_errors := 0 |})
    as [[t|e] o'] eqn:Hcheck; cbn [snd] in *.
  - destruct (overall_success t); cbn [snd]; rewrite !elem_of_app; unfold cprint.
    all: intros Hin.
    all: assert (Printed c (TxtStripped s) ∈ o') as Hin'
      by (destruct_or?; first [ done | by apply Hquiet in Hin | set_solver ]).
    all: destruct (Hloop Hin') as (f' & t' & Hf' & Hev).
    all: apply check_file_stripped in Hev as (? & ? & rc & out & err & ? & ? & ?).
    all: split; [done|]; split; [done|]; by exists f', rc, out, err.
  - rewrite !elem_of_app. intros Hin.
    assert (Printed c (TxtStripped s) ∈ o') as Hin'
      by (destruct_or?; first [ done | by apply Hquiet in Hin | set_solver ]).
    destruct (Hloop Hin') as (f' & t' & Hf' & Hev).
    apply check_file_stripped in Hev as (? & ? & rc & out & err & ? & ? & ?).
    split; [done|]; split; [done|]; by exists f', rc, out, err.
Qed.

(** *** Colours *)

Lemma plain_app log1 log2 : plain (log1 ++ log2) = plain log1 ++ plain log2.
Proof. apply map_app. Qed.

Lemma run_oasis_chkdsk_termcolor cmd f v :
  (run_oasis_chkdsk (with_termcolor h) cmd f v).1 = (run_oasis_chkdsk h cmd f v).1
  ∧ plain (run_oasis_chkdsk (with_termcolor h) cmd f v).2
    = plain (run_oasis_chkdsk h cmd f v).2.
Proof.
  unfold run_oasis_chkdsk. cbn [h_run with_termcolor h_str].
  by repeat case_match.
Qed.

Lemma check_file_termcolor a f t :
  (check_file (with_termcolor h) a f t).1 = (check_file h a f t).1
  ∧ plain (check_file (with_termcolor h) a f t).2 = plain (check_file h a f t).2.
Proof.
  unfold check_file.
  destruct (run_oasis_chkdsk_termcolor (chkdsk_path a) f (chkdsk_verbose a))
    as [Hr Ho].
  destruct (run_oasis_chkdsk (with_termcolor h) (chkdsk_path a) f (chkdsk_verbose a))
    as [r1 o1].
  destruct (run_oasis_chkdsk h (chkdsk_path a) f (chkdsk_verbose a)) as [r2 o2].
  cbn [fst snd] in *. subst r2.
  destruct r1 as [[[rc out] err]|e]; cbn [fst snd].
  2:{ by rewrite !plain_app, Ho. }
  destruct (rc =? 0); cbn [fst snd]; (split; [done|]).
  all: destruct (verbose a), (nonempty out), (nonempty err);
    by rewrite !plain_app, Ho.
Qed.

Lemma check_files_termcolor a files : ∀ t,
  (check_files (with_termcolor h) a files t).1 = (check_files h a files t).1
  ∧ plain (check_files (with_termcolor h) a files t).2
    = plain (check_files h a files t).2.
Proof.
  induction files as [|f files IH]; intros t; cbn [check_files]; [done|].
  destruct (check_file_termcolor a f t) as [Hr Ho].
  destruct (check_file (with_termcolor h) a f t) as [r1 o1].
  destruct (check_file h a f t) as [r2 o2].
  cbn [fst snd] in *. subst r2. destruct r1 as [t'|e]; [|done].
  destruct (IH t') as [Hr' Ho'].
  destruct (check_files (with_termcolor h) a files t') as [r1' o1'].
  destruct (check_files h a files t') as [r2' o2'].
  cbn [fst snd] in *. subst r2'. by rewrite !plain_app, Ho, Ho'.
Qed.

Lemma main_termcolor a :
  (main (with_termcolor h) a).1 = (main h a).1
  ∧ plain (main (with_termcolor h) a).2 = plain (main h a).2.
Proof.
  unfold main. cbn [h_isdir h_abspath with_termcolor].
  destruct (h_isdir h (directory a)) eqn:Hdir; cbn [negb]; [|done].
  unfold find_imd_files. cbn [h_isdir h_scandir with_termcolor].
  rewrite Hdir. cbn [negb].
  destruct (flat_map _ _) as [|f found]; [done|].
  destruct (check_files_termcolor a (f :: found)
              {| overall_success := true; files_with_errors := 0 |}) as [Hr Ho].
  destruct (check_files (with_termcolor h) a (f :: found) _) as [r1 o1].
  destruct (check_files h a (f :: found) _) as [r2 o2].
  cbn [fst snd] in *. subst r2. destruct r1 as [t|e]; cbn [fst snd].
  2:{ by rewrite !plain_app, Ho. }
  destruct (overall_success t); cbn [fst snd]; by rewrite !plain_app, Ho.
Qed.

(** X13. Whether [termcolor] is installed changes neither the exit status
    nor what is run and printed, colours apart: without it the script
    prints its two warning lines first, and nothing is coloured. *)
Theorem termcolor_only_colours a :
  (script h a).1 = (script (with_termcolor h) a).1
  ∧ plain (script h a).2
    = import_termcolor h ++ plain (script (with_termcolor h) a).2
  ∧ (h_termcolor h = false →
     ∀ c t, Printed c t ∈ (script h a).2 → c = None).
Proof.
  destruct (main_termcolor a) as [Hr Ho].
  split; [|split].
  - unfold script. destruct (main (with_termcolor h) a) as [r1 o1].
    destruct (main h a) as [r2 o2]. cbn [fst] in Hr. subst r2.
    by destruct r1 as [[]|[]].
  - unfold script. destruct (main (with_termcolor h) a) as [r1 o1].
    destruct (main h a) as [r2 o2]. cbn [fst snd] in *. subst r2.
    assert (plain (import_termcolor h) = import_termcolor h) as Himp
      by (unfold import_termcolor; by destruct (h_termcolor h)).
    destruct r1 as [[]|[]]; cbn [snd]; by rewrite !plain_app, Himp, Ho.
  - intros Hno c t Hin.
    assert (∀ t' c', cprint h t' c' = Printed None t') as Hcp
      by (intros; unfold cprint; by rewrite Hno).
    assert (Printed c t ∈ (main h a).2 ∨ Printed c t ∈ import_termcolor h)
      as [Hmain|Himp].
    { revert Hin. unfold script. destruct (main h a) as [[[]|[]] out];
        cbn [snd]; set_solver. }
    2:{ revert Himp. unfold import_termcolor. rewrite Hno. set_solver. }
    clear Hin. revert Hmain. unfold main, find_imd_files.
    destruct (h_isdir h (directory a)); cbn [negb]; rewrite ?Hcp; [|set_solver].
    destruct (flat_map _ _) as [|f found]; [set_solver|].
    pose proof (check_files_events a (f :: found)
                  {| overall_success := true; files_with_errors := 0 |}
                  (Printed c t)) as Hloop.
    assert (∀ f' t', Printed c t ∈ (check_file h a f' t').2 → c = None) as Hfile.
    { intros f' t'. unfold check_file, run_oasis_chkdsk. rewrite !Hcp.
      repeat case_match; simplify_eq; cbn [snd]; intros Hin.
      all: rewrite ?Hcp, ?elem_of_app, ?elem_of_cons, ?elem_of_nil in Hin.
      all: naive_solver. }
    destruct (check_files h a (f :: found) _) as [[tl|e] o']; cbn [snd] in *.
    + destruct (overall_success tl); cbn [snd]; rewrite ?Hcp, !elem_of_app.
      all: intros Hin; destruct_or?.
      all: first [ by (destruct (Hloop Hin) as (f' & t' & _ & Hev); eapply Hfile)
                 | set_solver ].
    + rewrite !elem_of_app. intros Hin; destruct_or?.
      all: first [ by (destruct (Hloop Hin) as (f' & t' & _ & Hev); eapply Hfile)
                 | set_solver ].
Qed.

End CheckImdFacts.

Import Shelf.

(** One of the two images of the example fails: exit status 1. *)
Lemma check_imd_exit_status_witness :
  CheckImd.run_raises_exceptions shelf
  ∧ (CheckImd.script shelf check_disks).1 = 1.
Proof.
  assert (CheckImd.run_raises_exceptions shelf) as Hexn.
  { intros command e. cbn. case_match; discriminate. }
  split; [exact Hexn|].
  exact (proj1 (check_imd_exit_status shelf check_disks Hexn)).
Defined.

(** The two images of the example, each checked once. *)
Lemma every_file_checked_once_witness :
  CheckImd.run_raises_exceptions shelf
  ∧ CheckImd.commands (CheckImd.script shelf check_disks).2
    = [["oasis_chkdsk"; "disks/A.IMD"]; ["oasis_chkdsk"; "disks/old/b.imd"]].
Proof.
  assert (CheckImd.run_raises_exceptions shelf) as Hexn.
  { intros command e. cbn. case_match; discriminate. }
  split; [exact Hexn|].
  exact (every_file_checked_once shelf check_disks Hexn).
Defined.

(** The checker's output for the image that failed. *)
Lemma chkdsk_output_shown_only_on_error_witness :
  CheckImd.Printed None (CheckImd.TxtStripped "bad sector")
    ∈ (CheckImd.script shelf check_disks).2
  ∧ CheckImd.verbose check_disks = true
  ∧ CheckImd.nonempty "bad sector" = true.
Proof.
  assert (CheckImd.Printed None (CheckImd.TxtStripped "bad sector")
            ∈ (CheckImd.script shelf check_disks).2) as Hin.
  { apply list_elem_of_In. vm_compute. tauto. }
  split; [exact Hin|].
  destruct (chkdsk_output_shown_only_on_error shelf check_disks _ _ Hin)
    as (Hv & Hs & _).
  exact (conj Hv Hs).
Defined.

(** The images of the example: one in the directory itself, under a name
    in upper case, and one in a sub-directory; [notes.txt] is not taken. *)
Lemma imd_extension_any_case_witness :
  (CheckImd.find_imd_files shelf "disks").1 = ["disks/A.IMD"; "disks/old/b.imd"]
  ∧ CheckImd.is_imd "A.IMD" = true
  ∧ CheckImd.is_imd "notes.txt" = false
  ∧ "disks/old/b.imd" ∈ (CheckImd.find_imd_files shelf "disks").1.
Proof.
  split; [vm_compute; reflexivity|].
  split; [reflexivity|]. split; [reflexivity|].
  apply (proj2 (imd_extension_any_case shelf) "disks" "disks/old/b.imd").
  split; [reflexivity|].
  exists "disks/old", "b.imd". split; [|split; reflexivity].
  apply (CheckImd.file_below "disks" _ "old" [CheckImd.Entry_file "b.imd"]).
  - cbn. apply list_elem_of_further, list_elem_of_further, list_elem_of_here.
  - apply CheckImd.file_here. apply list_elem_of_here.
Defined.

(* ===================================================================== *)
(** ** More properties of the integration harness *)
(* ===================================================================== *)

Import Py Harness Outcome.

(** *** More about the stages *)

(** Decide what a branch of a stage says about its error reports. *)
Ltac no_report :=
  let e := fresh "e" in let Hin := fresh "Hin" in let Herr := fresh "Herr" in
  intros e Hin Herr;
  first
    [ reflexivity
    | exfalso; erewrite new_events_app in Hin by log_tail;
      logged_cases Hin; subst; discriminate Herr ].

Lemma mkdir_raises cwd_w root_name name root e :
  mkdir cwd_w root_name name root = Raise e → e = OSError.
Proof. unfold mkdir. repeat case_match; congruence. Qed.

Lemma iterdir_raises name root e :
  iterdir name root = Raise e → e = OSError ∨ e = FileNotFoundError.
Proof. unfold iterdir. repeat case_match; intros [= <-]; auto. Qed.

(** What a stage raised, once it is known. *)
Ltac raised :=
  repeat match goal with
    | H : mkdir _ _ _ _ = Raise _ |- _ => apply mkdir_raises in H as ->
    | H : iterdir _ _ = Raise _ |- _ => apply iterdir_raises in H as [-> | ->]
    end.

Section StageOutcomes.
Variable w : world.

Lemma port_strategy_outcome a s r s' :
  (print MsgStarting;; port_strategy w a) s = (r, s') →
  stage_outcome w a StPorts s (ending r) s'.
Proof.
  unfold port_strategy, stage_outcome, both_ports. intros Hrun. run_stage.
  all: split; [no_report|].
  all: split; [done|].
  all: cbn [ending]; repeat split; try done; try congruence.
  all: try (intros ? [= <-]; done).
  all: destruct (truthy (com_port_recv_arg a)), (truthy (com_port_send_arg a));
    simpl in *; done.
Qed.

Lemma check_disk_image_outcome a s r s' :
  check_disk_image w a s = (r, s') →
  stage_outcome w a StDisk s (ending r) s'.
Proof.
  unfold check_disk_image, stage_outcome. intros Hrun. run_stage.
  all: split; [no_report|].
  all: split; [done|].
  all: cbn [ending]; try done.
  all: by intros ? [= <-].
Qed.

Lemma setup_directories_outcome a s r s' :
  setup_directories w s = (r, s') →
  stage_outcome w a StDirs s (ending r) s'.
Proof.
  unfold setup_directories, stage_outcome. intros Hrun. run_stage.
  all: raised.
  all: split; [no_report|].
  all: split; [done|].
  all: cbn [ending]; split; [done|]; try done.
  all: by intros ? [= <-].
Qed.

Lemma comparison_outcome a t base s r s' :
  comparison w a t base s = (r, s') →
  stage_outcome w a StCompare s (ending r) s'.
Proof.
  unfold comparison, stage_outcome. intros Hrun. run_stage.
  all: split; [no_report|].
  all: split; [done|].
  all: cbn [ending]; split; [done|].
  all: cbn [andb] in *; rc_facts.
  all: split;
    [ intros ? [= <-] Hst; first [ discriminate Hst
                                  | erewrite new_events_app by log_tail; set_solver ]
    | intros Hin; first [ by subst
                        | exfalso; erewrite new_events_app in Hin by log_tail;
                          logged_cases Hin ] ].
Qed.

Lemma extraction_outcome a t disk_image_path base s r s' :
  extraction w t disk_image_path base s = (r, s') →
  stage_outcome w a StExtract s (ending r) s'.
Proof.
  unfold extraction, stage_outcome. intros Hrun. run_stage.
  all: raised.
  all: split; [no_report|].
  all: split; [done|].
  all: cbn [ending]; cbn [andb] in *; rc_facts.
  all: split; [first [ done | by intros; subst ]|].
  all: split;
    [ try done;
      intros ? [= <-] Hst; first [ discriminate Hst
                                  | erewrite new_events_app by log_tail; set_solver ]
    | intros Hin; first [ done
                        | exfalso; erewrite new_events_app in Hin by log_tail;
                          logged_cases Hin ] ].
Qed.

Lemma send_and_receive_outcome a t base s r s' :
  send_and_receive w t base s = (r, s') →
  stage_outcome w a StTransfer s (ending r) s'.
Proof.
  unfold send_and_receive, recv_process_obj. intros Hrun. run_stage.
  all: raised; unfold stage_outcome.
  all: split; [no_report|].
  all: split; [done|].
  all: cbn [ending]; cbn [andb] in *; rc_facts.
  all: split; [first [ done | by intros ? [= <-] ]|].
  all: intros Hrecv Hsend; try (exfalso; congruence).
  all: erewrite new_events_app by log_tail.
  all: simpl_store; rewrite ?Hrecv, ?Hsend; cbn [started popens omap list_omap app].
  all: split; [reflexivity|].
  all: split; [by eauto|].
  all: first [ done | intros _; repeat split; congruence ].
Qed.

(** *** The socat stage *)

Lemma popens_app tr1 tr2 : popens (tr1 ++ tr2) = popens tr1 ++ popens tr2.
Proof. apply omap_app. Qed.

(** What an exception that resolving a link raised does to the exit
    status. *)
Ltac resolve_raised Hexn :=
  match goal with
  | H : w_resolve _ _ _ = Raise ?e |- _ =>
      let Hi := fresh in pose proof (Hexn _ _ _ H) as Hi; by destruct e
  end.

Lemma wait_for_pty_outcome n : ∀ i pa pb s r s',
  wait_for_pty w n i pa pb s = (r, s') →
  socat_handle_ok s →
  socat_process s' = socat_process s
  ∧ (is_Some (pt_socat (procs s)) → is_Some (pt_socat (procs s')))
  ∧ (socat_process s = None → pt_socat (procs s') = pt_socat (procs s))
  ∧ popens (new_events s s') = []
  ∧ (∀ e, e ∈ new_events s s' → is_error_report e = true →
          r = Raise (SystemExit 1))
  ∧ (resolve_raises_exceptions w →
     ∀ e, r = Raise e → exit_status (Raise e : result unit) = 1).
Proof.
  induction n as [|n IH]; intros i pa pb s r s' Hrun Hok;
    cbn [wait_for_pty] in Hrun.
  - run_stage.
    all: destruct Hok; simplify_eq.
    all: split; [done|]. all: split; [by eauto|]. all: split; [done|].
    all: split; [by erewrite new_events_app by log_tail|].
    all: split; [done|]. all: by intros _ ? [= <-].
  - run_stage.
    (* a round with more to come *)
    all: try match goal with
         | H : wait_for_pty _ _ _ _ _ ?s1 = (_, _) |- _ =>
             assert (stage_step StSocat s s1) as Hfirst by by_footprint;
             pose proof (wait_for_pty_step _ _ _ _ _ _ _ _ H (proj1 Hfirst Hok))
               as [Hrest _];
             apply IH in H as (Hp & Hs & Hn & Hpo & Herr & Hex);
             [| by apply Hfirst ];
             rewrite (new_events_trans _ _ _ (proj1 (proj2 Hfirst))
                        (proj1 (proj2 Hrest)));
             erewrite (new_events_app s s1) by log_tail;
             simpl_store;
             split; [done|]; split; [done|]; split; [done|];
             split; [by rewrite popens_app, Hpo|];
             split; [|done];
             let Hin := fresh "Hin" in let Hrep := fresh "Hrep" in
             intros ? Hin Hrep; apply elem_of_app in Hin as [Hin|Hin];
             [ exfalso; logged_cases Hin; subst; discriminate Hrep | by eauto ]
         end.
    (* the loop ends in this round *)
    all: split; [done|]. all: split; [done|]. all: split; [done|].
    all: split; [by erewrite new_events_app by log_tail|].
    all: split; [no_report|].
    all: intros Hexn ? [= <-]; first [ done | resolve_raised Hexn ].
Qed.

(** When the loop returns, it returns the readiness states after all
    its rounds: once both endpoints are resolved they stay so. *)
Lemma wait_for_pty_ready n : ∀ i pa pb s a b s',
  resolve_errors_caught w →
  wait_for_pty w n i pa pb s = (Return (a, b), s') →
  readiness_after w n i pa pb = (Some a, Some b).
Proof.
  induction n as [|n IH]; intros i pa pb s a b s' Hc Hrun;
    cbn [wait_for_pty] in Hrun.
  - run_stage.
  - cbn [readiness_after]. unfold_monad; simpl_store.
    rewrite !probe_caught in Hrun by done.
    destruct (probed w PtyA i pa) as [pa'|] eqn:Ha;
      destruct (probed w PtyB i pb) as [pb'|] eqn:Hb.
    { simplify_eq. apply readiness_after_resolved. }
    all: run_stage.
    all: match goal with
         | H : wait_for_pty _ _ _ _ _ _ = _ |- _ => by apply IH in H
         end.
Qed.

End StageOutcomes.

Section StageOutcomes2.
Variable w : world.

Lemma socat_setup_outcome a t base s r s' :
  socat_setup w t base s = (r, s') →
  socat_handle_ok s →
  stage_outcome w a StSocat s (ending r) s'.
Proof.
  unfold socat_setup. intros Hrun Hok. run_stage.
  all: unfold stage_outcome.
  (* the loop was entered *)
  all: try match goal with
    | H : wait_for_pty _ _ _ _ _ ?s1 = (?r1, ?s2) |- context [new_events _ ?s3] =>
        assert (stage_step StSocat s s1) as Hfirst by by_footprint;
        assert (stage_step StSocat s2 s3) as Hlast
          by first [ apply stage_step_refl | by_footprint ];
        pose proof (wait_for_pty_step _ _ _ _ _ _ _ _ H (proj1 Hfirst Hok))
          as [Hloop _];
        pose proof (wait_for_pty_outcome _ _ _ _ _ _ _ _ H (proj1 Hfirst Hok))
          as (Hp & Hs & Hn & Hpo & Herr & Hex);
        pose proof (stage_step_trans _ _ _ _ Hfirst Hloop) as Hmid;
        rewrite (new_events_trans _ _ _ (proj1 (proj2 Hmid))
                   (proj1 (proj2 Hlast)));
        rewrite (new_events_trans _ _ _ (proj1 (proj2 Hfirst))
                   (proj1 (proj2 Hloop)));
        erewrite (new_events_app s s1) by log_tail;
        first [ rewrite new_events_refl | erewrite (new_events_app s2 s3) by log_tail ]
    end.
  all: simpl_store.
  all: rewrite ?popens_app; cbn [popens omap list_omap app ending].
  all: rewrite ?new_events_refl; try erewrite (new_events_app s) by log_tail.
  all: cbn [popens omap list_omap app].
  (* the error reports *)
  all: split;
    [ let Hin := fresh "Hin" in let Hrep := fresh "Hrep" in
      intros ? Hin Hrep;
      repeat first [ rewrite elem_of_app in Hin | rewrite elem_of_cons in Hin
                   | rewrite elem_of_nil in Hin ];
      destruct_or?; subst; try discriminate Hrep; try done;
      match goal with
      | Herr : ∀ e, e ∈ _ → _ → _ = Raise (SystemExit 1) |- _ =>
          specialize (Herr _ Hin Hrep); by simplify_eq
      end |].
  all: split; [done|].
  (* the handle *)
  all: split;
    [ intros Hnone Hpt;
      first [ left; by rewrite ?Hnone, ?Hpt
            | right; rewrite ?Hpo; repeat split; by eauto ] |].
  (* the exit status *)
  all: split;
    [ intros Hexn ? [= <-]; first [ done | by eapply Hex ] |].
  (* the ports *)
  all: intros Huse Hgo Hcaught; try done; try congruence.
  all: match goal with
       | H : wait_for_pty _ _ _ _ _ _ = (Return _, _) |- _ =>
           apply wait_for_pty_ready in H; [|done]; rewrite H
       end.
  all: by eauto.
Qed.

(** The resolver's stage reports errors of its own kind only. *)
Lemma tool_checks_outcome a s stop s' :
  stage_step StTools s s' → stage_outcome w a StTools s stop s'.
Proof.
  intros (_ & _ & Hv & _). unfold stage_outcome.
  split; [|done]. intros e Hin Hrep.
  rewrite Forall_forall in Hv. specialize (Hv _ Hin).
  destruct e as [[]| | | | | | | | |]; discriminate.
Qed.

(** [main_logic] is such a journey. *)
Lemma main_logic_journey a s r s' :
  main_logic w a s = (r, s') →
  socat_handle_ok s →
  journey w a all_stages s r s'.
Proof.
  unfold main_logic. intros Hrun Hok.
  (* 0. ports *)
  apply bind_inv in Hrun as [([] & s0 & H0 & Hrun)|(e & H0 & ->)];
    [|discriminate H0].
  assert (stage_step StPorts s s0) as Hs0.
  { injection H0 as <-. by_footprint. }
  apply bind_inv in Hrun as [([] & s1 & H1 & Hrun)|(e & H1 & ->)].
  all: match type of H1 with
       | _ = (?r1, ?sx) =>
           assert ((print MsgStarting;; port_strategy w a) s = (r1, sx)) as Ho1
             by (unfold mbind, M_bind, bind; rewrite H0; exact H1)
       end.
  all: apply (port_strategy_outcome w a) in Ho1.
  all: apply port_strategy_step in H1 as [Hs1 Hf1];
    pose proof (stage_step_trans _ _ _ _ Hs0 Hs1) as Hp.
  2:{ apply journey_stop; [done| |done]. intros Hb. by destruct (Hf1 Hb). }
  eapply journey_next; [exact Hp| |exact Ho1|].
  { intros Hb. destruct (Hf1 Hb) as (_ & ? & ? & ?). done. }
  pose proof (proj1 Hp Hok) as Hok1.
  (* 1. tools *)
  apply bind_inv in Hrun as [(checked & s2 & H2 & Hrun)|(e & H2 & ->)];
    apply tool_checks_step in H2 as [Hs2 Hf2].
  2:{ apply journey_stop; [done| |by apply tool_checks_outcome].
      destruct Hf2 as [(? & ? & _)|[(? & _)|(? & ?)]]; by simplify_eq. }
  destruct checked as [t|].
  2:{ injection Hrun as <- <-.
      apply journey_stop; [done| |by apply tool_checks_outcome].
      destruct Hf2 as [(? & ? & _)|[(_ & ?)|(? & _)]]; by simplify_eq. }
  eapply journey_next; [exact Hs2| |by apply tool_checks_outcome|].
  { destruct Hf2 as [(? & _ & ?)|[(? & _)|(? & _)]]; by simplify_eq. }
  pose proof (proj1 Hs2 Hok1) as Hok2.
  (* the disk image *)
  apply bind_inv in Hrun as [(disk_image_path & s3 & H3 & Hrun)|(e & H3 & ->)];
    pose proof (check_disk_image_outcome w a _ _ _ H3) as Ho3;
    apply check_disk_image_step in H3 as Hs3.
  2:{ by apply journey_stop. }
  eapply journey_next; [exact Hs3|done|exact Ho3|].
  pose proof (proj1 Hs3 Hok2) as Hok3.
  (* 2. directories *)
  apply bind_inv in Hrun as [(base & s4 & H4 & Hrun)|(e & H4 & ->)];
    pose proof (setup_directories_outcome w a _ _ _ H4) as Ho4;
    apply setup_directories_step in H4 as Hs4.
  2:{ by apply journey_stop. }
  eapply journey_next; [exact Hs4|done|exact Ho4|].
  pose proof (proj1 Hs4 Hok3) as Hok4.
  (* 3. socat *)
  apply bind_inv in Hrun as [([] & s5 & H5 & Hrun)|(e & H5 & ->)];
    pose proof (socat_setup_outcome a _ _ _ _ _ H5 Hok4) as Ho5;
    pose proof (socat_setup_step _ _ _ _ _ _ H5 Hok4) as (Hs5 & Hle & Hoff);
    pose proof (socat_setup_timeout _ _ _ _ _ _ H5 Hok4) as Hto.
  2:{ apply journey_stop; [done| |exact Ho5]. split; [done|]. split.
      - intros Hu. by destruct (Hoff Hu).
      - intros Hi Hc Hp0 Hn. destruct (Hto Hi Hc Hp0 Hn) as [-> ?]. done. }
  eapply journey_next; [exact Hs5| |exact Ho5|].
  { split; [done|]. split.
    - intros Hu. by destruct (Hoff Hu) as [_ ->].
    - intros Hi Hc Hp0 Hn. by destruct (Hto Hi Hc Hp0 Hn). }
  pose proof (proj1 Hs5 Hok4) as Hok5.
  (* 4. extraction *)
  apply bind_inv in Hrun as [([] & s6 & H6 & Hrun)|(e & H6 & ->)];
    pose proof (extraction_outcome w a _ _ _ _ _ _ H6) as Ho6;
    apply extraction_step in H6 as [Hs6 Hf6].
  2:{ apply journey_stop; [done| |exact Ho6]. intros Hin. by rewrite (Hf6 Hin). }
  eapply journey_next; [exact Hs6| |exact Ho6|].
  { intros Hin. by specialize (Hf6 Hin). }
  (* 5. send and receive *)
  apply bind_inv in Hrun as [([] & s7 & H7 & Hrun)|(e & H7 & ->)];
    pose proof (send_and_receive_outcome w a _ _ _ _ _ H7) as Ho7;
    apply send_and_receive_step in H7 as [Hs7 Hf7].
  2:{ apply journey_stop; [done| |exact Ho7]. intros Hnone.
      destruct (Hf7 Hnone) as (_ & Hrc & Hra & Hsa).
      split; [done|]. split; [|done].
      intros rc Hr1 Hr2. destruct (Hrc rc Hr1 Hr2) as (-> & ? & ?). done. }
  eapply journey_next; [exact Hs7| |exact Ho7|].
  { intros Hnone. destruct (Hf7 Hnone) as (Hr & Hrc & Hra & Hsa).
    split; [by auto|]. split; [|done].
    intros rc Hr1 Hr2. by destruct (Hrc rc Hr1 Hr2). }
  (* 6. comparison *)
  pose proof (comparison_outcome w a _ _ _ _ _ Hrun) as Ho8.
  destruct r as [[]|e].
  { by destruct Ho8 as (_ & _ & ? & _). }
  apply journey_stop; [by eapply comparison_step|done|exact Ho8].
Qed.

(** The whole script as a journey and the exit stage. *)
Lemma run_script_journey a code sf :
  run_script w a = (code, sf) →
  ∃ r s1,
    main_logic w a (initial_state w) = (r, s1)
    ∧ (main_block w a (initial_state w)).2 = sf
    ∧ journey w a all_stages (initial_state w) r s1
    ∧ stage_step StExit s1 sf
    ∧ code = exit_status r
    ∧ (socat_process s1 = None → procs sf = procs s1 ∧ socat_process sf = None)
    ∧ (r = Return tt → temp_base_dir_path s1 = None → sf = s1)
    ∧ socat_handle_ok s1.
Proof.
  unfold run_script. intros Hscript.
  destruct (main_logic w a (initial_state w)) as [r s1] eqn:Hmain.
  destruct (main_block w a (initial_state w)) as [rf sf'] eqn:Hblock.
  assert (socat_handle_ok (initial_state w)) as Hok0 by by left.
  pose proof (main_logic_journey _ _ _ _ Hmain Hok0) as Hrun.
  pose proof (main_logic_run _ _ _ _ _ Hmain Hok0) as Hrun'.
  pose proof (run_handle_ok _ _ _ _ _ _ Hrun' Hok0) as Hok1.
  destruct (main_block_step _ _ _ _ _ _ _ Hmain Hblock Hok1)
    as (Hexit & Hstatus & Hoff & Hsame).
  exists r, s1.
  assert (sf' = sf ∧ code = exit_status rf) as [-> ->].
  { destruct rf as [[]|[]]; by simplify_eq. }
  by rewrite Hstatus.
Qed.

End StageOutcomes2.

(** *** The exit stage *)

Lemma cleanups_app tr1 tr2 : cleanups (tr1 ++ tr2) = (cleanups tr1 + cleanups tr2)%nat.
Proof. unfold cleanups. by rewrite List.filter_app, length_app. Qed.

Lemma cleanups_cons e tr :
  cleanups (e :: tr) = ((if is_cleanup e then 1 else 0) + cleanups tr)%nat.
Proof. unfold cleanups. cbn [List.filter]. by destruct (is_cleanup e). Qed.

Section ExitStage.
Variable w : world.

(** What one call of [cleanup] does to socat, and what it logs. *)
Lemma cleanup_effect s r s' :
  cleanup w s = (r, s') →
  cleanups (new_events s s') = 1%nat
  ∧ trace s' = trace s ++ new_events s s'
  ∧ (∀ q, EvTerminate q ∈ new_events s s' ∨ EvKill q ∈ new_events s s' →
          use_socat_globally s = true ∧ socat_process s = Some q)
  ∧ (use_socat_globally s = true → ∀ p, socat_process s = Some p →
     gone (pt_get (procs s') p)
     ∧ (∀ q, q ≠ p → pt_get (procs s') q = pt_get (procs s) q)
     ∧ EvTerminate p ∈ new_events s s'
     ∧ (EvKill p ∈ new_events s s' →
        w_exits_on_terminate w = false ∧ pt_get (procs s') p = Some Killed)).
Proof.
  unfold cleanup. intros Hrun. run_stage.
  all: erewrite new_events_app by log_tail.
  all: split; [done|].
  all: split; [log_tail|].
  all: split; [intros q [Hin|Hin]; logged_cases Hin; by simplify_eq|].
  all: intros Huse p' Hp; simplify_eq.
  all: match goal with p : proc |- _ => destruct p end; simpl_store.
  all: simplify_eq.
  all: repeat match goal with
         | H : ?x = Some _ |- context [?x] => rewrite H
         end.
  all: split; [done|].
  all: split; [intros [] ?; first [ done | congruence ]|].
  all: split; [set_solver|].
  all: intros Hin; first [ done | exfalso; logged_cases Hin ].
Qed.

(** All that one call of [cleanup] does. *)
Lemma cleanup_inv s r s' :
  cleanup w s = (r, s') →
  r = Return tt
  ∧ trace s' = trace s ++ new_events s s'
  ∧ cleanups (new_events s s') = 1%nat
  ∧ temp_base_dir_path s' = temp_base_dir_path s
  ∧ use_socat_globally s' = use_socat_globally s
  ∧ socat_process s' = (if use_socat_globally s then None else socat_process s)
  ∧ (use_socat_globally s = false ∨ socat_process s = None → procs s' = procs s)
  ∧ session s'
    = match temp_base_dir_path s, session s with
      | Some _, Some root => rmtree (w_cwd_writable w) root
      | _, _ => session s
      end
  ∧ (use_socat_globally s = true → socat_process s = Some Socat →
     gone (pt_socat (procs s'))).
Proof.
  intros Hrun.
  destruct (cleanup_spec w s) as (s'' & Heq & Ht & Hu & Hp & Hq & Hs).
  rewrite Hrun in Heq. injection Heq as -> <-.
  destruct (cleanup_effect _ _ _ Hrun) as (Hone & Htr & _ & Hsocat).
  repeat split; try done.
  intros Huse Hp'. by destruct (Hsocat Huse _ Hp') as [? _].
Qed.

End ExitStage.

(** Open every call of [cleanup] in the context. *)
Ltac open_cleanups :=
  repeat match goal with
    | H : cleanup _ _ = _ |- _ =>
        let Htr := fresh "Htr" in let Hone := fresh "Hone" in
        let Htmp := fresh "Htmp" in let Huse := fresh "Huse" in
        let Hsp := fresh "Hsp" in let Hpr := fresh "Hpr" in
        let Hse := fresh "Hse" in let Hgone := fresh "Hgone" in
        apply cleanup_inv in H
          as (? & Htr & Hone & Htmp & Huse & Hsp & Hpr & Hse & Hgone)
    end;
  simplify_eq.

(** The log of the exit stage, from the logs of its calls of [cleanup]. *)
Ltac exit_trace :=
  repeat match goal with
    | Htr : trace ?x = _ |- context [trace ?x] => rewrite Htr
    end;
  simpl_store; rewrite <- ?app_assoc; cbn [app]; reflexivity.

Ltac count_cleanups :=
  rewrite ?new_events_refl;
  try (erewrite (new_events_app _ _) by exit_trace);
  repeat first [ rewrite cleanups_app | rewrite cleanups_cons ];
  repeat match goal with
    | Hone : cleanups ?evs = 1%nat |- context [cleanups ?evs] => rewrite Hone
    end;
  cbn [cleanups List.filter is_cleanup length Nat.add].

(** What is left of the session directory is what could not be removed. *)
Ltac session_left :=
  repeat match goal with
    | H : temp_base_dir_path ?x = _, H' : context [temp_base_dir_path ?x] |- _ =>
        rewrite H in H'
    | H : session ?x = _, H' : context [session ?x] |- _ =>
        rewrite H in H'
    end;
  repeat case_match; simplify_eq;
  first [ congruence | by eapply rmtree_idem; eassumption
        | symmetry; by eapply rmtree_idem; eassumption ].

(** A second call of [cleanup] means the first left something. *)
Ltac session_kept :=
  repeat match goal with
    | H : temp_base_dir_path ?x = _, H' : context [temp_base_dir_path ?x] |- _ =>
        rewrite H in H'
    | H : session ?x = _, H' : context [session ?x] |- _ =>
        rewrite H in H'
    end;
  repeat case_match; simplify_eq;
  repeat match goal with
    | H : rmtree _ _ = Some _ |- _ => apply rmtree_idem in H
    | H : Some _ = rmtree _ _ |- _ => symmetry in H; apply rmtree_idem in H
    end;
  congruence.

(** Socat after the calls of [cleanup]. *)
Ltac socat_gone :=
  repeat match goal with
    | H : use_socat_globally ?x = _, H' : context [use_socat_globally ?x] |- _ =>
        rewrite H in H'
    | H : socat_process ?x = _, H' : context [socat_process ?x] |- _ =>
        rewrite H in H'
    end;
  repeat match goal with
    | H : _ ∨ _ → procs _ = procs _ |- _ =>
        rewrite H by (first [ by left | by right ])
    | H : true = true → Some Socat = Some Socat → _ |- _ =>
        specialize (H eq_refl eq_refl)
    end;
  first [ done | by split ].

Section ExitStage2.
Variable w : world.

(** The main block after [main_logic]. *)
Lemma main_block_exit a s r s1 rf sf :
  main_logic w a s = (r, s1) →
  main_block w a s = (rf, sf) →
  temp_base_dir_path sf = temp_base_dir_path s1
  ∧ (cleanups (new_events s1 sf) ≤ 2)%nat
  ∧ (cleanups (new_events s1 sf) = 2%nat → session sf ≠ None)
  ∧ (temp_base_dir_path s1 ≠ None →
     (∀ root, session sf = Some root →
              rmtree (w_cwd_writable w) root = Some root)
     ∧ ((∃ e, r = Raise e) →
        (1 ≤ cleanups (new_events s1 sf))%nat
        ∧ (use_socat_globally s1 = true → socat_process s1 = Some Socat →
           socat_process sf = None ∧ gone (pt_socat (procs sf))))).
Proof.
  intros Hmain Hblock. unfold main_block, try_finally, try_except in Hblock.
  rewrite Hmain in Hblock. unfold fallback_cleanup in Hblock.
  destruct r as [[]|e].
  - unfold_monad. simpl_store. repeat (case_match; simplify_eq).
    all: open_cleanups; simpl_store.
    all: split; [congruence|].
    all: count_cleanups.
    all: split; [lia|]. all: split; [intros; lia|].
    all: intros Htb; split; [|by intros [? [=]]].
    all: intros root Hroot; session_left.
  - destruct e; cbn [isinstance] in Hblock.
    all: unfold_monad; simpl_store.
    all: repeat (case_match; simplify_eq); simpl_store.
    all: open_cleanups; simpl_store.
    all: split; [congruence|].
    all: count_cleanups.
    all: split; [lia|].
    all: split; [first [ intros; lia | intros _; session_kept ]|].
    all: intros Htb; try congruence.
    all: split; [intros root Hroot; session_left|].
    all: intros _; split; [lia|].
    all: intros Hu Hs; socat_gone.
Qed.

End ExitStage2.

(** *** Whole runs *)

Ltac journey_cases :=
  repeat match goal with
    | H : journey _ _ (_ :: _) _ _ _ |- _ => inversion H; subst; clear H
    | H : journey _ _ [] _ _ _ |- _ => inversion H; subst; clear H
    end.

Ltac open_outcomes :=
  repeat match goal with
    | H : stage_outcome _ _ _ _ _ _ |- _ =>
        unfold stage_outcome in H; cbv beta iota in H
    end;
  destruct_and?.

Lemma error_report_not_exit e :
  is_error_report e = true → emitted_by StExit e = false.
Proof. by destruct e as [[]| | | | | | | | |]. Qed.

Lemma resolver_error_stage st e :
  is_resolver_error e = true → emitted_by st e = true → st = StTools.
Proof. by destruct e as [[]| | | | | | | | |], st. Qed.

(** Use what a stage says of its error reports. *)
Ltac report_found Hin Hrep :=
  match type of Hin with
  | ?e ∈ new_events ?x ?y =>
      first
        [ match goal with
          | Hf : ∀ e, e ∈ new_events x y → is_error_report e = true → _ |- _ =>
              specialize (Hf _ Hin Hrep); by simplify_eq
          end
        | match goal with
          | Hv : Forall (fun e => emitted_by StExit e = true) (new_events x y) |- _ =>
              rewrite Forall_forall in Hv; specialize (Hv _ Hin);
              by rewrite (error_report_not_exit _ Hrep) in Hv
          end ]
  end.

(** Use what the stage a run ended in says of how it ended. *)
Ltac how_it_ended :=
  repeat match goal with
    | H : ∀ r0, Some ?r = Some r0 → _ |- _ => specialize (H _ eq_refl)
    end.

(** Find the stage that logged a resolver error. *)
Ltac resolver_logged Hin Herr :=
  match type of Hin with
  | ?e ∈ new_events ?x ?y =>
      match goal with
      | Hv : Forall (fun e => emitted_by ?st e = true) (new_events x y) |- _ =>
          let Hst := fresh in
          pose proof (resolver_error_stage st e Herr
                        (proj1 (Forall_forall _ _) Hv _ Hin)) as Hst;
          try discriminate Hst; clear Hst
      end
  end.

(** Use what a stage says of a line it logged. *)
Ltac told Hin :=
  match type of Hin with
  | ?e ∈ ?evs =>
      match goal with
      | H : e ∈ evs → _ |- _ =>
          specialize (H Hin); destruct_and?; by simplify_eq
      end
  end.

Section HarnessOutcomes.
Variable w : world.

(** X14. Whenever the harness prints one of the error reports of
    [main_logic] (the resolver's apart), the script exits with status
    1. *)
Theorem error_report_means_failure a code s e :
  run_script w a = (code, s) →
  e ∈ trace s → is_error_report e = true →
  code = 1.
Proof.
  intros Hscript Hin Hrep.
  apply run_script_journey in Hscript
    as (r & s1 & _ & _ & Hrun & Hexit & -> & _).
  unfold all_stages in Hrun. journey_cases.
  all: open_steps; open_outcomes; init_store.
  all: unfold_log; rewrite ?elem_of_app in Hin; destruct_or?;
    try (by apply elem_of_nil in Hin).
  all: report_found Hin Hrep.
Qed.

(** X15. Whenever the harness prints that the test passed, the script
    exits with status 0, the extraction tool, the sender and the
    comparison tool all returned 0, and the receiver and the sender have
    both exited with status 0. *)
Theorem passed_means_all_succeeded a code s :
  run_script w a = (code, s) →
  EvPrint MsgPassed ∈ trace s →
  code = 0
  ∧ w_extract w = Completed 0
  ∧ w_send w = Completed 0
  ∧ w_compare w = Completed 0
  ∧ pt_receiver (procs s) = Some (Exited 0)
  ∧ pt_sender (procs s) = Some (Exited 0).
Proof.
  intros Hscript Hin.
  apply run_script_journey in Hscript
    as (r & s1 & _ & _ & Hrun & Hexit & -> & _).
  unfold all_stages in Hrun. journey_cases.
  all: open_steps; open_outcomes; init_store.
  all: who_logged Hin.
  all: chase.
  repeat split; congruence.
Qed.

(** X16. The script exits with status 0 in three cases only: it printed
    that the test passed, it printed that there was nothing to transfer,
    or [check_command] reported a tool it could not use (after which
    [main_logic] returns). Resolving a link is taken to raise nothing but
    ordinary exceptions. *)
Theorem exit_status_zero_iff a code s :
  resolve_raises_exceptions w →
  run_script w a = (code, s) →
  code = 0
  ↔ (EvPrint MsgPassed ∈ trace s
     ∨ EvPrint MsgNoFilesToTransfer ∈ trace s
     ∨ ∃ e, e ∈ trace s ∧ is_resolver_error e = true).
Proof.
  intros Hexn Hscript.
  apply run_script_journey in Hscript
    as (r & s1 & _ & _ & Hrun & Hexit & -> & _).
  unfold all_stages in Hrun. journey_cases.
  all: open_steps; open_outcomes; init_store.
  all: split.
  (* an exit status of 0 has one of three reasons *)
  all: try match goal with
    | |- exit_status _ = 0 → _ =>
        intros Hz; how_it_ended; forward; how_it_ended; simplify_eq;
        try done; try congruence;
        try match goal with
          | H : match ?r with Return _ => _ | Raise _ => _ end |- _ =>
              destruct r as [[]|];
              [ destruct H as (? & ? & Hnew & ?)
              | destruct H as [-> _]; discriminate Hz ]
          end;
        unfold_log; rewrite ?Hnew;
        first [ left; rewrite !elem_of_app; tauto
              | right; left; rewrite !elem_of_app; tauto
              | right; right; eexists; split; [|eassumption];
                rewrite !elem_of_app, elem_of_cons; tauto ]
    end.
  (* and each of them gives 0 *)
  all: intros [Hin|[Hin|(e & Hin & Herr)]];
    [ who_logged Hin; told Hin | who_logged Hin; told Hin | ].
  all: unfold_log; rewrite ?elem_of_app in Hin; destruct_or?;
    try (by apply elem_of_nil in Hin).
  all: resolver_logged Hin Herr.
  all: try match goal with
       | Hf : Forall (fun e => is_resolver_error e = false) ?evs,
         Hin : _ ∈ ?evs |- _ =>
           pose proof (proj1 (Forall_forall _ _) Hf _ Hin); congruence
       end.
  all: match goal with
       | H : match ?r with Return _ => _ | Raise _ => _ end |- _ =>
           destruct r as [[]|]; [done|destruct H as [_ Hf]]
       end.
  all: pose proof (proj1 (Forall_forall _ _) Hf _ Hin); congruence.
Qed.

End HarnessOutcomes.

Lemma popens_cons e tr :
  popens (e :: tr) = (if e is EvPopen p _ then [p] else []) ++ popens tr.
Proof. by destruct e. Qed.

Lemma popens_none st evs :
  Forall (fun e => emitted_by st e = true) evs →
  st ≠ StSocat → st ≠ StTransfer →
  popens evs = [].
Proof.
  intros Hf Hs Ht. induction Hf as [|e evs He _ IH]; [done|].
  rewrite popens_cons, IH.
  destruct e as [| p argv | | | | | | | |]; try done.
  by destruct st, p.
Qed.

Lemma cleanups_none st evs :
  Forall (fun e => emitted_by st e = true) evs → st ≠ StExit →
  cleanups evs = 0%nat.
Proof.
  intros Hf Hst. induction Hf as [|e evs He _ IH]; [done|].
  rewrite cleanups_cons, IH.
  destruct e as [[]| | | | | | | | |]; try done. by destruct st.
Qed.

Lemma popens_elem_of p argv tr : EvPopen p argv ∈ tr → p ∈ popens tr.
Proof.
  intros Hin. unfold popens. apply list_elem_of_omap.
  by exists (EvPopen p argv).
Qed.

Section HarnessExit.
Variable w : world.

(** The whole script: the journey of [main_logic], then the main block. *)
Lemma run_script_exit a code sf :
  run_script w a = (code, sf) →
  ∃ r s1,
    journey w a all_stages (initial_state w) r s1
    ∧ stage_step StExit s1 sf
    ∧ code = exit_status r
    ∧ temp_base_dir_path sf = temp_base_dir_path s1
    ∧ (cleanups (new_events s1 sf) ≤ 2)%nat
    ∧ (cleanups (new_events s1 sf) = 2%nat → session sf ≠ None)
    ∧ (socat_process s1 = None → procs sf = procs s1 ∧ socat_process sf = None)
    ∧ (temp_base_dir_path s1 ≠ None →
       (∀ root, session sf = Some root →
                rmtree (w_cwd_writable w) root = Some root)
       ∧ ((∃ e, r = Raise e) →
          (1 ≤ cleanups (new_events s1 sf))%nat
          ∧ (use_socat_globally s1 = true → socat_process s1 = Some Socat →
             socat_process sf = None ∧ gone (pt_socat (procs sf))))).
Proof.
  intros Hscript.
  apply run_script_journey in Hscript
    as (r & s1 & Hmain & Hblock & Hrun & Hexit & -> & Hoff & _).
  destruct (main_block w a (initial_state w)) as [rf sf'] eqn:Hb.
  cbn [snd] in Hblock. subst sf'.
  destruct (main_block_exit _ _ _ _ _ _ _ Hmain Hb) as (Htmp & Hle & Htwo & Hrest).
  exists r, s1. do 7 (split; [done|]). exact Hrest.
Qed.

End HarnessExit.

Section SocatLifetime.
Variable w : world.

(** X17. However the script ends, the socat handle is cleared and socat,
    if it was ever started, has exited or been killed. *)
Theorem socat_never_outlives_script a code s :
  run_script w a = (code, s) →
  socat_process s = None
  ∧ (pt_socat (procs s) = None ∨ gone (pt_socat (procs s))).
Proof.
  intros Hscript.
  apply run_script_exit in Hscript
    as (r & s1 & Hrun & Hexit & -> & Htmp & _ & _ & Hoff & Hon).
  unfold all_stages in Hrun. journey_cases.
  all: open_steps; open_outcomes; init_store.
  all: chase.
  all: try (split; [congruence|left; congruence]).
  all: destruct r as [u|e];
    [match goal with
     | H : ∀ u, Some (Return ?x) ≠ Some (Return u) |- _ =>
         exact (False_ind _ (H x eq_refl))
     end|].
  all: match goal with
       | H : socat_process _ = None ∧ _ ∨ _ |- _ =>
           destruct H as [(? & ? & ?)|(? & ? & ? & ?)]
       end.
  all: try (destruct Hoff as [? ?]; [congruence|];
            split; [done|left; congruence]).
  all: match goal with
       | H : (∃ e, Raise _ = Raise e) → _ |- _ =>
           destruct H as [_ [? ?]]; [by eexists|congruence|congruence|]
       end.
  all: by split; [|right].
Qed.

(** X18. Socat is started only on a host that is not Windows and only
    when neither port was given on the command line. *)
Theorem socat_only_when_needed a code s argv :
  run_script w a = (code, s) →
  EvPopen Socat argv ∈ trace s →
  w_platform_win32 w = false
  ∧ truthy (com_port_recv_arg a) = false
  ∧ truthy (com_port_send_arg a) = false.
Proof.
  intros Hscript Hin.
  apply run_script_journey in Hscript
    as (r & s1 & _ & _ & Hrun & Hexit & -> & _).
  unfold all_stages in Hrun. journey_cases.
  all: open_steps; open_outcomes; init_store.
  all: who_logged Hin.
  all: apply popens_elem_of in Hin.
  all: chase.
  all: match goal with
       | H : socat_process _ = None ∧ _ ∨ _ |- _ =>
           destruct H as [(? & ? & Hp)|(? & ? & ? & Hp)]
       end; rewrite Hp in Hin; [by apply elem_of_nil in Hin|].
  all: chase; done.
Qed.

End SocatLifetime.

Lemma started_gone st : gone st → started st = true.
Proof. by destruct st as [[]|]. Qed.

Lemma started_is_Some st : started st = true ↔ is_Some st.
Proof.
  destruct st; cbn; split; first [done | by eexists | by intros [? ?]].
Qed.

(** No stage but the socat and the transfer stage starts a process. *)
Ltac count_popens :=
  unfold_log; rewrite ?popens_app;
  repeat match goal with
    | Hv : Forall (fun e => emitted_by ?st e = true) ?evs
      |- context [popens ?evs] =>
        rewrite (popens_none st evs Hv) by done
    end.

Section ProcessesStarted.
Variable w : world.

(** X19. The processes the script starts are, in this order, socat, the
    receiver and the sender, each at most once; the sender is never
    started without the receiver. *)
Theorem processes_started_in_order a code s :
  run_script w a = (code, s) →
  popens (trace s)
  = (if started (pt_socat (procs s)) then [Socat] else [])
      ++ (if started (pt_receiver (procs s)) then [Receiver] else [])
      ++ (if started (pt_sender (procs s)) then [Sender] else [])
  ∧ (started (pt_sender (procs s)) = true →
     started (pt_receiver (procs s)) = true).
Proof.
  intros Hscript.
  apply run_script_exit in Hscript
    as (r & s1 & Hrun & Hexit & -> & Htmp & _ & _ & Hoff & Hon).
  unfold all_stages in Hrun. journey_cases.
  all: open_steps; open_outcomes; init_store.
  all: count_popens.
  all: chase.
  all: rewrite ?started_is_Some.
  all: try match goal with
         | H : socat_process _ = None ∧ _ ∨ _ |- _ =>
             destruct H as [(? & ? & Hp)|(? & ? & ? & Hp)]; rewrite Hp
         end.
  all: chase.
  all: try match goal with
         | H : (∃ e, ?r = Raise e) → _ |- _ =>
             destruct r as [u|e];
             [match goal with
              | H : ∀ u, Some (Return ?x) ≠ Some (Return u) |- _ =>
                  exact (False_ind _ (H x eq_refl))
              end|];
             destruct H as [_ [? Hg]]; [by eexists|congruence|congruence|];
             apply started_gone in Hg; rewrite Hg
         end.
  all: repeat match goal with
         | H : ?x = None |- context [?x] => rewrite H
         | H : ?x = ?y |- context [?x] => rewrite H
         end.
  all: cbn [popens omap list_omap started app]; rewrite ?app_nil_r.
  all: try done.
Qed.

(** X20. When the two ports are not both given, the receiver and the
    sender are started, if at all, on the two devices the polling loop
    resolved the socat links to. Resolving a link is taken to raise
    nothing but what the loop catches. *)
Theorem loopback_endpoints_are_resolved_devices a code s :
  run_script w a = (code, s) →
  both_ports a = false →
  resolve_errors_caught w →
  (∀ argv, EvPopen Receiver argv ∈ trace s →
           is_Some (argv !! 1%nat)
           ∧ (readiness_after w max_pty_wait_seconds 0 None None).1
             = argv !! 1%nat)
  ∧ (∀ argv, EvPopen Sender argv ∈ trace s →
             is_Some (argv !! 1%nat)
             ∧ (readiness_after w max_pty_wait_seconds 0 None None).2
               = argv !! 1%nat).
Proof.
  intros Hscript Hboth Hcaught.
  apply run_script_journey in Hscript
    as (r & s1 & _ & _ & Hrun & Hexit & -> & _).
  unfold all_stages in Hrun. journey_cases.
  all: open_steps; open_outcomes; init_store.
  all: rewrite ?Hboth in *; cbn [negb] in *.
  all: chase.
  all: split; intros argv Hin; who_logged Hin.
  all: match goal with
       | Hin : _ ∈ new_events _ _, Hargv : ∀ argv : list string, _ |- _ =>
           rewrite (Hargv _ Hin)
       end.
  all: split; [by eexists|].
  all: match goal with
       | |- _ = Some (port_arg ?p) =>
           let Hs := fresh in
           assert (is_Some p) as [? Hs]
             by (repeat match goal with H : p = _ |- _ => rewrite H end;
                 assumption);
           rewrite Hs; cbn [port_arg default id]; congruence
       end.
Qed.

End ProcessesStarted.

(** Only the exit stage calls [cleanup]. *)
Ltac count_cleanup_calls :=
  unfold_log; rewrite ?cleanups_app;
  repeat match goal with
    | Hv : Forall (fun e => emitted_by ?st e = true) ?evs
      |- context [cleanups ?evs] =>
        rewrite (cleanups_none st evs Hv) by done
    end;
  cbn [cleanups List.filter length Nat.add].

Section SessionRemoval.
Variable w : world.

(** X21. Once the session path is set, whatever is left of the session
    directory when the script ends is what [shutil.rmtree] cannot
    remove. *)
Theorem leftover_session_is_unremovable a code s root :
  run_script w a = (code, s) →
  temp_base_dir_path s ≠ None →
  session s = Some root →
  rmtree (w_cwd_writable w) root = Some root.
Proof.
  intros Hscript Htb Hroot.
  apply run_script_exit in Hscript
    as (r & s1 & _ & _ & _ & Htmp & _ & _ & _ & Hon).
  rewrite Htmp in Htb. destruct (Hon Htb) as [Hleft _]. by apply Hleft.
Qed.

(** X22. [cleanup] is entered at most twice in a run, at least once when
    the session path was set, and twice only when the session directory
    is still there at the end. *)
Theorem cleanup_called_once_or_twice a code s :
  run_script w a = (code, s) →
  (cleanups (trace s) ≤ 2)%nat
  ∧ (temp_base_dir_path s ≠ None → (1 ≤ cleanups (trace s))%nat)
  ∧ (cleanups (trace s) = 2%nat → session s ≠ None).
Proof.
  intros Hscript.
  apply run_script_exit in Hscript
    as (r & s1 & Hrun & Hexit & -> & Htmp & Hle & Htwo & _ & Hon).
  rewrite Htmp.
  assert (temp_base_dir_path s1 ≠ None → ∃ e, r = Raise e) as Hraised.
  { intros Htb. destruct r as [u|e]; [exfalso|by eexists].
    unfold all_stages in Hrun. journey_cases.
    all: open_steps; open_outcomes; init_store.
    all: try congruence.
    all: match goal with
         | H : _ ≠ StTools → ∀ u, Some (Return ?x) ≠ Some (Return u) |- _ =>
             exact (H ltac:(done) x eq_refl)
         end. }
  assert (cleanups (trace s) = cleanups (new_events s1 s)) as ->.
  { unfold all_stages in Hrun. journey_cases.
    all: open_steps; init_store.
    all: count_cleanup_calls; done. }
  split; [done|]. split; [|done].
  intros Htb. by destruct (Hon Htb) as [_ [? _]]; [apply Hraised|].
Qed.

End SessionRemoval.

(** *** Single functions of the harness *)

Lemma find_child_app name cs c :
  find_child name (cs ++ [c])
  = match find_child name cs with
    | Some d => Some d
    | None => if String.eqb (node_name c) name then Some c else None
    end.
Proof.
  unfold find_child. induction cs as [|d cs IH]; cbn [app List.find].
  - by destruct (String.eqb (node_name c) name).
  - by destruct (String.eqb (node_name d) name).
Qed.

(** A directory that [mkdir] made, or found, can be listed. *)
Lemma mkdir_iterdir cwd_w root_name name root root' :
  mkdir cwd_w root_name name root = Return root' →
  ∃ entries, iterdir name root' = Return entries
             ∧ (root = None → entries = []).
Proof.
  unfold mkdir, iterdir. intros Hmk.
  repeat (case_match; simplify_eq); try by eexists.
  all: try (rewrite find_child_app in *; repeat (case_match; simplify_eq)).
  all: try by eexists.
  all: cbn [find_child List.find node_name] in *.
  all: rewrite ?String.eqb_refl in *; simplify_eq.
  all: try by eexists.
Qed.

(** [mkdir] of one directory leaves the listing of another as it was. *)
Lemma mkdir_keeps cwd_w root_name name name' root root' entries :
  mkdir cwd_w root_name name' root = Return root' →
  iterdir name root = Return entries →
  iterdir name root' = Return entries.
Proof.
  unfold mkdir, iterdir. intros Hmk Hit.
  repeat (case_match; simplify_eq); try done.
  all: rewrite find_child_app in *; repeat (case_match; simplify_eq); done.
Qed.

Section HarnessFunctions.
Variable w : world.

(** X23. When the set-up of the temporary directories returns, it returns
    the session path it stored in the global, both sub-directories exist,
    and they are empty if no earlier session directory was there or the
    earlier one could be removed entirely. *)
Theorem setup_directories_provisions s base s' :
  setup_directories w s = (Return base, s') →
  base = path_join (w_path_str w (w_cwd w)) (TEMP_BASE_DIR_NAME w)
  ∧ temp_base_dir_path s' = Some base
  ∧ (∃ extracted received,
       iterdir EXTRACTED_DIR_NAME (session s') = Return extracted
       ∧ iterdir RECEIVED_DIR_NAME (session s') = Return received
       ∧ ((if session s is Some root
           then rmtree (w_cwd_writable w) root = None else True) →
          extracted = [] ∧ received = [])).
Proof.
  unfold setup_directories. intros Hrun. run_stage.
  all: split; [done|]. all: split; [done|].
  all: match goal with
       | H1 : mkdir _ _ EXTRACTED_DIR_NAME ?r0 = Return ?r1,
         H2 : mkdir _ _ RECEIVED_DIR_NAME ?r1 = Return ?r2 |- _ =>
           destruct (mkdir_iterdir _ _ _ _ _ H1) as (ex & Hex & Hex0);
           destruct (mkdir_iterdir _ _ _ _ _ H2) as (re & Hre & Hre0);
           pose proof (mkdir_keeps _ _ _ _ _ _ _ H2 Hex) as Hex';
           exists ex, re
       end.
  all: split; [done|]. all: split; [done|].
  all: intros Hnone; rewrite ?Hnone in *.
  all: try match goal with
         | H : session ?x = None, H' : mkdir _ _ _ (session ?x) = _ |- _ =>
             rewrite H in H'
         end.
  all: match goal with
       | H1 : mkdir _ _ EXTRACTED_DIR_NAME None = Return _,
         H2 : mkdir _ _ RECEIVED_DIR_NAME _ = Return _ |- _ =>
           unfold mkdir in H1; case_match; simplify_eq;
           cbn in H2, Hex; simplify_eq; cbn in Hre; by simplify_eq
       end.
Qed.

(** X24. [cleanup] always returns. It signals no process but the one
    behind the socat handle, and that only when socat was in use: it
    terminates it, and kills it only if it has not exited within the
    wait; the process is gone afterwards and the handle is cleared. No
    other process changes. *)
Theorem cleanup_stops_only_socat s :
  ∃ s', cleanup w s = (Return tt, s')
    ∧ (∀ q, socat_process s ≠ Some q →
            pt_get (procs s') q = pt_get (procs s) q)
    ∧ (∀ q, EvTerminate q ∈ new_events s s' ∨ EvKill q ∈ new_events s s' →
            use_socat_globally s = true ∧ socat_process s = Some q)
    ∧ (use_socat_globally s = true → ∀ p, socat_process s = Some p →
       gone (pt_get (procs s') p)
       ∧ socat_process s' = None
       ∧ EvTerminate p ∈ new_events s s'
       ∧ (EvKill p ∈ new_events s s' →
          w_exits_on_terminate w = false ∧ pt_get (procs s') p = Some Killed)).
Proof.
  destruct (cleanup w s) as [r s'] eqn:Hrun.
  destruct (cleanup_inv _ _ _ _ Hrun) as (-> & _ & _ & _ & _ & Hsp & Hpr & _).
  destruct (cleanup_effect _ _ _ _ Hrun) as (_ & _ & Honly & Hsocat).
  exists s'. split; [done|].
  split; [|split; [exact Honly|]].
  - intros q Hq. destruct (use_socat_globally s) eqn:Huse.
    + destruct (socat_process s) as [p|] eqn:Hp.
      * destruct (Hsocat eq_refl p eq_refl) as (_ & Hothers & _).
        apply Hothers. congruence.
      * by rewrite Hpr by by right.
    + by rewrite Hpr by by left.
  - intros Huse p Hp. rewrite Huse in Hsp.
    destruct (Hsocat Huse p Hp) as (? & _ & ? & ?). done.
Qed.

(** X25. With exactly one port given, or with none on Windows, the
    script prints its banner and the matching error, exits with status 1
    and has done nothing else: no cleanup, no directory, no process. *)
Theorem port_arguments_validated a :
  both_ports a = false →
  truthy (com_port_recv_arg a) || truthy (com_port_send_arg a)
  || w_platform_win32 w = true →
  run_script w a
  = (1, set_trace [EvPrint MsgStarting;
                   EvPrint (if truthy (com_port_recv_arg a)
                               || truthy (com_port_send_arg a)
                            then MsgErrBothPorts else MsgErrWindowsNeedsPorts);
                   EvPrint (MsgExitingWithCode 1)]
                  (initial_state w)).
Proof.
  unfold both_ports. intros Hboth Hbad.
  unfold run_script, main_block, try_finally, fallback_cleanup, main_logic,
    port_strategy.
  rewrite Hboth.
  destruct (truthy (com_port_recv_arg a) || truthy (com_port_send_arg a)).
  - reflexivity.
  - cbn [orb] in Hbad. rewrite Hbad. reflexivity.
Qed.

End HarnessFunctions.

Import Leftover.

(** *** Example runs *)

(** Links that never appear: the timeout is reported and the exit status
    is 1. *)
Lemma error_report_means_failure_witness :
  let w := posix_world 20 two_files (Completed 0) [] None in
  ∃ code s,
    run_script w (tool_args None None) = (code, s)
    ∧ EvPrint MsgErrPtyTimeout ∈ trace s
    ∧ code = 1.
Proof.
  cbv zeta. eexists _, _. split; [vm_compute; reflexivity|].
  split; [vm_compute; in_log|].
  eapply (error_report_means_failure
            (posix_world 20 two_files (Completed 0) [] None)
            (tool_args None None) _ _ (EvPrint MsgErrPtyTimeout)).
  - vm_compute. reflexivity.
  - vm_compute. in_log.
  - reflexivity.
Defined.

(** A run in which everything works. *)
Lemma passed_means_all_succeeded_witness :
  let w := posix_world 2 two_files (Completed 0) [] None in
  ∃ code s,
    run_script w (tool_args None None) = (code, s)
    ∧ EvPrint MsgPassed ∈ trace s
    ∧ code = 0
    ∧ w_extract w = Completed 0
    ∧ w_send w = Completed 0
    ∧ w_compare w = Completed 0
    ∧ pt_receiver (procs s) = Some (Exited 0)
    ∧ pt_sender (procs s) = Some (Exited 0).
Proof.
  cbv zeta. eexists _, _. split; [vm_compute; reflexivity|].
  split; [vm_compute; in_log|].
  eapply (passed_means_all_succeeded
            (posix_world 2 two_files (Completed 0) [] None)
            (tool_args None None)).
  - vm_compute. reflexivity.
  - vm_compute. in_log.
Defined.

(** Nothing to transfer: the exit status is 0, and the log says why. *)
Lemma exit_status_zero_iff_witness :
  let w := posix_world 2 [] (Completed 0) [] None in
  resolve_raises_exceptions w
  ∧ ∃ code s,
      run_script w (tool_args None None) = (code, s)
      ∧ (code = 0
         ↔ (EvPrint MsgPassed ∈ trace s
            ∨ EvPrint MsgNoFilesToTransfer ∈ trace s
            ∨ ∃ e, e ∈ trace s ∧ is_resolver_error e = true)).
Proof.
  cbv zeta.
  assert (resolve_raises_exceptions (posix_world 2 [] (Completed 0) [] None))
    as Hexn by (intros ep i e Hres; discriminate Hres).
  split; [exact Hexn|].
  eexists _, _. split; [vm_compute; reflexivity|].
  eapply (exit_status_zero_iff (posix_world 2 [] (Completed 0) [] None)
            (tool_args None None) _ _ Hexn).
  vm_compute. reflexivity.
Defined.

(** Socat after a run in which everything works. *)
Lemma socat_never_outlives_script_witness :
  let w := posix_world 2 two_files (Completed 0) [] None in
  ∃ code s,
    run_script w (tool_args None None) = (code, s)
    ∧ socat_process s = None
    ∧ (pt_socat (procs s) = None ∨ gone (pt_socat (procs s))).
Proof.
  cbv zeta. eexists _, _. split; [vm_compute; reflexivity|].
  eapply (socat_never_outlives_script
            (posix_world 2 two_files (Completed 0) [] None)
            (tool_args None None)).
  vm_compute. reflexivity.
Defined.

(** Socat was started: no port was given, and the host is not Windows. *)
Lemma socat_only_when_needed_witness :
  let w := posix_world 2 two_files (Completed 0) [] None in
  ∃ code s argv,
    run_script w (tool_args None None) = (code, s)
    ∧ EvPopen Socat argv ∈ trace s
    ∧ w_platform_win32 w = false
    ∧ truthy (com_port_recv_arg (tool_args None None)) = false
    ∧ truthy (com_port_send_arg (tool_args None None)) = false.
Proof.
  cbv zeta. eexists _, _, _. split; [vm_compute; reflexivity|].
  split; [vm_compute; in_log|].
  eapply (socat_only_when_needed
            (posix_world 2 two_files (Completed 0) [] None)
            (tool_args None None)).
  - vm_compute. reflexivity.
  - vm_compute. in_log.
Defined.

(** The three processes of a run in which everything works. *)
Lemma processes_started_in_order_witness :
  let w := posix_world 2 two_files (Completed 0) [] None in
  ∃ code s,
    run_script w (tool_args None None) = (code, s)
    ∧ popens (trace s) = [Socat; Receiver; Sender]
    ∧ popens (trace s)
      = (if started (pt_socat (procs s)) then [Socat] else [])
          ++ (if started (pt_receiver (procs s)) then [Receiver] else [])
          ++ (if started (pt_sender (procs s)) then [Sender] else []).
Proof.
  cbv zeta. eexists _, _. split; [vm_compute; reflexivity|].
  split; [vm_compute; reflexivity|].
  refine (proj1 (processes_started_in_order
                   (posix_world 2 two_files (Completed 0) [] None)
                   (tool_args None None) _ _ _)).
  vm_compute. reflexivity.
Defined.

(** The receiver is started on the device the first link resolved to. *)
Lemma loopback_endpoints_are_resolved_devices_witness :
  let w := posix_world 2 two_files (Completed 0) [] None in
  both_ports (tool_args None None) = false
  ∧ resolve_errors_caught w
  ∧ ∃ code s,
      run_script w (tool_args None None) = (code, s)
      ∧ ∀ argv, EvPopen Receiver argv ∈ trace s →
                is_Some (argv !! 1%nat)
                ∧ (readiness_after w max_pty_wait_seconds 0 None None).1
                  = argv !! 1%nat.
Proof.
  cbv zeta. split; [reflexivity|].
  assert (resolve_errors_caught (posix_world 2 two_files (Completed 0) [] None))
    as Hcaught by (intros ep i e Hres; discriminate Hres).
  split; [exact Hcaught|].
  eexists _, _. split; [vm_compute; reflexivity|].
  refine (proj1 (loopback_endpoints_are_resolved_devices
                   (posix_world 2 two_files (Completed 0) [] None)
                   (tool_args None None) _ _ _ eq_refl Hcaught)).
  vm_compute. reflexivity.
Defined.

(** A stale session directory that cannot be emptied is still there
    after the run. *)
Lemma leftover_session_is_unremovable_witness :
  let w := with_stale_session (posix_world 2 two_files (Completed 0) [] None) in
  ∃ code s root,
    run_script w (tool_args None None) = (code, s)
    ∧ temp_base_dir_path s ≠ None
    ∧ session s = Some root
    ∧ rmtree (w_cwd_writable w) root = Some root.
Proof.
  cbv zeta. eexists _, _, _. split; [vm_compute; reflexivity|].
  split; [vm_compute; discriminate|].
  split; [vm_compute; reflexivity|].
  eapply (leftover_session_is_unremovable
            (with_stale_session (posix_world 2 two_files (Completed 0) [] None))
            (tool_args None None)).
  - vm_compute. reflexivity.
  - vm_compute. discriminate.
  - vm_compute. reflexivity.
Defined.

(** One call of [cleanup] in a run in which everything works. *)
Lemma cleanup_called_once_or_twice_witness :
  let w := posix_world 2 two_files (Completed 0) [] None in
  ∃ code s,
    run_script w (tool_args None None) = (code, s)
    ∧ cleanups (trace s) = 1%nat
    ∧ (cleanups (trace s) ≤ 2)%nat.
Proof.
  cbv zeta. eexists _, _. split; [vm_compute; reflexivity|].
  split; [vm_compute; reflexivity|].
  refine (proj1 (cleanup_called_once_or_twice
                   (posix_world 2 two_files (Completed 0) [] None)
                   (tool_args None None) _ _ _)).
  vm_compute. reflexivity.
Defined.

(** The two directories of a fresh session. *)
Lemma setup_directories_provisions_witness :
  let w := posix_world 2 two_files (Completed 0) [] None in
  ∃ base s',
    setup_directories w (initial_state w) = (Return base, s')
    ∧ base = "/work/test_send_recv_temp_4242"
    ∧ temp_base_dir_path s' = Some base
    ∧ iterdir EXTRACTED_DIR_NAME (session s') = Return []
    ∧ iterdir RECEIVED_DIR_NAME (session s') = Return [].
Proof.
  cbv zeta. eexists _, _. split; [vm_compute; reflexivity|].
  split; [reflexivity|].
  destruct (setup_directories_provisions
              (posix_world 2 two_files (Completed 0) [] None)
              (initial_state (posix_world 2 two_files (Completed 0) [] None))
              _ _ eq_refl)
    as (_ & Htmp & ex & re & Hex & Hre & Hfresh).
  destruct (Hfresh I) as [-> ->].
  exact (conj Htmp (conj Hex Hre)).
Defined.

(** One port only: the script refuses to start. *)
Lemma port_arguments_validated_witness :
  let w := posix_world 2 two_files (Completed 0) [] None in
  let a := tool_args (Some "COM1") None in
  both_ports a = false
  ∧ (run_script w a).1 = 1
  ∧ trace (run_script w a).2
    = [EvPrint MsgStarting; EvPrint MsgErrBothPorts;
       EvPrint (MsgExitingWithCode 1)].
Proof.
  cbv zeta. split; [reflexivity|].
  rewrite (port_arguments_validated
             (posix_world 2 two_files (Completed 0) [] None)
             (tool_args (Some "COM1") None) eq_refl eq_refl).
  split; reflexivity.
Defined.

(** C2 as the claim has it does not hold: the receiver of a failed
    transfer is signalled and nothing more. On a host whose processes take
    more than half a second over SIGTERM, the sender exits with status 3
    and the script exits with status 1 while the receiver has only been
    sent SIGTERM: its [poll()] still gives [None], a [wait(timeout=0.5)]
    on it would time out, and of the three processes only socat was
    waited for and killed. *)
Lemma sender_failure_leaves_receiver_signalled :
  let w := slow_to_exit (posix_world 2 two_files (Completed 3) [] None) in
  let outcome := run_script w (tool_args None None) in
  outcome.1 = 1
  ∧ pt_sender (procs outcome.2) = Some (Exited 3)
  ∧ pt_receiver (procs outcome.2) = Some Terminated
  ∧ (poll w Receiver outcome.2).1 = Return None
  ∧ (wait_timeout w Receiver outcome.2).1 = Raise TimeoutExpired
  ∧ List.filter (fun e => match e with
                          | EvTerminate _ | EvWait _ | EvKill _ => true
                          | _ => false
                          end) (trace outcome.2)
    = [EvTerminate Receiver; EvTerminate Socat; EvWait Socat; EvKill Socat].
Proof. cbv zeta. by vm_compute. Qed.
